(** * Pac-Man task acquisition: condition registry and trial ingestion

    A shallow embedding of
    [src/churchland_pipeline_python/tasks/pacman/pacman_acquisition.py]:
    [ConditionParams.parseparams] and [Behavior.make], over a model of the
    part of DataJoint that the two functions call (tables with a heading
    and a primary key, [insert1], restriction [&] by a dictionary, join
    [*], antijoin [-], [fetch], [fetch1]).

    Conventions of the model.
    - Python values are [val]: a number, a string or a list of numbers.
      Numbers are integers; a quantity stored in a [decimal(5,4)] column is
      held in units of 10^-4 (the resolution of the column), see [dec4].
      A Python [bool] is the number 0 or 1, as in Python ([True == 1]) and
      in MySQL ([bool] is [tinyint]).
    - Strings are ASCII; the classes [\d] and [\w] and [str.lower] are the
      ASCII ones.
    - A Python [dict] with string keys is a [gmap string val]; the parameter
      record of a trial, whose iteration order the code observes, is an
      association list.
    - A table is the list of its rows in insertion order, which is the
      order [fetch] returns them in; a row is a [gmap string val].  Foreign
      keys are not checked: every part row the code inserts follows the
      insert of its master in the same branch.
    - What is outside the file is a parameter, the record [env]: the
      primary key of the recording, the two tables of other schemas that
      [make] reads, the directory listing and the readers of
      [utilities.speedgoat].
    - A Python exception is [Err]; the store and the printed lines reached
      before the exception are kept in the result (the transaction in
      which [populate] runs [make] is not modelled). *)

From Stdlib Require Import Ascii String ZArith DecimalString QArith Qround.
From stdpp Require Import gmap strings list fin_maps.

Open Scope Z_scope.

(** ** Python values, strings and exceptions *)

Module Py.

Inductive val :=
  | VNum (z : Z)
  | VStr (s : string)
  | VArr (l : list Z).

#[global] Instance val_eq_dec : EqDecision val.
Proof. solve_decision. Defined.

(** [True] and [False]. *)
Definition py_bool (b : bool) : val := VNum (Z.b2z b).

(** A [decimal(5,4)] quantity in units of 10^-4, as a number and as a
    value. *)
Definition units4 (q : Q) : Z := Qfloor (q * 10000)%Q.
Definition dec4 (q : Q) : val := VNum (units4 q).

Inductive error :=
  | KeyError (k : string)
  | IndexError
  | TypeError
  | ValueError
  | AttributeError
  | StopIteration
  | UnboundLocalError (name : string)
  | DuplicateError (table : string)
  | DataJointError (msg : string)
  | ExternalError (msg : string).

Inductive res (A : Type) :=
  | OK (a : A)
  | Err (e : error).
Arguments OK {A} a.
Arguments Err {A} e.

Definition is_ok {A} (r : res A) : Prop :=
  match r with OK _ => True | Err _ => False end.
Definition is_err {A} (r : res A) : Prop :=
  match r with OK _ => False | Err _ => True end.

Definition res_bind {A B} (r : res A) (k : A → res B) : res B :=
  match r with OK a => k a | Err e => Err e end.

(** [a == b] on values. *)
Definition py_eq (a b : val) : bool := bool_decide (a = b).

(** *** Character classes and string helpers *)

Definition is_digit (c : ascii) : bool :=
  (Ascii.leb "0" c && Ascii.leb c "9")%char.
Definition is_upper (c : ascii) : bool :=
  (Ascii.leb "A" c && Ascii.leb c "Z")%char.
Definition is_lower (c : ascii) : bool :=
  (Ascii.leb "a" c && Ascii.leb c "z")%char.
(** [\w] *)
Definition is_word (c : ascii) : bool :=
  is_digit c || is_upper c || is_lower c || bool_decide (c = "_"%char).

Definition lower_char (c : ascii) : ascii :=
  if is_upper c then ascii_of_nat (nat_of_ascii c + 32) else c.

(** [s.lower()] *)
Fixpoint lower (s : string) : string :=
  match s with
  | EmptyString => EmptyString
  | String c s' => String (lower_char c) (lower s')
  end.

Fixpoint str_drop (n : nat) (s : string) : string :=
  match n, s with
  | O, _ => s
  | S n', String _ s' => str_drop n' s'
  | S _, EmptyString => EmptyString
  end.

(** The longest prefix of [s] whose characters satisfy [p] (a greedy [p*]). *)
Fixpoint take_while (p : ascii → bool) (s : string) : string :=
  match s with
  | String c s' => if p c then String c (take_while p s') else EmptyString
  | EmptyString => EmptyString
  end.

(** [s.endswith(suffix)] *)
Fixpoint endswith (s suffix : string) : bool :=
  bool_decide (s = suffix) ||
  match s with
  | String _ s' => endswith s' suffix
  | EmptyString => false
  end.

(** [s.replace(old, new)] for a non-empty [old]: the occurrences of [old]
    are replaced from left to right, without overlap.  [skip] counts the
    characters of an occurrence that are still to be passed over. *)
Fixpoint replace_from (old new : string) (skip : nat) (s : string) : string :=
  match s with
  | EmptyString => EmptyString
  | String c s' =>
      match skip with
      | S k => replace_from old new k s'
      | O =>
          if String.prefix old s
          then new +:+ replace_from old new (String.length old - 1) s'
          else String c (replace_from old new 0 s')
      end
  end.

Definition str_replace (s old new : string) : string := replace_from old new 0 s.

(** [re.search]: [m] tries a match at the start of its argument and yields
    group 1; the leftmost position where it succeeds wins. *)
Fixpoint re_search (m : string → option string) (s : string) : option string :=
  match m s with
  | Some g => Some g
  | None =>
      match s with
      | String _ s' => re_search m s'
      | EmptyString => None
      end
  end.

(** [s.split(sep)] for a one-character separator. *)
Fixpoint str_split (sep : ascii) (s : string) : list string :=
  match s with
  | EmptyString => [EmptyString]
  | String c s' =>
      if bool_decide (c = sep) then EmptyString :: str_split sep s'
      else match str_split sep s' with
           | x :: xs => String c x :: xs
           | [] => [String c EmptyString]
           end
  end.

(** [sep.join(l)] *)
Definition str_join (sep : string) (l : list string) : string := String.concat sep l.

Definition digit_val (c : ascii) : Z := Z.of_nat (nat_of_ascii c) - 48.

(** [int(s)] on a string of decimal digits; the empty string is a
    [ValueError]. *)
Definition int_of_digits (s : string) : res Z :=
  match s with
  | EmptyString => Err ValueError
  | _ =>
      if forallb is_digit (list_ascii_of_string s)
      then OK (foldl (λ acc c, 10 * acc + digit_val c) 0 (list_ascii_of_string s))
      else Err ValueError
  end.

(** [str(z)] *)
Definition str_of_int (z : Z) : string := NilZero.string_of_int (Z.to_int z).

(** *** Dictionaries *)

(** [params[k]] on the ordered parameter record. *)
Fixpoint get (params : list (string * val)) (k : string) : option val :=
  match params with
  | [] => None
  | (k', v) :: rest => if bool_decide (k' = k) then Some v else get rest k
  end.

Definition getitem (params : list (string * val)) (k : string) : res val :=
  match get params k with
  | Some v => OK v
  | None => Err (KeyError k)
  end.

(** [v[i]] *)
Definition index (v : val) (i : nat) : res val :=
  match v with
  | VArr l => match l !! i with Some x => OK (VNum x) | None => Err IndexError end
  | VStr s => match String.get i s with
              | Some c => OK (VStr (String c EmptyString))
              | None => Err IndexError
              end
  | VNum _ => Err TypeError
  end.

(** [d[k]] on a dictionary. *)
Definition dict_getitem (d : gmap string val) (k : string) : res val :=
  match d !! k with
  | Some v => OK v
  | None => Err (KeyError k)
  end.

(** [dict] called on two dictionaries unpacked as keyword arguments: a key
    given twice is a [TypeError]. *)
Definition kw_merge (a b : gmap string val) : res (gmap string val) :=
  if decide (a ##ₘ b) then OK (a ∪ b) else Err TypeError.

(** What a comprehension or [dict.update] does on a key given twice: the
    later value wins. *)
Definition dict_update (a b : gmap string val) : gmap string val := b ∪ a.

End Py.
Export Py.

(** ** The DataJoint operations the pipeline calls *)

Module DJ.

(** The tables of the schema: [ConditionParams] and its parts, [TaskState],
    [Behavior] and its parts. *)
Inductive tname :=
  | ConditionParams
  | Force
  | Stim
  | Target
  | Static
  | Ramp
  | Sine
  | Chirp
  | TaskState
  | Behavior
  | Behavior_Condition
  | Behavior_Trial.

#[global] Instance tname_eq_dec : EqDecision tname.
Proof. solve_decision. Defined.

Definition table_name (t : tname) : string :=
  match t with
  | ConditionParams => "ConditionParams"
  | Force => "ConditionParams.Force"
  | Stim => "ConditionParams.Stim"
  | Target => "ConditionParams.Target"
  | Static => "ConditionParams.Static"
  | Ramp => "ConditionParams.Ramp"
  | Sine => "ConditionParams.Sine"
  | Chirp => "ConditionParams.Chirp"
  | TaskState => "TaskState"
  | Behavior => "Behavior"
  | Behavior_Condition => "Behavior.Condition"
  | Behavior_Trial => "Behavior.Trial"
  end.

(** A table definition: the attributes above the [---] line, the required
    ones below it, and those declared with [= null]. *)
Record schema := {
  primary : list string;
  secondary : list string;
  nullable : list string
}.

Definition heading (sc : schema) : list string :=
  primary sc ++ secondary sc ++ nullable sc.

(** The [definition] strings of the source.  [recording_pk] is the primary
    key of [acquisition.BehaviorRecording], which [Behavior] inherits. *)
Definition schema_of (recording_pk : list string) (t : tname) : schema :=
  match t with
  | ConditionParams =>
      {| primary := ["condition_id"]; secondary := []; nullable := [] |}
  | Force =>
      {| primary := ["condition_id"; "force_id"];
         secondary := ["force_max"; "force_offset"; "force_inverted"];
         nullable := [] |}
  | Stim =>
      {| primary := ["condition_id"; "stim_id"];
         secondary := ["stim_current"; "stim_electrode"; "stim_polarity";
                       "stim_pulses"; "stim_width1"; "stim_width2";
                       "stim_interphase"; "stim_frequency"];
         nullable := [] |}
  | Target =>
      {| primary := ["condition_id"; "target_id"];
         secondary := ["target_duration"; "target_offset"; "target_pad"];
         nullable := [] |}
  | Static =>
      {| primary := ["condition_id"; "target_id"]; secondary := [];
         nullable := [] |}
  | Ramp =>
      {| primary := ["condition_id"; "target_id"];
         secondary := ["target_amplitude"]; nullable := [] |}
  | Sine =>
      {| primary := ["condition_id"; "target_id"];
         secondary := ["target_amplitude"; "target_frequency"];
         nullable := [] |}
  | Chirp =>
      {| primary := ["condition_id"; "target_id"];
         secondary := ["target_amplitude"; "target_frequency_init";
                       "target_frequency_final"];
         nullable := [] |}
  | TaskState =>
      {| primary := ["task_state_id"]; secondary := ["task_state_name"];
         nullable := [] |}
  | Behavior =>
      {| primary := recording_pk; secondary := []; nullable := [] |}
  | Behavior_Condition =>
      {| primary := recording_pk ++ ["condition_id"]; secondary := [];
         nullable := [] |}
  | Behavior_Trial =>
      {| primary := recording_pk ++ ["trial_number"];
         secondary := ["condition_id"; "save_tag"; "successful_trial";
                       "simulation_time"; "task_state"; "force_raw_online";
                       "force_filt_online"; "reward"; "photobox"];
         nullable := ["stim"] |}
  end.

(** The store: every table with its rows, in insertion order. *)
Definition store : Type := tname → list (gmap string val).

Definition empty_store : store := λ _, [].

Definition set_table (s : store) (t : tname) (rows : list (gmap string val)) : store :=
  λ t', if decide (t' = t) then rows else s t'.

(** *** Query expressions *)

(** A query is built by the code and evaluated when it is used. *)
Inductive query :=
  | QTable (t : tname)
  | QJoin (a b : query)
  | QMinus (a b : query)
  | QRestrict (a : query) (d : gmap string val).

Record relation := {
  rel_heading : list string;
  rel_rows : list (gmap string val)
}.

(** The attributes two headings share. *)
Definition common (ha hb : list string) : list string :=
  filter (λ k, k ∈ hb) ha.

Definition agree (c : list string) (a b : gmap string val) : Prop :=
  Forall (λ k, a !! k = b !! k) c.

#[global] Instance agree_dec c a b : Decision (agree c a b).
Proof. unfold agree. apply _. Defined.

(** [A * B]: the natural join on the shared attributes. *)
Definition join (A B : relation) : relation :=
  let c := common (rel_heading A) (rel_heading B) in
  {| rel_heading :=
       rel_heading A ++ filter (λ k, k ∉ rel_heading A) (rel_heading B);
     rel_rows :=
       a ← rel_rows A;
       b ← rel_rows B;
       if decide (agree c a b) then [a ∪ b] else [] |}.

(** [A - B]: the rows of [A] that match no row of [B] on the shared
    attributes. *)
Definition minus (A B : relation) : relation :=
  let c := common (rel_heading A) (rel_heading B) in
  {| rel_heading := rel_heading A;
     rel_rows :=
       filter (λ a, Forall (λ b, ¬ agree c a b) (rel_rows B)) (rel_rows A) |}.

(** A row satisfies a dictionary when it has the dictionary's value at each
    key that is in the heading; the other keys are ignored. *)
Definition matches (h : list string) (d r : gmap string val) : Prop :=
  map_Forall (λ k v, k ∈ h → r !! k = Some v) d.

#[global] Instance matches_dec h d r : Decision (matches h d r).
Proof. unfold matches. apply _. Defined.

(** [A & d] *)
Definition restrict (A : relation) (d : gmap string val) : relation :=
  {| rel_heading := rel_heading A;
     rel_rows := filter (matches (rel_heading A) d) (rel_rows A) |}.

Fixpoint eval (recording_pk : list string) (s : store) (q : query) : relation :=
  match q with
  | QTable t =>
      {| rel_heading := heading (schema_of recording_pk t); rel_rows := s t |}
  | QJoin a b => join (eval recording_pk s a) (eval recording_pk s b)
  | QMinus a b => minus (eval recording_pk s a) (eval recording_pk s b)
  | QRestrict a d => restrict (eval recording_pk s a) d
  end.

(** [bool(rel)] *)
Definition nonempty (A : relation) : bool :=
  match rel_rows A with [] => false | _ :: _ => true end.

(** [rel.fetch(attr)] *)
Fixpoint fetch_rows (rows : list (gmap string val)) (attr : string) : res (list val) :=
  match rows with
  | [] => OK []
  | r :: rest =>
      res_bind (dict_getitem r attr) (λ v,
      res_bind (fetch_rows rest attr) (λ vs, OK (v :: vs)))
  end.

Definition fetch (A : relation) (attr : string) : res (list val) :=
  fetch_rows (rel_rows A) attr.

(** [rel.fetch1(attr)]: the relation must have exactly one row. *)
Definition fetch1 (A : relation) (attr : string) : res val :=
  match rel_rows A with
  | [r] => dict_getitem r attr
  | _ => Err (DataJointError "fetch1 should only return one tuple")
  end.

(** [rel.fetch(attr, limit=1)[0]] *)
Definition fetch_first (A : relation) (attr : string) : res val :=
  match rel_rows A with
  | r :: _ => dict_getitem r attr
  | [] => Err IndexError
  end.

(** *** Insertion *)

Definition pk_of (sc : schema) (r : gmap string val) : list (option val) :=
  (λ k, r !! k) <$> primary sc.

(** [t.insert1(r, skip_duplicates=skip)] on the rows of [t]: a field that
    is not in the heading, a required field that is missing and (unless
    [skip]) a primary key that is already there are errors; with [skip] a
    row whose primary key is already there is left as it is. *)
Definition insert_row (sc : schema) (t : tname) (skip : bool)
    (rows : list (gmap string val)) (r : gmap string val)
    : res (list (gmap string val)) :=
  match filter (λ k, k ∉ heading sc) (map_to_list r).*1 with
  | k :: _ => Err (KeyError k)
  | [] =>
      match filter (λ k, r !! k = None) (primary sc ++ secondary sc) with
      | _ :: _ => Err (DataJointError "a field has no default value")
      | [] =>
          if decide (Exists (λ r', pk_of sc r' = pk_of sc r) rows)
          then if skip then OK rows else Err (DuplicateError (table_name t))
          else OK (rows ++ [r])
      end
  end.

End DJ.
Export DJ.

(** ** Computations on the store *)

(** A computation reads and writes the store, prints lines and may raise;
    what was written and printed before an exception stays. *)
Definition M (A : Type) : Type := store → res A * store * list string.

Definition ret {A} (a : A) : M A := λ s, (OK a, s, []).

Definition raise {A} (e : error) : M A := λ s, (Err e, s, []).

Definition bind {A B} (m : M A) (k : A → M B) : M B := λ s,
  match m s with
  | (OK a, s1, o1) =>
      match k a s1 with
      | (r, s2, o2) => (r, s2, o1 ++ o2)
      end
  | (Err e, s1, o1) => (Err e, s1, o1)
  end.

Declare Scope pipeline_scope.
Delimit Scope pipeline_scope with pipeline.
Notation "x <- m ;; k" := (bind m (λ x, k))
  (at level 20, m at level 99, k at level 200, right associativity) : pipeline_scope.
Notation "' p <- m ;; k" := (bind m (λ x, match x with p => k end))
  (at level 20, p pattern, m at level 99, k at level 200, right associativity) : pipeline_scope.
Notation "m ;; k" := (bind m (λ _, k))
  (at level 100, k at level 200, right associativity) : pipeline_scope.
Notation "x <-? r ;; k" := (res_bind r (λ x, k))
  (at level 20, r at level 99, k at level 200, right associativity) : pipeline_scope.
Notation "' p <-? r ;; k" := (res_bind r (λ x, match x with p => k end))
  (at level 20, p pattern, r at level 99, k at level 200, right associativity) : pipeline_scope.
Open Scope pipeline_scope.

(** A pure step that may raise. *)
Definition lift {A} (r : res A) : M A := λ s, (r, s, []).

(** [print(line)] *)
Definition print (line : string) : M unit := λ s, (OK tt, s, [line]).

(** Evaluate a query on the current store. *)
Definition query_now (recording_pk : list string) (q : query) : M relation :=
  λ s, (OK (eval recording_pk s q), s, []).

(** [for x in l: body(x)] *)
Fixpoint for_each {A} (l : list A) (body : A → M unit) : M unit :=
  match l with
  | [] => ret tt
  | x :: rest => body x ;; for_each rest body
  end.

(** [t.insert1(r, skip_duplicates=skip)] *)
Definition insert1 (recording_pk : list string) (t : tname)
    (r : gmap string val) (skip : bool) : M unit := λ s,
  match insert_row (schema_of recording_pk t) t skip (s t) r with
  | OK rows => (OK tt, set_table s t rows, [])
  | Err e => (Err e, s, [])
  end.

(** [t.insert(rows, skip_duplicates=skip)] *)
Definition insert (recording_pk : list string) (t : tname)
    (rows : list (gmap string val)) (skip : bool) : M unit :=
  for_each rows (λ r, insert1 recording_pk t r skip).

(** [for x in l: acc = body(acc, x)], for a loop that updates a local
    variable. *)
Fixpoint for_fold {A S} (l : list A) (acc : S) (body : S → A → M S) : M S :=
  match l with
  | [] => ret acc
  | x :: rest => acc' <- body acc x ;; for_fold rest acc' body
  end.

(** ** [ConditionParams.parseparams] *)

(** The value of the dictionary [cond_attr], keys [Force], [Stim], [Target]
    and [TargetType]. *)
Record cond_attr := {
  force_attr : gmap string val;
  stim_attr : gmap string val;
  targ_attr : gmap string val;
  targ_type_attr : gmap string val
}.

(** The pattern of line 133 tried at the start of [s]: the letters [stim],
    then the group, an upper-case letter followed by the longest run of
    word characters. *)
Definition match_stim (s : string) : option string :=
  if String.prefix "stim" s then
    match str_drop 4 s with
    | String c rest =>
        if is_upper c then Some (String c (take_while is_word rest)) else None
    | EmptyString => None
    end
  else None.

(** [params.get('stim')==1] *)
Definition stim_on (params : list (string * val)) : bool :=
  match get params "stim" with
  | Some v => py_eq v (VNum 1)
  | None => false
  end.

(** The key expression and the filter of the comprehension of lines
    134-138: the field that a key of the record gives, if it gives one. *)
Definition stim_field (k : string) : option string :=
  match re_search match_stim k with
  | Some g =>
      if bool_decide (k ≠ "stimDelay") then Some ("stim_" +:+ lower g) else None
  | None => None
  end.

(** The comprehension itself: the record is read in its order and a later
    key that gives the same field overwrites an earlier one. *)
Definition stim_attr_of (params : list (string * val)) : gmap string val :=
  foldl (λ acc kv,
           match stim_field kv.1 with
           | Some f => <[f := kv.2]> acc
           | None => acc
           end) ∅ params.

(** ** The pattern of line 133 read as a regular expression *)

(** The classes [A-Z] and [\w] on ASCII characters, by their codes. *)
Definition upper_code (c : ascii) : Prop := (65 ≤ nat_of_ascii c ≤ 90)%nat.

Definition word_code (c : ascii) : Prop :=
  (48 ≤ nat_of_ascii c ≤ 57 ∨ 65 ≤ nat_of_ascii c ≤ 90 ∨
   97 ≤ nat_of_ascii c ≤ 122 ∨ nat_of_ascii c = 95)%nat.

(** What [str.lower] does to an ASCII character. *)
Definition lower_code (c : ascii) : ascii :=
  if decide (65 ≤ nat_of_ascii c ≤ 90)%nat then ascii_of_nat (nat_of_ascii c + 32)
  else c.

(** The search of the pattern of line 133 in the key [k] finds the group
    [g]: [k] is some [pre], the letters [stim], [g] and some [post]; [g]
    is an upper-case letter followed by word characters, as many as there
    are ([post] does not go on with one); and the letters [stim] followed
    by an upper-case letter do not stand at an earlier place of [k] (the
    leftmost match wins). *)
Definition stim_search (k g : string) : Prop :=
  ∃ pre post c w,
    k = pre +:+ "stim" +:+ g +:+ post ∧
    g = String c w ∧ upper_code c ∧
    (∀ d, d ∈ list_ascii_of_string w → word_code d) ∧
    (∀ d post', post = String d post' → ¬ word_code d) ∧
    (∀ pre' c' post', k = pre' +:+ "stim" +:+ String c' post' → upper_code c' →
                      (String.length pre ≤ String.length pre')%nat).

(** Lines 153-181: the relation and the attributes of the target type;
    no branch is taken for a tag other than the four. *)
Definition targ_type_of (params : list (string * val))
    : res (option (tname * gmap string val)) :=
  type <-? getitem params "type" ;;
  if py_eq type (VStr "STA") then
    OK (Some (Static, ∅))
  else if py_eq type (VStr "RMP") then
    amplitude <-? getitem params "amplitude" ;;
    amplitude0 <-? index amplitude 0 ;;
    OK (Some (Ramp, {[ "target_amplitude" := amplitude0 ]}))
  else if py_eq type (VStr "SIN") then
    amplitude <-? getitem params "amplitude" ;;
    amplitude0 <-? index amplitude 0 ;;
    frequency <-? getitem params "frequency" ;;
    frequency0 <-? index frequency 0 ;;
    OK (Some (Sine, {[ "target_amplitude" := amplitude0;
                       "target_frequency" := frequency0 ]}))
  else if py_eq type (VStr "CHP") then
    amplitude <-? getitem params "amplitude" ;;
    amplitude0 <-? index amplitude 0 ;;
    frequency <-? getitem params "frequency" ;;
    frequency0 <-? index frequency 0 ;;
    frequency1 <-? index frequency 1 ;;
    OK (Some (Chirp, {[ "target_amplitude" := amplitude0;
                        "target_frequency_init" := frequency0;
                        "target_frequency_final" := frequency1 ]}))
  else OK None.

Definition parseparams (params : list (string * val))
    : res (cond_attr * query * tname) :=
  (* force attributes *)
  frcMax <-? getitem params "frcMax" ;;
  frcOff <-? getitem params "frcOff" ;;
  frcPol <-? getitem params "frcPol" ;;
  let force_attr : gmap string val :=
    {[ "force_max" := frcMax;
       "force_offset" := frcOff;
       "force_inverted" := py_bool (py_eq frcPol (VNum (-1))) ]} in
  let cond_rel := QTable Force in
  (* stimulation attributes *)
  let '(stim_attr, cond_rel) :=
    if stim_on params
    then (stim_attr_of params, QJoin cond_rel (QTable Stim))
    else (∅, QMinus cond_rel (QTable Stim)) in
  (* target attributes *)
  duration <-? getitem params "duration" ;;
  offset <-? getitem params "offset" ;;
  offset0 <-? index offset 0 ;;
  padDur <-? getitem params "padDur" ;;
  let targ_attr : gmap string val :=
    {[ "target_duration" := duration;
       "target_offset" := offset0;
       "target_pad" := padDur ]} in
  (* target type attributes *)
  targ_type <-? targ_type_of params ;;
  match targ_type with
  | None => Err (UnboundLocalError "targ_type_rel")
  | Some (targ_type_rel, targ_type_attr) =>
      let cond_rel := QJoin (QJoin cond_rel (QTable Target)) (QTable targ_type_rel) in
      OK ({| force_attr := force_attr; stim_attr := stim_attr;
             targ_attr := targ_attr; targ_type_attr := targ_type_attr |},
          cond_rel, targ_type_rel)
  end.

(** ** [Behavior.make] *)

(** What [make] takes from outside this file: the primary key of
    [acquisition.BehaviorRecording], two [fetch1] on tables of other
    schemas, [reference.EngramPath.ensurelocal], [os.listdir] and the three
    readers of [utilities.speedgoat]. *)
Record env := {
  recording_pk : list string;
  fetch_recording : gmap string val → res (string * val);
  ensurelocal : string → res string;
  fetch_task_controller : gmap string val → res string;
  readtaskstates : string → res (list (gmap string val));
  listdir : string → res (list string);
  readtrialparams : string → res (list (string * val));
  readtrialdata : string → val → val → res (gmap string val)
}.

(** [os.path.sep] *)
Definition sep : ascii := "/"%char.

(** The pattern [beh_(\d* )] tried at the start of [s]. *)
Definition match_beh (s : string) : option string :=
  if String.prefix "beh_" s
  then Some (take_while is_digit (str_drop 4 s))
  else None.

(** [re.search(r'beh_(\d* )', f).group(1)]: [group] on [None] is an
    [AttributeError]. *)
Definition trial_token (f : string) : res string :=
  match re_search match_beh f with
  | Some g => OK g
  | None => Err AttributeError
  end.

(** Line 288: the four dictionaries merged in the order of the keys of
    [cond_attr]. *)
Definition all_cond_attr (a : cond_attr) : gmap string val :=
  foldl dict_update ∅ [force_attr a; stim_attr a; targ_attr a; targ_type_attr a].

Definition as_int (v : val) : res Z :=
  match v with
  | VNum z => OK z
  | _ => Err TypeError
  end.

Fixpoint ints_of (vs : list val) : res (list Z) :=
  match vs with
  | [] => OK []
  | v :: rest => z <-? as_int v ;; zs <-? ints_of rest ;; OK (z :: zs)
  end.

(** [max(ids)] *)
Definition py_max (ids : list Z) : res Z :=
  match ids with
  | [] => Err ValueError
  | x :: rest => OK (foldl Z.max x rest)
  end.

(** [range(n)] *)
Definition range (n : Z) : list Z := seqZ 0 n.

(** [next(i for i in range(2+max(ids)) if i not in ids)] *)
Definition first_free (ids : list Z) : res Z :=
  m <-? py_max ids ;;
  match list_find (λ i, i ∉ ids) (range (2 + m)) with
  | Some (_, i) => OK i
  | None => Err StopIteration
  end.

(** Lines 294-298 and 317-321, the same text for the four identifiers: 0
    for an empty table, else the first free number among the fetched
    identifiers. *)
Definition new_id (rows : list (gmap string val)) (id_attr : string) : res Z :=
  match rows with
  | [] => OK 0
  | _ :: _ =>
      vs <-? fetch_rows rows id_attr ;;
      ids <-? ints_of vs ;;
      first_free ids
  end.

(** The names the loop of line 304 runs over. *)
Inductive part := PForce | PStim | PTarget.

Definition part_name (p : part) : string :=
  match p with PForce => "Force" | PStim => "Stim" | PTarget => "Target" end.

(** [getattr(ConditionParams, cond_part_name)] *)
Definition part_rel (p : part) : tname :=
  match p with PForce => Force | PStim => Stim | PTarget => Target end.

(** [cond_part_name.lower() + '_id'] *)
Definition part_id (p : part) : string := lower (part_name p) +:+ "_id".

(** [cond_attr[cond_part_name]] *)
Definition get_part (a : cond_attr) (p : part) : gmap string val :=
  match p with
  | PForce => force_attr a
  | PStim => stim_attr a
  | PTarget => targ_attr a
  end.

(** The dictionary [cond_attr[cond_part_name]] is updated in place. *)
Definition set_part (a : cond_attr) (p : part) (d : gmap string val) : cond_attr :=
  match p with
  | PForce => {| force_attr := d; stim_attr := stim_attr a;
                 targ_attr := targ_attr a; targ_type_attr := targ_type_attr a |}
  | PStim => {| force_attr := force_attr a; stim_attr := d;
                targ_attr := targ_attr a; targ_type_attr := targ_type_attr a |}
  | PTarget => {| force_attr := force_attr a; stim_attr := stim_attr a;
                  targ_attr := d; targ_type_attr := targ_type_attr a |}
  end.

(** Lines 306-327, the body of the loop over [Force], [Stim], [Target]. *)
Definition insert_part (E : env) (cond_key : gmap string val)
    (a : cond_attr) (p : part) : M cond_attr :=
  let cond_part_attr := get_part a p in
  if decide (cond_part_attr = ∅) then ret a
  else
    let cond_part_rel := part_rel p in
    let cond_part_id := part_id p in
    found <- query_now (recording_pk E)
               (QRestrict (QTable cond_part_rel) cond_part_attr) ;;
    id <- (if nonempty found
           then lift (fetch_first found cond_part_id)
           else
             all <- query_now (recording_pk E) (QTable cond_part_rel) ;;
             new_cond_part_id <- lift (new_id (rel_rows all) cond_part_id) ;;
             ret (VNum new_cond_part_id)) ;;
    let cond_part_attr := <[cond_part_id := id]> cond_part_attr in
    row <- lift (kw_merge cond_key cond_part_attr) ;;
    insert1 (recording_pk E) cond_part_rel row false ;;
    ret (set_part a p cond_part_attr).

(** Lines 287-330: insert a new condition if none exists. *)
Definition insert_condition (E : env) (a : cond_attr) (cond_rel : query)
    (targ_type_rel : tname) : M unit :=
  found <- query_now (recording_pk E) (QRestrict cond_rel (all_cond_attr a)) ;;
  if nonempty found then ret tt
  else
    all <- query_now (recording_pk E) (QTable ConditionParams) ;;
    new_cond_id <- lift (new_id (rel_rows all) "condition_id") ;;
    let cond_key : gmap string val := {[ "condition_id" := VNum new_cond_id ]} in
    insert1 (recording_pk E) ConditionParams cond_key false ;;
    a <- for_fold [PForce; PStim; PTarget] a (insert_part E cond_key) ;;
    target_id <- lift (dict_getitem (targ_attr a) "target_id") ;;
    row0 <- lift (kw_merge cond_key (targ_type_attr a)) ;;
    row <- lift (kw_merge row0 {[ "target_id" := target_id ]}) ;;
    insert1 (recording_pk E) targ_type_rel row false.

(** Line 358: the identifier of the one condition that matches. *)
Definition fetch_condition_id (E : env) (a : cond_attr) (cond_rel : query) : M val :=
  found <- query_now (recording_pk E) (QRestrict cond_rel (all_cond_attr a)) ;;
  lift (fetch1 found "condition_id").

(** Lines 272-330, the body of the loop over the parameter files. *)
Definition populate_condition (E : env) (behavior_path : string)
    (data_files : list string) (f_param : string) : M unit :=
  trial <- lift (trial_token f_param) ;;
  if bool_decide (str_replace f_param "params" "data" ∉ data_files) then
    print ("Missing data file for trial " +:+ trial)
  else
    params <- lift (readtrialparams E (behavior_path +:+ f_param)) ;;
    '(a, cond_rel, targ_type_rel) <- lift (parseparams params) ;;
    insert_condition E a cond_rel targ_type_rel.

(** Lines 357-360: insert condition data. *)
Definition insert_condition_data (E : env) (key : gmap string val)
    (a : cond_attr) (cond_rel : query) : M (gmap string val) :=
  cond_id <- fetch_condition_id E a cond_rel ;;
  cond_key <- lift (kw_merge key {[ "condition_id" := cond_id ]}) ;;
  insert1 (recording_pk E) Behavior_Condition cond_key true ;;
  ret cond_key.

(** Lines 362-364: insert trial data.  The arguments of [dict] are
    evaluated in their order: the two dictionaries are merged before
    [params['saveTag']] is read. *)
Definition insert_trial_data (E : env) (cond_key data : gmap string val)
    (trial : Z) (params : list (string * val)) : M unit :=
  row0 <- lift (kw_merge cond_key data) ;;
  save_tag <- lift (getitem params "saveTag") ;;
  trial_key <- lift (kw_merge row0 {[ "trial_number" := VNum trial;
                                      "save_tag" := save_tag ]}) ;;
  insert1 (recording_pk E) Behavior_Trial trial_key false.

(** Lines 338-364, the body of the loop over the data files. *)
Definition populate_trial (E : env) (key : gmap string val)
    (behavior_path : string) (fs success_state : val)
    (param_files : list string) (f_data : string) : M unit :=
  token <- lift (trial_token f_data) ;;
  trial <- lift (int_of_digits token) ;;
  match list_find (λ f, str_replace f_data "data" "params" = f) param_files with
  | None => print ("Missing parameters file for trial " +:+ str_of_int trial)
  | Some (_, param_file) =>
      params <- lift (readtrialparams E (behavior_path +:+ param_file)) ;;
      '(a, cond_rel, targ_type_rel) <- lift (parseparams params) ;;
      data <- lift (readtrialdata E (behavior_path +:+ f_data) success_state fs) ;;
      cond_key <- insert_condition_data E key a cond_rel ;;
      insert_trial_data E cond_key data trial params
  end.

(** Line 251: the directory of the summary file, with the separator at its
    end. *)
Definition behavior_path_of (behavior_summary_path : string) : string :=
  str_join (String sep EmptyString)
       (removelast (str_split sep behavior_summary_path) ++ [EmptyString]).

Definition make (E : env) (key : gmap string val) : M unit :=
  insert1 (recording_pk E) Behavior key false ;;
  '(behavior_summary_path, fs) <- lift (fetch_recording E key) ;;
  behavior_summary_path <- lift (ensurelocal E behavior_summary_path) ;;
  let behavior_path := behavior_path_of behavior_summary_path in
  task_controller_hardware <- lift (fetch_task_controller E key) ;;
  if bool_decide (task_controller_hardware = "Speedgoat") then
    summary <- lift (readtaskstates E behavior_summary_path) ;;
    insert (recording_pk E) TaskState summary true ;;
    behavior_files <- lift (listdir E behavior_path) ;;
    let param_files := filter (λ f, endswith f ".params") behavior_files in
    let data_files := filter (λ f, endswith f ".data") behavior_files in
    for_each param_files (populate_condition E behavior_path data_files) ;;
    states <- query_now (recording_pk E)
                (QRestrict (QTable TaskState)
                           {[ "task_state_name" := VStr "Success" ]}) ;;
    success_state <- lift (fetch1 states "task_state_id") ;;
    for_each data_files
      (populate_trial E key behavior_path fs success_state param_files)
  else ret tt.

(** The operation the specification calls [resolveOrCreate]: the code does
    it in two steps, the insertion of the condition when none matches
    (lines 285-330) and the lookup of its identifier (line 358). *)
Definition resolveOrCreate (E : env) (params : list (string * val)) : M val :=
  '(a, cond_rel, targ_type_rel) <- lift (parseparams params) ;;
  insert_condition E a cond_rel targ_type_rel ;;
  fetch_condition_id E a cond_rel.

(** ** A sample recording *)

Module Sample.

(** The key of a recording. *)
Definition key : gmap string val :=
  {[ "session_date" := VStr "2020-01-12"; "monkey" := VStr "Cousteau" ]}.

(** A ramp without stimulation: maximal force 5, offset 0.1, not inverted;
    duration 2.0, offset 0.0, padding 0.1; the amplitude is given. *)
Definition ramp (amplitude : Q) : list (string * val) :=
  [ ("frcMax", VNum 5); ("frcOff", dec4 0.1); ("frcPol", VNum 1);
    ("duration", dec4 2.0); ("offset", VArr [units4 0.0]);
    ("padDur", dec4 0.1); ("type", VStr "RMP");
    ("amplitude", VArr [units4 amplitude]); ("saveTag", VNum 3) ].

(** The same ramp with the profile type [ty]. *)
Definition typed (ty : string) : list (string * val) :=
  [ ("frcMax", VNum 5); ("frcOff", dec4 0.1); ("frcPol", VNum 1);
    ("duration", dec4 2.0); ("offset", VArr [units4 0.0]);
    ("padDur", dec4 0.1); ("type", VStr ty);
    ("amplitude", VArr [units4 0.5]); ("saveTag", VNum 3) ].

(** A static target with stimulation and with the polarity [frcPol]. *)
Definition stimulated (frcPol : Z) : list (string * val) :=
  [ ("frcMax", VNum 5); ("frcOff", dec4 0.1); ("frcPol", VNum frcPol);
    ("stim", VNum 1); ("stimDelay", VNum 40);
    ("stimCurrent", VNum 50); ("stimElectrode", VNum 12);
    ("stimPolarity", VNum 1); ("stimPulses", VNum 3);
    ("stimWidth1", VNum 200); ("stimWidth2", VNum 200);
    ("stimInterphase", VNum 100); ("stimFrequency", VNum 300);
    ("duration", dec4 2.0); ("offset", VArr [units4 0.0]);
    ("padDur", dec4 0.1); ("type", VStr "STA"); ("saveTag", VNum 3) ].

(** What the reader gives for a data file. *)
Definition data : gmap string val :=
  {[ "successful_trial" := py_bool true;
     "simulation_time" := VArr [0; 1; 2];
     "task_state" := VArr [1; 1; 7];
     "force_raw_online" := VArr [10; 20; 30];
     "force_filt_online" := VArr [1; 2; 3];
     "reward" := VArr [0; 0; 1];
     "photobox" := VArr [0; 1; 0] ]}.

Definition task_states : list (gmap string val) :=
  [ {[ "task_state_id" := VNum 1; "task_state_name" := VStr "Init" ]};
    {[ "task_state_id" := VNum 7; "task_state_name" := VStr "Success" ]} ].

Definition dir : string := "/data/2020-01-12/speedgoat/".

Fixpoint assoc {A} (k : string) (l : list (string * A)) : option A :=
  match l with
  | [] => None
  | (k', a) :: rest => if bool_decide (k' = k) then Some a else assoc k rest
  end.

(** A recording on [hardware] whose directory lists [files]; [contents]
    gives the parameter record of a path. *)
Definition world (hardware : string) (files : list string)
    (contents : list (string * list (string * val))) : env :=
  {| recording_pk := ["session_date"; "monkey"];
     fetch_recording := λ _, OK (dir +:+ "summary.txt", VNum 1000);
     ensurelocal := λ path, OK path;
     fetch_task_controller := λ _, OK hardware;
     readtaskstates := λ _, OK task_states;
     listdir := λ _, OK files;
     readtrialparams := λ path,
       match assoc path contents with
       | Some params => OK params
       | None => Err (ExternalError "no such file")
       end;
     readtrialdata := λ _ _ _, OK data |}.

(** Two trials, both ramps of amplitude 0.5. *)
Definition two_trials : list string :=
  [ "pacman_beh_001.params"; "pacman_beh_001.data";
    "pacman_beh_002.params"; "pacman_beh_002.data" ].

Definition two_ramps : list (string * list (string * val)) :=
  [ (dir +:+ "pacman_beh_001.params", ramp 0.5);
    (dir +:+ "pacman_beh_002.params", ramp 0.5);
    (dir +:+ "pacman_beh_007.params", ramp 0.6) ].

(** The first trial has a profile type that does not exist. *)
Definition one_unknown : list (string * list (string * val)) :=
  [ (dir +:+ "pacman_beh_001.params", typed "XYZ");
    (dir +:+ "pacman_beh_002.params", ramp 0.5) ].

(** The identifier of the part row of [t] that belongs to condition [c]. *)
Definition part_id_of (E : env) (t : tname) (id_attr : string) (c : val) : M val :=
  found <- query_now (recording_pk E)
             (QRestrict (QTable t) {[ "condition_id" := c ]}) ;;
  lift (fetch1 found id_attr).

(** The identifiers a record resolves to: [condition_id], [force_id] and
    [target_id]. *)
Definition resolve_ids (E : env) (params : list (string * val))
    : M (val * val * val) :=
  c <- resolveOrCreate E params ;;
  f <- part_id_of E Force "force_id" c ;;
  t <- part_id_of E Target "target_id" c ;;
  ret (c, f, t).

(** The three resolutions of the example, on an empty registry. *)
Definition three_ramps : res ((val * val * val) * (val * val * val) * (val * val * val)) :=
  let E := world "Speedgoat" [] [] in
  ((x1 <- resolve_ids E (ramp 0.5) ;;
    x2 <- resolve_ids E (ramp 0.5) ;;
    x3 <- resolve_ids E (ramp 0.6) ;;
    ret (x1, x2, x3)) empty_store).1.1.

(** The registry after the three resolutions. *)
Definition three_ramps_registry : store :=
  let E := world "Speedgoat" [] [] in
  ((resolveOrCreate E (ramp 0.5) ;; resolveOrCreate E (ramp 0.5) ;;
    resolveOrCreate E (ramp 0.6)) empty_store).1.2.

(** The values a table has in the columns [cols], row by row. *)
Definition columns (cols : list string) (rows : list (gmap string val))
    : list (list (option val)) :=
  (λ r : gmap string val, (λ k, r !! k) <$> cols) <$> rows.

(** A trial whose file names have the letters [data] before the
    extension. *)
Definition data_in_name : list string :=
  [ "mydata_beh_001.params"; "mydata_beh_001.data" ].

Definition data_in_name_ramp : list (string * list (string * val)) :=
  [ (dir +:+ "mydata_beh_001.params", ramp 0.5) ].

(** A registry with a stimulated condition and a ramp. *)
Definition registry : store :=
  let E := world "Speedgoat" [] [] in
  ((resolveOrCreate E (stimulated (-1)) ;; resolveOrCreate E (ramp 0.5))
     empty_store).1.2.

(** The store after the ingestion of the two trials. *)
Definition ingested : store :=
  (make (world "Speedgoat" two_trials two_ramps) key empty_store).1.2.

(** The key of a second recording. *)
Definition key2 : gmap string val :=
  {[ "session_date" := VStr "2020-01-13"; "monkey" := VStr "Cousteau" ]}.

(** The two trials, a parameter file for trial 007 and a data file for
    trial 9 that have no counterpart, and a file that is no trial file. *)
Definition unpaired : list string :=
  "pacman_beh_007.params" :: two_trials ++ ["x_beh_9.data"; "notes.txt"].

(** Two trials with stimulation, of the two polarities. *)
Definition two_stimulated : list (string * list (string * val)) :=
  [ (dir +:+ "pacman_beh_001.params", stimulated 1);
    (dir +:+ "pacman_beh_002.params", stimulated (-1)) ].

(** A static target with the stimulation flag set and no stimulation
    field: [stimDelay] is no field of the Stim group. *)
Definition flag_only : list (string * val) :=
  [ ("frcMax", VNum 5); ("frcOff", dec4 0.1); ("frcPol", VNum 1);
    ("stim", VNum 1); ("stimDelay", VNum 40);
    ("duration", dec4 2.0); ("offset", VArr [units4 0.0]);
    ("padDur", dec4 0.1); ("type", VStr "STA"); ("saveTag", VNum 3) ].

(** Two trials with this record. *)
Definition two_flag_only : list (string * list (string * val)) :=
  [ (dir +:+ "pacman_beh_001.params", flag_only);
    (dir +:+ "pacman_beh_002.params", flag_only) ].

(** A parameter file for trial 007 without data file, and a trial whose
    two files have the letters [data] before the extension. *)
Definition stem_unpaired : list string :=
  "pacman_beh_007.params" :: data_in_name.

End Sample.

(** ** Frames *)

(** A computation leaves the tables that satisfy [P] as they are. *)
Definition preserves {A} (P : tname → Prop) (m : M A) : Prop :=
  ∀ s r s' o, m s = (r, s', o) → ∀ t, P t → s' t = s t.

(** A computation prints nothing. *)
Definition silent {A} (m : M A) : Prop :=
  ∀ s r s' o, m s = (r, s', o) → o = [].

(** A computation raises, whatever the store, and leaves the tables that
    satisfy [P] as they are. *)
Definition aborts_keeping {A} (P : tname → Prop) (m : M A) : Prop :=
  ∀ s r s' o, m s = (r, s', o) → is_err r ∧ ∀ t, P t → s' t = s t.

(** The tables of the trials of a recording. *)
Definition trial_table (t : tname) : Prop :=
  t = Behavior_Condition ∨ t = Behavior_Trial.

(** ** Runs that differ in one printed line *)

(** The environment [E] with another content of the recording's directory. *)
Definition with_files (E : env) (files : list string) : env :=
  {| recording_pk := recording_pk E;
     fetch_recording := fetch_recording E;
     ensurelocal := ensurelocal E;
     fetch_task_controller := fetch_task_controller E;
     readtaskstates := readtaskstates E;
     listdir := λ _, OK files;
     readtrialparams := readtrialparams E;
     readtrialdata := readtrialdata E |}.



(** * Notions for the further properties *)

(** ** Properties of the store that a run keeps *)

(** A computation keeps the property [I] of the store, whether it returns
    or raises. *)
Definition keeps {A} (I : store → Prop) (m : M A) : Prop :=
  ∀ s r s' o, m s = (r, s', o) → I s → I s'.

(** A property of the store that no accepted insertion breaks. *)
Definition insert_stable (rpk : list string) (I : store → Prop) : Prop :=
  ∀ s t skip row rows,
    I s → insert_row (schema_of rpk t) t skip (s t) row = OK rows →
    I (set_table s t rows).

(** ** References between the tables *)

(** The row [r] has the attributes [ks], and some row of [rows] has the
    same values in them. *)
Definition refers (rows : list (gmap string val)) (ks : list string)
    (r : gmap string val) : Prop :=
  ∃ r', r' ∈ rows ∧ ∀ k, k ∈ ks → is_Some (r !! k) ∧ r' !! k = r !! k.

(** The arrows of the [definition] strings between the tables of the
    schema: the table, the table it refers to, and the attributes of the
    reference (the primary key of the table referred to). *)
Definition foreign_keys (rpk : list string) : list (tname * tname * list string) :=
  [ (Force, ConditionParams, ["condition_id"]);
    (Stim, ConditionParams, ["condition_id"]);
    (Target, ConditionParams, ["condition_id"]);
    (Static, Target, ["condition_id"; "target_id"]);
    (Ramp, Target, ["condition_id"; "target_id"]);
    (Sine, Target, ["condition_id"; "target_id"]);
    (Chirp, Target, ["condition_id"; "target_id"]);
    (Behavior_Condition, Behavior, rpk);
    (Behavior_Condition, ConditionParams, ["condition_id"]);
    (Behavior_Trial, Behavior, rpk);
    (Behavior_Trial, Behavior_Condition, rpk ++ ["condition_id"]) ].

(** Every row refers to a row that is there. *)
Definition references (rpk : list string) (s : store) : Prop :=
  ∀ t t' ks, (t, t', ks) ∈ foreign_keys rpk →
    ∀ r, r ∈ s t → refers (s t') ks r.

(** ** Identifiers of the parts *)

#[global] Instance part_eq_dec : EqDecision part.
Proof. solve_decision. Defined.

(** Two rows have the same value in [id] exactly when they have the same
    values in [attrs]. *)
Definition same_id_same_attrs (id : string) (attrs : list string)
    (rows : list (gmap string val)) : Prop :=
  ∀ r1 r2, r1 ∈ rows → r2 ∈ rows →
    (r1 !! id = r2 !! id ↔ ∀ k, k ∈ attrs → r1 !! k = r2 !! k).

(** In the table of the part [p] the identifier of the part stands for the
    attributes below the line of the table's definition. *)
Definition part_consistent (rpk : list string) (p : part) (s : store) : Prop :=
  same_id_same_attrs (part_id p) (secondary (schema_of rpk (part_rel p)))
    (s (part_rel p)).

(** The tables of the condition registry. *)
Definition registry_table (t : tname) : Prop :=
  t ∈ [ConditionParams; Force; Stim; Target; Static; Ramp; Sine; Chirp].

(** ** The trial rows and the printed lines of a run *)

(** The parameter file [f] has its data file among [data_files] (the test
    of line 276). *)
Definition has_data (data_files : list string) (f : string) : Prop :=
  str_replace f "params" "data" ∈ data_files.

(** The data file [d] has its parameter file among [param_files] (the
    test of line 343). *)
Definition has_params (param_files : list string) (d : string) : Prop :=
  str_replace d "data" "params" ∈ param_files.

#[global] Instance has_data_dec data_files f : Decision (has_data data_files f).
Proof. unfold has_data. apply _. Defined.

#[global] Instance has_params_dec param_files d : Decision (has_params param_files d).
Proof. unfold has_params. apply _. Defined.

(** The row [r] is the trial row of the recording [key] for the data file
    [d], on the registry of the store [s]: it has the fields of the key,
    the number read from the name of [d], the save tag of the parameter
    file of [d], the identifier of the one condition of the registry that
    matches the record of the parameter file, and what the reader gives
    for [d], the sample rate [fs] and the state [ss]. *)
Definition trial_row_of (E : env) (key : gmap string val) (bp : string)
    (fs ss : val) (s : store) (d : string) (r : gmap string val) : Prop :=
  key ⊆ r ∧
  ∃ tok n params a q t c data,
    trial_token d = OK tok ∧ int_of_digits tok = OK n ∧
    r !! "trial_number" = Some (VNum n) ∧
    readtrialparams E (bp +:+ str_replace d "data" "params") = OK params ∧
    r !! "save_tag" = get params "saveTag" ∧
    parseparams params = OK (a, q, t) ∧
    fetch1 (eval (recording_pk E) s (QRestrict q (all_cond_attr a))) "condition_id"
      = OK c ∧
    r !! "condition_id" = Some c ∧
    readtrialdata E (bp +:+ d) ss fs = OK data ∧
    data ⊆ r.

(** The line that the first loop prints for the parameter file [f]. *)
Definition missing_data_line (f : string) (line : string) : Prop :=
  ∃ tok, trial_token f = OK tok ∧ line = "Missing data file for trial " +:+ tok.

(** The line that the second loop prints for the data file [d]. *)
Definition missing_params_line (d : string) (line : string) : Prop :=
  ∃ tok n, trial_token d = OK tok ∧ int_of_digits tok = OK n ∧
           line = "Missing parameters file for trial " +:+ str_of_int n.

(** ** A relation that has got one more row *)

(** [R'] is [R] with the row [x] appended; [x] belongs to the condition
    [c] and no row of [R] does. *)
Definition extended_by (c : Z) (R R' : relation) (x : gmap string val) : Prop :=
  rel_heading R' = rel_heading R ∧
  rel_rows R' = rel_rows R ++ [x] ∧
  (∀ r, r ∈ rel_rows R → r !! "condition_id" ≠ Some (VNum c)) ∧
  x !! "condition_id" = Some (VNum c).

(** ** One row for a condition in each table of the registry *)

(** The part tables and the tables of the target types. *)
Definition condition_tables : list tname :=
  [Force; Stim; Target; Static; Ramp; Sine; Chirp].

(** No condition has two rows in a part table or in the table of a target
    type. *)
Definition one_row_per_condition (s : store) : Prop :=
  ∀ t, t ∈ condition_tables →
    NoDup ((λ r : gmap string val, r !! "condition_id") <$> s t).

(** * Properties *)

(** ** Running computations *)

Lemma bind_run {A B} (m : M A) (k : A → M B) s r s' o :
  bind m k s = (r, s', o) →
  (∃ a s1 o1 o2, m s = (OK a, s1, o1) ∧ k a s1 = (r, s', o2) ∧ o = o1 ++ o2)
  ∨ (∃ e, m s = (Err e, s', o) ∧ r = Err e).
Proof.
  unfold bind. destruct (m s) as [[[a|e] s1] o1].
  - destruct (k a s1) as [[r2 s2] o2] eqn:Hk. intros [= <- <- <-].
    left. by exists a, s1, o1, o2.
  - intros [= <- <- <-]. right. by exists e.
Qed.

Lemma bind_ok {A B} (m : M A) (k : A → M B) s a s1 o1 :
  m s = (OK a, s1, o1) →
  bind m k s = (let '(r, s2, o2) := k a s1 in (r, s2, o1 ++ o2)).
Proof. unfold bind. intros ->. by destruct (k a s1) as [[??]?]. Qed.

Lemma bind_err {A B} (m : M A) (k : A → M B) s e s1 o1 :
  m s = (Err e, s1, o1) → bind m k s = (Err e, s1, o1).
Proof. unfold bind. by intros ->. Qed.

Lemma bind_lift_ok {A B} (r : res A) (k : A → M B) a s :
  r = OK a → bind (lift r) k s = k a s.
Proof. intros ->. unfold bind, lift. by destruct (k a s) as [[??]?]. Qed.

Lemma bind_lift_err {A B} (r : res A) (k : A → M B) e s :
  r = Err e → bind (lift r) k s = (Err e, s, []).
Proof. by intros ->. Qed.

Lemma bind_query {B} rpk q (k : relation → M B) s :
  bind (query_now rpk q) k s = k (eval rpk s q) s.
Proof. unfold bind, query_now. by destruct (k _ s) as [[??]?]. Qed.

Lemma bind_ret {A B} (a : A) (k : A → M B) s : bind (ret a) k s = k a s.
Proof. unfold bind, ret. by destruct (k a s) as [[??]?]. Qed.

Lemma bind_assoc {A B C} (m : M A) (k : A → M B) (h : B → M C) s :
  bind (bind m k) h s = bind m (λ a, bind (k a) h) s.
Proof.
  unfold bind. destruct (m s) as [[[a|e] s1] o1]; [|done].
  destruct (k a s1) as [[[b|e] s2] o2]; [|done].
  destruct (h b s2) as [[r s3] o3]. by rewrite app_assoc.
Qed.

Lemma bind_ext {A B} (m : M A) (k k' : A → M B) s :
  (∀ a s1, k a s1 = k' a s1) → bind m k s = bind m k' s.
Proof.
  intros Hk. unfold bind. destruct (m s) as [[[a|e] s1] o1]; [|done].
  by rewrite Hk.
Qed.



(** ** The allocation of identifiers *)

Lemma ints_of_nums (ids : list Z) : ints_of (VNum <$> ids) = OK ids.
Proof.
  induction ids as [|i ids IH]; [done|].
  rewrite fmap_cons. cbn [ints_of as_int res_bind]. by rewrite IH.
Qed.

Lemma fetch_rows_length rows attr vs :
  fetch_rows rows attr = OK vs → length vs = length rows.
Proof.
  revert vs. induction rows as [|r rows IH]; intros vs; simpl.
  - by intros [= <-].
  - destruct (dict_getitem r attr); [|done]. simpl.
    destruct (fetch_rows rows attr) as [vs'|]; [|done]. simpl.
    intros [= <-]. simpl. f_equal. by apply IH.
Qed.

Lemma foldl_max_ge (x : Z) (l : list Z) :
  x ≤ foldl Z.max x l ∧ Forall (λ i, i ≤ foldl Z.max x l) l.
Proof.
  revert x. induction l as [|y l IH]; intros x; simpl; [split; [lia|constructor]|].
  destruct (IH (Z.max x y)) as [H1 H2]. split; [lia|].
  constructor; [lia|done].
Qed.

Lemma py_max_spec (ids : list Z) :
  ids ≠ [] → ∃ m, py_max ids = OK m ∧ Forall (λ i, i ≤ m) ids.
Proof.
  destruct ids as [|x l]; [done|]. intros _. eexists. split; [done|].
  destruct (foldl_max_ge x l). by constructor.
Qed.

Lemma first_free_spec (ids : list Z) :
  ids ≠ [] → Forall (λ i, 0 ≤ i) ids →
  ∃ n, first_free ids = OK n ∧ 0 ≤ n ∧ (n ∉ ids) ∧ (∀ m, 0 ≤ m < n → m ∈ ids).
Proof.
  intros Hne Hpos. destruct (py_max_spec ids Hne) as (m & Hm & Hle).
  unfold first_free. rewrite Hm. simpl.
  assert (0 ≤ m) as Hm0.
  { destruct ids as [|x l]; [done|].
    apply Forall_cons in Hpos as [? _]. apply Forall_cons in Hle as [? _]. lia. }
  destruct (list_find (λ i, i ∉ ids) (range (2 + m))) as [[j n]|] eqn:Hfind.
  - apply list_find_Some in Hfind as (Hj & Hn & Hmin).
    unfold range in Hj. apply lookup_seqZ in Hj as [-> Hjlt].
    exists (0 + Z.of_nat j). split; [done|]. split; [lia|]. split; [done|].
    intros k Hk. apply dec_stable. intros Hnot.
    apply (Hmin (Z.to_nat k) k); [|lia|done].
    apply lookup_seqZ. lia.
  - exfalso. apply list_find_None in Hfind.
    rewrite Forall_forall in Hfind. apply (Hfind (m + 1)).
    + unfold range. apply elem_of_seqZ. lia.
    + intros Hin. rewrite Forall_forall in Hle. apply Hle in Hin. lia.
Qed.

(** C3. A new identifier is the smallest non-negative integer that is not
    among the identifiers the table holds, and 0 when the table is empty.
    [new_id] is the text of lines 294-298 (for [condition_id]) and of lines
    317-321 (for [force_id], [stim_id] and [target_id]); [ids] are the
    values the identifier column holds, non-negative as the columns are
    unsigned. *)
Theorem new_id_smallest_unused (rows : list (gmap string val)) (attr : string)
    (ids : list Z) :
  fetch_rows rows attr = OK (VNum <$> ids) →
  Forall (λ i, 0 ≤ i) ids →
  ∃ n, new_id rows attr = OK n ∧ 0 ≤ n ∧ (n ∉ ids) ∧ (∀ m, 0 ≤ m < n → m ∈ ids).
Proof.
  intros Hfetch Hpos. destruct rows as [|r rows].
  - exists 0. split; [done|]. split; [lia|]. split; [|lia].
    destruct ids; [|done]. by apply not_elem_of_nil.
  - assert (ids ≠ []) as Hne.
    { apply fetch_rows_length in Hfetch. rewrite length_fmap in Hfetch.
      by destruct ids. }
    unfold new_id. rewrite Hfetch. simpl. rewrite ints_of_nums. simpl.
    by apply first_free_spec.
Qed.

(** ** [parseparams] *)

(** What a successful call returns, field by field. *)
Lemma parseparams_ok params a q t :
  parseparams params = OK (a, q, t) →
  ∃ frcMax frcOff frcPol duration offset offset0 padDur tattr,
    get params "frcMax" = Some frcMax ∧
    get params "frcOff" = Some frcOff ∧
    get params "frcPol" = Some frcPol ∧
    get params "duration" = Some duration ∧
    get params "offset" = Some offset ∧
    index offset 0 = OK offset0 ∧
    get params "padDur" = Some padDur ∧
    targ_type_of params = OK (Some (t, tattr)) ∧
    force_attr a = {[ "force_max" := frcMax; "force_offset" := frcOff;
                      "force_inverted" := py_bool (py_eq frcPol (VNum (-1))) ]} ∧
    stim_attr a = (if stim_on params then stim_attr_of params else ∅) ∧
    targ_attr a = {[ "target_duration" := duration; "target_offset" := offset0;
                     "target_pad" := padDur ]} ∧
    targ_type_attr a = tattr ∧
    q = QJoin (QJoin (if stim_on params
                      then QJoin (QTable Force) (QTable Stim)
                      else QMinus (QTable Force) (QTable Stim))
                     (QTable Target)) (QTable t).
Proof.
  unfold parseparams, getitem.
  destruct (get params "frcMax") as [frcMax|]; [|done].
  destruct (get params "frcOff") as [frcOff|]; [|done].
  destruct (get params "frcPol") as [frcPol|]; [|done]. cbn [res_bind].
  destruct (stim_on params) eqn:Hstim;
    (destruct (get params "duration") as [duration|]; [|done];
     destruct (get params "offset") as [offset|]; [|done]; cbn [res_bind];
     destruct (index offset 0) as [offset0|] eqn:Hoff; [|done];
     destruct (get params "padDur") as [padDur|]; [|done]; cbn [res_bind];
     destruct (targ_type_of params) as [[[t' tattr]|]|]; [|done|done];
     cbn [res_bind]; intros [= <- <- <-];
     by exists frcMax, frcOff, frcPol, duration, offset, offset0, padDur, tattr).
Qed.

(** C7, as the code has it.  Whenever a record parses, the Force group
    holds the record's [frcMax] as [force_max] and its [frcOff] as
    [force_offset], and [force_inverted] is true exactly when the
    polarity field [frcPol] equals -1 (and is false otherwise). *)
Theorem force_attr_extracted params a q t :
  parseparams params = OK (a, q, t) →
  ∃ frcMax frcOff frcPol,
    get params "frcMax" = Some frcMax ∧
    get params "frcOff" = Some frcOff ∧
    get params "frcPol" = Some frcPol ∧
    force_attr a !! "force_max" = Some frcMax ∧
    force_attr a !! "force_offset" = Some frcOff ∧
    (force_attr a !! "force_inverted" = Some (py_bool true) ↔ frcPol = VNum (-1)) ∧
    (force_attr a !! "force_inverted" = Some (py_bool false) ↔ frcPol ≠ VNum (-1)).
Proof.
  intros H. apply parseparams_ok in H
    as (frcMax & frcOff & frcPol & ? & ? & ? & ? & ? & HM & HO & HP & _ & _ & _ & _ & _ & HF & _).
  exists frcMax, frcOff, frcPol. rewrite HF. do 3 (split; [done|]).
  split; [by simplify_map_eq|]. split; [by simplify_map_eq|].
  assert (∀ b, ({[ "force_max" := frcMax; "force_offset" := frcOff;
                   "force_inverted" := py_bool (py_eq frcPol (VNum (-1))) ]}
                 : gmap string val) !! "force_inverted" = Some (py_bool b)
               ↔ py_eq frcPol (VNum (-1)) = b) as Hb.
  { intros b. simplify_map_eq. split; [|by intros ->].
    intros [= Hz]. by destruct (py_eq _ _), b. }
  split; rewrite Hb; unfold py_eq.
  - by rewrite bool_decide_eq_true.
  - by rewrite bool_decide_eq_false.
Qed.

Lemma stim_attr_of_snoc params k v :
  stim_attr_of (params ++ [(k, v)]) =
  match stim_field k with
  | Some f => <[f := v]> (stim_attr_of params)
  | None => stim_attr_of params
  end.
Proof. unfold stim_attr_of. by rewrite foldl_app. Qed.

Lemma stim_attr_of_source params f v :
  stim_attr_of params !! f = Some v →
  ∃ k, (k, v) ∈ params ∧ stim_field k = Some f.
Proof.
  induction params as [|[k w] params IH] using rev_ind; [done|].
  rewrite stim_attr_of_snoc. destruct (stim_field k) as [f0|] eqn:Hk.
  - destruct (decide (f0 = f)) as [->|Hne].
    + rewrite lookup_insert_eq. intros [= ->]. exists k.
      split; [|done]. apply elem_of_app. right. by apply list_elem_of_singleton.
    + rewrite lookup_insert_ne by done. intros H. destruct (IH H) as (k' & Hin & Hf).
      exists k'. split; [|done]. apply elem_of_app. by left.
  - intros H. destruct (IH H) as (k' & Hin & Hf).
    exists k'. split; [|done]. apply elem_of_app. by left.
Qed.

Lemma stim_attr_of_fields params f :
  is_Some (stim_attr_of params !! f) ↔
  ∃ k v, (k, v) ∈ params ∧ stim_field k = Some f.
Proof.
  split.
  - intros [v Hv]. destruct (stim_attr_of_source _ _ _ Hv) as (k & ? & ?).
    by exists k, v.
  - intros (k & v & Hin & Hk).
    induction params as [|[k' w] params IH] using rev_ind.
    { by apply elem_of_nil in Hin. }
    rewrite stim_attr_of_snoc. apply elem_of_app in Hin as [Hin|Hin].
    + destruct (stim_field k') as [f0|]; [|by apply IH].
      destruct (decide (f0 = f)) as [->|Hne].
      * rewrite lookup_insert_eq. by eexists.
      * rewrite lookup_insert_ne by done. by apply IH.
    + apply list_elem_of_singleton in Hin as [= <- <-]. rewrite Hk.
      rewrite lookup_insert_eq. by eexists.
Qed.

Lemma take_while_all p s :
  forallb p (list_ascii_of_string s) = true → take_while p s = s.
Proof.
  induction s as [|c s IH]; [done|]. simpl. intros [Hc Hs]%andb_true_iff.
  rewrite Hc. by rewrite IH.
Qed.

Lemma append_cons a s t : String a s +:+ t = String a (s +:+ t).
Proof. done. Qed.

Lemma append_nil t : "" +:+ t = t.
Proof. done. Qed.

Lemma stim_field_name c rest :
  is_upper c = true →
  forallb is_word (list_ascii_of_string rest) = true →
  "stim" +:+ String c rest ≠ "stimDelay" →
  stim_field ("stim" +:+ String c rest) = Some ("stim_" +:+ lower (String c rest)).
Proof.
  intros Hc Hrest Hne. unfold stim_field.
  assert (re_search match_stim ("stim" +:+ String c rest) = Some (String c rest)) as ->.
  { rewrite !append_cons, append_nil. cbn -[is_upper take_while is_word].
    rewrite Hc. by rewrite take_while_all. }
  by rewrite bool_decide_true.
Qed.

(** ** The search of line 133 *)

Lemma prefix_split u s :
  String.prefix u s = true → s = u +:+ str_drop (String.length u) s.
Proof.
  revert s. induction u as [|a u IH]; intros s; [by destruct s|].
  destruct s as [|c s]; [done|]. simpl.
  destruct (Ascii.ascii_dec a c) as [->|]; [|done].
  intros H. rewrite append_cons. f_equal. by apply IH.
Qed.

Lemma leb_code a b :
  Ascii.leb a b = true ↔ (nat_of_ascii a ≤ nat_of_ascii b)%nat.
Proof.
  unfold Ascii.leb, Ascii.compare, nat_of_ascii.
  destruct (N.compare_spec (N_of_ascii a) (N_of_ascii b)); split; intros; try done; lia.
Qed.

Lemma is_upper_code c : is_upper c = true ↔ upper_code c.
Proof.
  unfold is_upper, upper_code. rewrite andb_true_iff, !leb_code.
  by change (nat_of_ascii "A") with 65%nat; change (nat_of_ascii "Z") with 90%nat.
Qed.

Lemma is_word_code c : is_word c = true ↔ word_code c.
Proof.
  unfold is_word, word_code, is_digit, is_upper, is_lower.
  rewrite !orb_true_iff, !andb_true_iff, !leb_code, bool_decide_eq_true.
  change (nat_of_ascii "0") with 48%nat; change (nat_of_ascii "9") with 57%nat.
  change (nat_of_ascii "A") with 65%nat; change (nat_of_ascii "Z") with 90%nat.
  change (nat_of_ascii "a") with 97%nat; change (nat_of_ascii "z") with 122%nat.
  assert (c = "_"%char ↔ nat_of_ascii c = 95%nat) as ->; [|tauto].
  split; [by intros ->|]. intros H.
  rewrite <- (ascii_nat_embedding c), H. reflexivity.
Qed.

Lemma lower_codes s :
  list_ascii_of_string (lower s) = lower_code <$> list_ascii_of_string s.
Proof.
  induction s as [|c s IH]; [done|]. cbn [lower list_ascii_of_string fmap list_fmap].
  rewrite IH. f_equal. unfold lower_char, lower_code.
  destruct (is_upper c) eqn:Hc.
  - apply is_upper_code in Hc. by rewrite decide_True.
  - rewrite decide_False; [done|]. intros Hu. apply is_upper_code in Hu. congruence.
Qed.

Lemma forallb_word w :
  forallb is_word (list_ascii_of_string w) = true ↔
  ∀ d, d ∈ list_ascii_of_string w → word_code d.
Proof.
  rewrite forallb_forall. split; intros H d Hd.
  - apply is_word_code, H. by apply list_elem_of_In.
  - apply is_word_code, H. by apply list_elem_of_In.
Qed.

(** The greedy run: the longest prefix whose characters satisfy [p]. *)
Lemma take_while_spec p s w :
  take_while p s = w ↔
  ∃ post, s = w +:+ post ∧ forallb p (list_ascii_of_string w) = true ∧
          ∀ d post', post = String d post' → p d = false.
Proof.
  revert w. induction s as [|c s IH]; intros w.
  - cbn [take_while]. split.
    + intros <-. exists EmptyString. split; [done|]. split; [done|]. done.
    + intros (post & Hs & _ & _). destruct w; [done|]. by rewrite append_cons in Hs.
  - cbn [take_while]. destruct (p c) eqn:Hc.
    + split.
      * intros <-. destruct (proj1 (IH _) eq_refl) as (post & Hs & Hw & Hpost).
        exists post. split; [by rewrite append_cons, <- Hs|].
        split; [|done]. cbn [list_ascii_of_string forallb]. by rewrite Hc, Hw.
      * intros (post & Hs & Hw & Hpost). destruct w as [|c' w].
        { rewrite append_nil in Hs. specialize (Hpost c s (eq_sym Hs)). congruence. }
        rewrite append_cons in Hs. injection Hs as <- Hs.
        cbn [list_ascii_of_string forallb] in Hw. apply andb_true_iff in Hw as [_ Hw].
        f_equal. apply IH. by exists post.
    + split.
      * intros <-. exists (String c s). split; [done|]. split; [done|].
        by intros d post' [= <- _].
      * intros (post & Hs & Hw & Hpost). destruct w as [|c' w]; [done|].
        rewrite append_cons in Hs. injection Hs as <- Hs.
        cbn [list_ascii_of_string forallb] in Hw. apply andb_true_iff in Hw as [Hw _].
        congruence.
Qed.

Lemma prefix_append u x : String.prefix u (u +:+ x) = true.
Proof.
  induction u as [|a u IH]; [by destruct x|].
  rewrite append_cons. cbn [String.prefix]. by destruct (Ascii.ascii_dec a a).
Qed.

Lemma str_drop_append u x : str_drop (String.length u) (u +:+ x) = x.
Proof. induction u as [|a u IH]; [done|]. by rewrite append_cons. Qed.

(** The pattern at the start of a string. *)
Lemma match_stim_spec s g :
  match_stim s = Some g ↔
  ∃ c w post, s = "stim" +:+ g +:+ post ∧ g = String c w ∧ is_upper c = true ∧
              forallb is_word (list_ascii_of_string w) = true ∧
              ∀ d post', post = String d post' → is_word d = false.
Proof.
  unfold match_stim. split.
  - destruct (String.prefix "stim" s) eqn:Hpre; [|done].
    apply prefix_split in Hpre. change (String.length "stim") with 4%nat in Hpre.
    destruct (str_drop 4 s) as [|c rest] eqn:Hd; [done|].
    destruct (is_upper c) eqn:Hc; [|done]. intros [= <-].
    destruct (proj1 (take_while_spec is_word rest _) eq_refl) as (post & Hrest & Hw & Hpost).
    exists c, (take_while is_word rest), post.
    split; [|done]. rewrite Hpre. f_equal. rewrite append_cons. f_equal. exact Hrest.
  - intros (c & w & post & -> & -> & Hc & Hw & Hpost).
    rewrite prefix_append.
    change 4%nat with (String.length "stim"). rewrite str_drop_append.
    rewrite append_cons, Hc. do 2 f_equal. apply take_while_spec. by exists post.
Qed.

Lemma match_stim_start s :
  is_Some (match_stim s) ↔
  ∃ c post, s = "stim" +:+ String c post ∧ is_upper c = true.
Proof.
  split.
  - intros [g (c & w & post & -> & -> & Hc & _)%match_stim_spec].
    exists c, (w +:+ post). by rewrite append_cons.
  - intros (c & post & -> & Hc). unfold match_stim. rewrite prefix_append.
    change 4%nat with (String.length "stim"). rewrite str_drop_append, Hc. by eexists.
Qed.

(** The search: the leftmost place where the pattern matches. *)
Lemma re_search_spec (m : string → option string) k g :
  re_search m k = Some g ↔
  ∃ pre s, k = pre +:+ s ∧ m s = Some g ∧
           ∀ pre' s', k = pre' +:+ s' →
                      (String.length pre' < String.length pre)%nat → m s' = None.
Proof.
  revert g. induction k as [|c k IH]; intros g.
  - cbn [re_search]. split.
    + destruct (m EmptyString) as [g'|] eqn:Hm; [|done]. intros [= ->].
      exists EmptyString, EmptyString. split; [done|]. split; [done|].
      intros pre' s' _ Hlen. cbn in Hlen. lia.
    + intros (pre & s & Hk & Hm & _). destruct pre; [|done].
      rewrite append_nil in Hk. subst s. by rewrite Hm.
  - cbn [re_search]. destruct (m (String c k)) as [g'|] eqn:Hm.
    + split.
      * intros [= ->]. exists EmptyString, (String c k). split; [done|]. split; [done|].
        intros pre' s' _ Hlen. cbn in Hlen. lia.
      * intros (pre & s & Hk & Hs & Hleft). destruct pre as [|c' pre].
        { rewrite append_nil in Hk. subst s. congruence. }
        rewrite (Hleft EmptyString (String c k) eq_refl) in Hm; [done|]. cbn. lia.
    + rewrite IH. split.
      * intros (pre & s & -> & Hs & Hleft). exists (String c pre), s.
        split; [done|]. split; [done|]. intros pre' s' Hk Hlen.
        destruct pre' as [|c' pre'].
        { rewrite append_nil in Hk. by subst s'. }
        rewrite !append_cons in Hk. injection Hk as _ Hk.
        apply (Hleft pre' s' Hk). cbn in Hlen. lia.
      * intros (pre & s & Hk & Hs & Hleft). destruct pre as [|c' pre].
        { rewrite append_nil in Hk. subst s. congruence. }
        rewrite append_cons in Hk. injection Hk as <- ->.
        exists pre, s. split; [done|]. split; [done|]. intros pre' s' Hk Hlen.
        apply (Hleft (String c pre') s'); [by rewrite append_cons, Hk|]. cbn. lia.
Qed.

(** The search of line 133 is the search of the regular expression. *)
Lemma re_search_stim k g : re_search match_stim k = Some g ↔ stim_search k g.
Proof.
  rewrite re_search_spec. split.
  - intros (pre & s & -> & (c & w & post & -> & -> & Hc & Hw & Hpost)%match_stim_spec
            & Hleft).
    exists pre, post, c, w. split; [done|]. split; [done|].
    split; [by apply is_upper_code|]. split; [by apply forallb_word|].
    split.
    { intros d post' Hp Hd. apply is_word_code in Hd.
      by rewrite (Hpost d post' Hp) in Hd. }
    intros pre' c' post' Hk Hc'. apply Nat.le_ngt. intros Hlen.
    specialize (Hleft pre' _ Hk Hlen).
    assert (is_Some (match_stim ("stim" +:+ String c' post'))) as [g' Hg'].
    { apply match_stim_start. exists c', post'. split; [done|]. by apply is_upper_code. }
    congruence.
  - intros (pre & post & c & w & -> & -> & Hc & Hw & Hpost & Hleft).
    exists pre, ("stim" +:+ String c w +:+ post). split; [done|]. split.
    { apply match_stim_spec. exists c, w, post. split; [done|]. split; [done|].
      split; [by apply is_upper_code|]. split; [by apply forallb_word|].
      intros d post' Hp. destruct (is_word d) eqn:Hd; [|done].
      apply is_word_code in Hd. by destruct (Hpost d post' Hp). }
    intros pre' s' Hk Hlen. destruct (match_stim s') as [g'|] eqn:Hs'; [|done].
    destruct (proj1 (match_stim_start s')) as (c' & post' & -> & Hc'); [by eexists|].
    apply is_upper_code in Hc'. specialize (Hleft pre' c' post' Hk Hc'). lia.
Qed.

(** The field that a key gives, by the regular expression. *)
Lemma stim_field_spec k f :
  stim_field k = Some f ↔
  k ≠ "stimDelay" ∧ ∃ g, stim_search k g ∧ f = "stim_" +:+ lower g.
Proof.
  unfold stim_field. split.
  - destruct (re_search match_stim k) as [g|] eqn:Hg; [|done].
    case_bool_decide as Hk; [|done]. intros [= <-]. split; [done|].
    exists g. split; [by apply re_search_stim|done].
  - intros (Hk & g & Hg%re_search_stim & ->). rewrite Hg. by rewrite bool_decide_true.
Qed.

(** C8.  With the stimulation flag at 1 the Stim group has exactly the
    fields that the keys of the record give: a key in which the pattern
    finds [stim] followed by a capitalised name, other than [stimDelay],
    gives the field [stim_] followed by the name in lower case (so the key
    [stimName] gives [stim_name]), and no other key gives a field; the
    value of a field is the value the record has at a key that gives it,
    and it is the value of that key when all the keys that give the field
    carry one value.  With the flag unset (absent or different from 1) the
    Stim group is empty and the condition query takes the Force rows minus
    those that have a Stim row.  The field a key gives is stated by the
    regular expression itself ([stim_search]) and the lower case by the
    character codes. *)
Theorem stim_attr_extracted params a q t :
  parseparams params = OK (a, q, t) →
  (stim_on params = true →
     (∀ f, is_Some (stim_attr a !! f) ↔
           ∃ k v, (k, v) ∈ params ∧ stim_field k = Some f) ∧
     (∀ f v, stim_attr a !! f = Some v →
             ∃ k, (k, v) ∈ params ∧ stim_field k = Some f) ∧
     (∀ k v f, (k, v) ∈ params → stim_field k = Some f →
               (∀ k' v', (k', v') ∈ params → stim_field k' = Some f → v' = v) →
               stim_attr a !! f = Some v) ∧
     q = QJoin (QJoin (QJoin (QTable Force) (QTable Stim)) (QTable Target))
               (QTable t)) ∧
  (stim_on params = false →
     stim_attr a = ∅ ∧
     q = QJoin (QJoin (QMinus (QTable Force) (QTable Stim)) (QTable Target))
               (QTable t)) ∧
  (∀ c rest, is_upper c = true →
             forallb is_word (list_ascii_of_string rest) = true →
             "stim" +:+ String c rest ≠ "stimDelay" →
             stim_field ("stim" +:+ String c rest)
             = Some ("stim_" +:+ lower (String c rest))) ∧
  stim_field "stimDelay" = None ∧
  (∀ k f, stim_field k = Some f ↔
          k ≠ "stimDelay" ∧ ∃ g, stim_search k g ∧ f = "stim_" +:+ lower g) ∧
  (∀ s, list_ascii_of_string (lower s) = lower_code <$> list_ascii_of_string s).
Proof.
  intros H. apply parseparams_ok in H
    as (? & ? & ? & ? & ? & ? & ? & ? & _ & _ & _ & _ & _ & _ & _ & _ & _ & HS & _ & _ & Hq).
  split; [|split; [|split; [apply stim_field_name|
                            split; [done|split; [apply stim_field_spec|apply lower_codes]]]]].
  - intros Hon. rewrite Hon in HS, Hq. rewrite HS.
    split; [apply stim_attr_of_fields|]. split; [apply stim_attr_of_source|].
    split; [|done]. intros k v f Hin Hk Huniq.
    destruct (proj2 (stim_attr_of_fields params f)) as [v' Hv']; [by exists k, v|].
    destruct (stim_attr_of_source _ _ _ Hv') as (k' & Hin' & Hk').
    by rewrite Hv', (Huniq k' v' Hin' Hk').
  - intros Hoff. by rewrite Hoff in HS, Hq.
Qed.

(** ** Joins, differences and restrictions *)

Lemma join_rows A B r :
  r ∈ rel_rows (join A B) ↔
  ∃ a b, a ∈ rel_rows A ∧ b ∈ rel_rows B ∧
         agree (common (rel_heading A) (rel_heading B)) a b ∧ r = a ∪ b.
Proof.
  unfold join. cbn [rel_rows]. rewrite list_elem_of_bind. split.
  - intros (a & Hr & Ha). apply list_elem_of_bind in Hr as (b & Hr & Hb).
    case_decide; [|by apply elem_of_nil in Hr].
    apply list_elem_of_singleton in Hr. by exists a, b.
  - intros (a & b & Ha & Hb & Hagree & ->). exists a. split; [|done].
    apply list_elem_of_bind. exists b. split; [|done].
    rewrite decide_True by done. by apply list_elem_of_singleton.
Qed.

Lemma agree_lookup c a b k : agree c a b → k ∈ c → a !! k = b !! k.
Proof. unfold agree. rewrite Forall_forall. auto. Qed.

(** A joined row has, at a shared attribute, the value of both its parts. *)
Lemma join_row_shared A B r k :
  k ∈ common (rel_heading A) (rel_heading B) →
  r ∈ rel_rows (join A B) →
  ∃ a b, a ∈ rel_rows A ∧ b ∈ rel_rows B ∧ r = a ∪ b ∧
         r !! k = a !! k ∧ r !! k = b !! k.
Proof.
  intros Hk (a & b & Ha & Hb & Hagree & ->)%join_rows.
  exists a, b. do 3 (split; [done|]).
  pose proof (agree_lookup _ _ _ _ Hagree Hk) as Hab.
  rewrite lookup_union, <- Hab. by destruct (a !! k).
Qed.

Lemma minus_rows A B a :
  a ∈ rel_rows (minus A B) ↔
  a ∈ rel_rows A ∧
  ∀ b, b ∈ rel_rows B → ¬ agree (common (rel_heading A) (rel_heading B)) a b.
Proof.
  unfold minus. cbn [rel_rows]. rewrite list_elem_of_filter, Forall_forall.
  tauto.
Qed.

Lemma restrict_rows A d r :
  r ∈ rel_rows (restrict A d) ↔
  r ∈ rel_rows A ∧ matches (rel_heading A) d r.
Proof. unfold restrict. cbn [rel_rows]. rewrite list_elem_of_filter. tauto. Qed.

Lemma targ_type_of_rel params t attr :
  targ_type_of params = OK (Some (t, attr)) →
  t = Static ∨ t = Ramp ∨ t = Sine ∨ t = Chirp.
Proof.
  unfold targ_type_of. destruct (getitem params "type") as [ty|]; [|done].
  cbn [res_bind].
  repeat (case_match; [
    repeat (match goal with
            | |- context [res_bind ?r _] => destruct r; [|done]; cbn [res_bind]
            end); intros [= <- <-]; tauto |]).
  done.
Qed.

(** The condition query, evaluated: every row of it carries the identifier
    of a Force row, the same as that of a Stim row when the flag is set and
    different from that of every Stim row when it is not. *)
Lemma cond_rel_stim rpk s (on : bool) t r :
  t = Static ∨ t = Ramp ∨ t = Sine ∨ t = Chirp →
  r ∈ rel_rows (eval rpk s
        (QJoin (QJoin (if on then QJoin (QTable Force) (QTable Stim)
                       else QMinus (QTable Force) (QTable Stim))
                      (QTable Target)) (QTable t))) →
  (∃ f, f ∈ s Force ∧ f !! "condition_id" = r !! "condition_id") ∧
  if on
  then ∃ st, st ∈ s Stim ∧ st !! "condition_id" = r !! "condition_id"
  else ∀ st, st ∈ s Stim → st !! "condition_id" ≠ r !! "condition_id".
Proof.
  intros Ht Hr. cbn [eval] in Hr.
  apply (join_row_shared _ _ _ "condition_id") in Hr
    as (x & ty & Hx & _ & _ & Hrx & _);
    [|destruct on; destruct Ht as [-> | [-> | [-> | ->]]]; vm_compute;
      by repeat constructor].
  apply (join_row_shared _ _ _ "condition_id") in Hx
    as (y & tg & Hy & _ & _ & Hxy & _);
    [|destruct on; vm_compute; by repeat constructor].
  rewrite Hrx, Hxy. destruct on.
  - apply (join_row_shared _ _ _ "condition_id") in Hy
      as (f & st & Hf & Hst & _ & Hyf & Hyst);
      [|vm_compute; by repeat constructor].
    cbn [eval rel_rows] in Hf, Hst. split; [by exists f|by exists st].
  - apply minus_rows in Hy as [Hf Hno]. cbn [eval rel_rows] in Hf, Hno.
    split; [by exists y|]. intros st Hst Heq. apply (Hno st Hst).
    unfold agree. apply Forall_forall. intros k Hk.
    assert (k = "condition_id") as ->; [|done].
    revert Hk. cbn [eval rel_heading]. vm_compute.
    intros Hk. by apply list_elem_of_singleton in Hk.
Qed.

(** C4.  Whatever the Force and Target attributes are, a record without
    the stimulation flag matches only conditions that have no Stim row,
    and a record with the flag matches only conditions that have one. *)
Theorem stim_presence_discriminates (E : env) (s : store) params a q t :
  parseparams params = OK (a, q, t) →
  ∀ r, r ∈ rel_rows (eval (recording_pk E) s (QRestrict q (all_cond_attr a))) →
    if stim_on params
    then ∃ st, st ∈ s Stim ∧ st !! "condition_id" = r !! "condition_id"
    else ∀ st, st ∈ s Stim → st !! "condition_id" ≠ r !! "condition_id".
Proof.
  intros H r Hr. apply parseparams_ok in H
    as (? & ? & ? & ? & ? & ? & ? & tattr & _ & _ & _ & _ & _ & _ & _ & Ht & _ & _ & _ & _ & ->).
  apply targ_type_of_rel in Ht. cbn [eval] in Hr.
  apply restrict_rows in Hr as [Hr _].
  by apply (cond_rel_stim (recording_pk E) s (stim_on params) t r Ht).
Qed.

(** ** Resolution of a condition *)

Lemma fetch_condition_id_run E a q s r s' o :
  fetch_condition_id E a q s = (r, s', o) →
  s' = s ∧ o = [] ∧
  r = fetch1 (eval (recording_pk E) s (QRestrict q (all_cond_attr a))) "condition_id".
Proof.
  unfold fetch_condition_id. rewrite bind_query. unfold lift.
  by intros [= <- <- <-].
Qed.


(** When a condition matches, nothing is inserted. *)
Lemma insert_condition_found E a q t s :
  nonempty (eval (recording_pk E) s (QRestrict q (all_cond_attr a))) = true →
  insert_condition E a q t s = (OK tt, s, []).
Proof. intros H. unfold insert_condition. rewrite bind_query. by rewrite H. Qed.


(** ** What a step writes *)

Lemma preserves_ret {A} P (a : A) : preserves P (ret a).
Proof. by intros s r s' o [= _ <- _]. Qed.

Lemma preserves_lift {A} P (x : res A) : preserves P (lift x).
Proof. by intros s r s' o [= _ <- _]. Qed.

Lemma preserves_print P line : preserves P (print line).
Proof. by intros s r s' o [= _ <- _]. Qed.

Lemma preserves_query P rpk q : preserves P (query_now rpk q).
Proof. by intros s r s' o [= _ <- _]. Qed.

Lemma preserves_bind {A B} P (m : M A) (k : A → M B) :
  preserves P m → (∀ a, preserves P (k a)) → preserves P (bind m k).
Proof.
  intros Hm Hk s r s' o H t Ht.
  apply bind_run in H as [(a & s1 & o1 & o2 & H1 & H2 & _)|(e & H1 & _)].
  - rewrite (Hk a _ _ _ _ H2 t Ht). by apply (Hm _ _ _ _ H1).
  - by apply (Hm _ _ _ _ H1).
Qed.

Lemma preserves_for_each {A} P (l : list A) (body : A → M unit) :
  (∀ x, x ∈ l → preserves P (body x)) → preserves P (for_each l body).
Proof.
  induction l as [|x l IH]; intros Hbody; simpl; [apply preserves_ret|].
  apply preserves_bind; [apply Hbody; by left|].
  intros _. apply IH. intros y Hy. apply Hbody. by right.
Qed.

Lemma preserves_for_fold {A S} P (l : list A) (acc : S) (body : S → A → M S) :
  (∀ acc x, x ∈ l → preserves P (body acc x)) →
  preserves P (for_fold l acc body).
Proof.
  revert acc. induction l as [|x l IH]; intros acc Hbody; simpl;
    [apply preserves_ret|].
  apply preserves_bind; [apply Hbody; by left|].
  intros acc'. apply IH. intros acc'' y Hy. apply Hbody. by right.
Qed.

Lemma insert1_run rpk t row skip s r s' o :
  insert1 rpk t row skip s = (r, s', o) →
  o = [] ∧
  match insert_row (schema_of rpk t) t skip (s t) row with
  | OK rows => r = OK tt ∧ s' = set_table s t rows
  | Err e => r = Err e ∧ s' = s
  end.
Proof.
  unfold insert1. destruct (insert_row _ _ _ _ _); by intros [= <- <- <-].
Qed.

Lemma set_table_same s t rows : set_table s t rows t = rows.
Proof. unfold set_table. by rewrite decide_True. Qed.

Lemma set_table_other s t rows t' : t' ≠ t → set_table s t rows t' = s t'.
Proof. intros. unfold set_table. by rewrite decide_False. Qed.

Lemma preserves_insert1 (P : tname → Prop) rpk t row skip :
  ¬ P t → preserves P (insert1 rpk t row skip).
Proof.
  intros HP s r s' o H t' Ht'. apply insert1_run in H as [_ H].
  destruct (insert_row _ _ _ _ _); destruct H as [_ ->]; [|done].
  apply set_table_other. by intros ->.
Qed.

Lemma preserves_insert (P : tname → Prop) rpk t rows skip :
  ¬ P t → preserves P (insert rpk t rows skip).
Proof.
  intros HP. apply preserves_for_each. intros. by apply preserves_insert1.
Qed.

Lemma preserves_weaken {A} (P Q : tname → Prop) (m : M A) :
  (∀ t, Q t → P t) → preserves P m → preserves Q m.
Proof. intros HPQ Hm s r s' o H t Ht. apply (Hm _ _ _ _ H). auto. Qed.

(** What an insertion that succeeds does to its table. *)
Lemma insert_row_ok sc t skip rows row rows' :
  insert_row sc t skip rows row = OK rows' →
  (rows' = rows ∧ skip = true ∧ Exists (λ r', pk_of sc r' = pk_of sc row) rows)
  ∨ (rows' = rows ++ [row] ∧ ¬ Exists (λ r', pk_of sc r' = pk_of sc row) rows).
Proof.
  unfold insert_row. repeat case_match; try done; intros [= <-]; auto.
Qed.

(** ** A recording that no Speedgoat controlled *)

(** C10.  For a recording whose task controller is not Speedgoat, [make]
    prints nothing, leaves every table other than Behavior as it is, and
    when it returns it has appended the key of the recording, and nothing
    else, to Behavior; it returns whenever the key can be inserted and the
    recording is found. *)
Theorem make_without_speedgoat (E : env) (key : gmap string val) hardware s r s' o :
  fetch_task_controller E key = OK hardware →
  hardware ≠ "Speedgoat" →
  make E key s = (r, s', o) →
  o = [] ∧
  (∀ t, t ≠ Behavior → s' t = s t) ∧
  (r = OK tt → s' Behavior = s Behavior ++ [key]) ∧
  (∀ rows path fs path',
     insert_row (schema_of (recording_pk E) Behavior) Behavior false
                (s Behavior) key = OK rows →
     fetch_recording E key = OK (path, fs) →
     ensurelocal E path = OK path' →
     r = OK tt).
Proof.
  intros Hhw Hne. unfold make. intros H.
  apply bind_run in H as [([] & s1 & o1 & o2 & Hins & H & ->)|(e & Hins & ->)].
  2:{ apply insert1_run in Hins as [Ho Hins]. subst o.
      destruct (insert_row _ _ _ _ _) as [rows|e'] eqn:Hrow;
        destruct Hins as [? Hs]; [done|]. subst s'.
      do 3 (split; [done|]). by intros ???? [=]. }
  apply insert1_run in Hins as [Ho Hins]. subst o1.
  destruct (insert_row _ _ _ _ _) as [rows|e'] eqn:Hrow;
    destruct Hins as [? Hs]; [|done]. subst s1.
  assert (rows = s Behavior ++ [key]) as ->.
  { apply insert_row_ok in Hrow as [(_ & [=] & _)|[-> _]]. done. }
  destruct (fetch_recording E key) as [[path fs]|e] eqn:Hrec.
  2:{ rewrite (bind_lift_err _ _ e) in H by done. injection H as <- <- <-.
      split; [done|]. split; [intros t Ht; by apply set_table_other|].
      split; [done|]. by intros ???? _ [=]. }
  rewrite (bind_lift_ok _ _ (path, fs)) in H by done.
  destruct (ensurelocal E path) as [path'|e] eqn:Hloc.
  2:{ rewrite (bind_lift_err _ _ e) in H by done. injection H as <- <- <-.
      split; [done|]. split; [intros t Ht; by apply set_table_other|].
      split; [done|]. intros ???? _ [= <- <-]. by rewrite Hloc. }
  rewrite (bind_lift_ok _ _ path') in H by done.
  rewrite (bind_lift_ok _ _ hardware) in H by done.
  rewrite bool_decide_false in H by done. injection H as <- <- <-.
  split; [done|]. split; [intros t Ht; by apply set_table_other|].
  split; [intros _; apply set_table_same|done].
Qed.

(** ** Rows that are already there *)

Lemma filter_nil_Forall {A} (P : A → Prop) `{!∀ x, Decision (P x)} (l : list A) :
  Forall (λ x, ¬ P x) l → filter P l = [].
Proof.
  induction 1 as [|x l Hx _ IH]; [done|].
  rewrite filter_cons. by rewrite decide_False.
Qed.

Lemma pk_of_eq sc (r1 r2 : gmap string val) :
  (∀ k, k ∈ primary sc → r1 !! k = r2 !! k) → pk_of sc r1 = pk_of sc r2.
Proof.
  intros H. unfold pk_of. apply list_fmap_ext. intros i k Hk.
  apply H. by apply list_elem_of_lookup_2 in Hk.
Qed.

(** An insertion whose primary key is in the table: nothing is written;
    with [skip_duplicates] a row that fits the heading is accepted, without
    it every row is refused. *)
Lemma insert1_existing rpk t row skip s r' :
  r' ∈ s t →
  (∀ k, k ∈ primary (schema_of rpk t) → r' !! k = row !! k) →
  ∃ res, insert1 rpk t row skip s
         = (res, match res with OK _ => set_table s t (s t) | Err _ => s end, []) ∧
    (skip = false → is_err res) ∧
    (skip = true →
       (∀ k, is_Some (row !! k) → k ∈ heading (schema_of rpk t)) →
       (∀ k, k ∈ primary (schema_of rpk t) ++ secondary (schema_of rpk t) →
             is_Some (row !! k)) →
       res = OK tt).
Proof.
  intros Hin Hpk. unfold insert1.
  assert (Exists (λ r0, pk_of (schema_of rpk t) r0 = pk_of (schema_of rpk t) row) (s t)) as Hex.
  { apply Exists_exists. exists r'. split; [done|]. by apply pk_of_eq. }
  destruct (insert_row _ _ _ _ _) as [rows|e] eqn:Hrow.
  - apply insert_row_ok in Hrow as [(-> & -> & _)|[_ Hno]]; [|done].
    exists (OK tt). by repeat split.
  - exists (Err e). split; [done|]. split; [done|]. intros -> Hhead Hreq. exfalso.
    revert Hrow. unfold insert_row.
    rewrite filter_nil_Forall.
    2:{ apply Forall_forall. intros k Hk Hnot. apply Hnot, Hhead.
        apply list_elem_of_fmap in Hk as ([k' v] & -> & Hkv).
        apply elem_of_map_to_list in Hkv. by eexists. }
    rewrite filter_nil_Forall.
    2:{ apply Forall_forall. intros k Hk Hnone. apply Hreq in Hk as [v Hv].
        congruence. }
    by rewrite decide_True.
Qed.

Lemma set_table_id s t t' : set_table s t (s t) t' = s t'.
Proof. unfold set_table. case_decide; by subst. Qed.

(** The condition row.  When the row of the recording and the condition
    is already in Behavior.Condition, lines 357-360 return without an
    error and leave every table as it is. *)
Lemma condition_data_existing (E : env) (key : gmap string val) a q s c r' :
  fetch1 (eval (recording_pk E) s (QRestrict q (all_cond_attr a)))
         "condition_id" = OK c →
  (∀ k, is_Some (key !! k) ↔ k ∈ recording_pk E) →
  "condition_id" ∉ recording_pk E →
  r' ∈ s Behavior_Condition →
  (∀ k, k ∈ recording_pk E → r' !! k = key !! k) →
  r' !! "condition_id" = Some c →
  ∃ s', insert_condition_data E key a q s
        = (OK (key ∪ {[ "condition_id" := c ]}), s', []) ∧
        ∀ t, s' t = s t.
Proof.
  intros Hc Hkey Hcid Hin Hpk Hrc.
  assert (key !! "condition_id" = None) as Hnone.
  { apply eq_None_not_Some. by rewrite Hkey. }
  unfold insert_condition_data.
  rewrite (bind_ok _ _ _ c s []).
  2:{ unfold fetch_condition_id. rewrite bind_query. unfold lift. by rewrite Hc. }
  cbn [app]. unfold kw_merge.
  rewrite decide_True by by apply map_disjoint_singleton_r.
  rewrite (bind_lift_ok _ _ (key ∪ {[ "condition_id" := c ]})) by done.
  destruct (insert1_existing (recording_pk E) Behavior_Condition
              (key ∪ {[ "condition_id" := c ]}) true s r' Hin)
    as (res & Hrun & _ & Hok).
  { cbn [schema_of primary]. intros k [Hk| ->%list_elem_of_singleton]%elem_of_app.
    - rewrite Hpk by done. apply Hkey in Hk as [v Hv].
      by rewrite (lookup_union_Some_l _ _ _ _ Hv).
    - rewrite Hrc. symmetry. apply lookup_union_Some_raw. right.
      split; [done|]. apply lookup_singleton_eq. }
  assert (res = OK tt) as ->.
  { apply Hok; [done| |].
    - intros k [v Hv]. unfold heading.
      cbn [schema_of primary secondary nullable]. rewrite !app_nil_r.
      apply lookup_union_Some_raw in Hv as [Hv|[_ Hv]].
      + apply elem_of_app. left. apply Hkey. by eexists.
      + apply lookup_singleton_Some in Hv as [<- _].
        apply elem_of_app. right. by apply list_elem_of_singleton.
    - cbn [schema_of primary secondary nullable]. rewrite app_nil_r.
      intros k [Hk| ->%list_elem_of_singleton]%elem_of_app.
      + apply Hkey in Hk as [v Hv]. exists v. by apply lookup_union_Some_l.
      + exists c. apply lookup_union_Some_raw. right.
        split; [done|]. apply lookup_singleton_eq. }
  exists (set_table s Behavior_Condition (s Behavior_Condition)).
  split; [|apply set_table_id].
  by rewrite (bind_ok _ _ _ tt _ [] Hrun).
Qed.

(** The trial row.  When Behavior.Trial has a row of the recording with
    the trial number, lines 362-364 raise and leave every table as it
    is. *)
Lemma trial_data_duplicate (E : env) (cond_key data : gmap string val)
    trial params s r' :
  (∀ k, k ∈ recording_pk E → is_Some (cond_key !! k)) →
  r' ∈ s Behavior_Trial →
  (∀ k, k ∈ recording_pk E → r' !! k = cond_key !! k) →
  r' !! "trial_number" = Some (VNum trial) →
  ∃ e, insert_trial_data E cond_key data trial params s = (Err e, s, []).
Proof.
  intros Hkey Hin Hpk Htn. unfold insert_trial_data.
  unfold kw_merge at 1. case_decide as Hd1; [|by exists TypeError].
  rewrite (bind_lift_ok _ _ (cond_key ∪ data)) by done.
  destruct (getitem params "saveTag") as [save_tag|e] eqn:Hst; [|by exists e].
  rewrite (bind_lift_ok _ _ save_tag) by done.
  unfold kw_merge. case_decide as Hd2; [|by exists TypeError].
  rewrite (bind_lift_ok _ _ (cond_key ∪ data ∪ _)) by done.
  destruct (insert1_existing (recording_pk E) Behavior_Trial
              (cond_key ∪ data ∪ {[ "trial_number" := VNum trial;
                                    "save_tag" := save_tag ]}) false s r' Hin)
    as (res & Hrun & Herr & _).
  { cbn [schema_of primary]. intros k [Hk| ->%list_elem_of_singleton]%elem_of_app.
    - rewrite Hpk by done. apply Hkey in Hk as [v Hv]. rewrite Hv. symmetry.
      apply lookup_union_Some_l. by apply lookup_union_Some_l.
    - rewrite Htn. symmetry. apply lookup_union_Some_raw. right. split.
      + apply (map_disjoint_Some_r _ _ _ (VNum trial) Hd2). by simplify_map_eq.
      + by simplify_map_eq. }
  destruct res as [[]|e]; [by destruct Herr|]. by exists e.
Qed.

(** C5.  During trial ingestion the insertion of a Behavior.Condition row
    that is already there changes nothing and raises nothing, and the
    insertion of a Behavior.Trial row whose trial number the recording
    already has raises and changes nothing. *)
Theorem trial_ingestion_duplicates (E : env) (key : gmap string val) s :
  (∀ a q c r',
     fetch1 (eval (recording_pk E) s (QRestrict q (all_cond_attr a)))
            "condition_id" = OK c →
     (∀ k, is_Some (key !! k) ↔ k ∈ recording_pk E) →
     "condition_id" ∉ recording_pk E →
     r' ∈ s Behavior_Condition →
     (∀ k, k ∈ recording_pk E → r' !! k = key !! k) →
     r' !! "condition_id" = Some c →
     ∃ s', insert_condition_data E key a q s
           = (OK (key ∪ {[ "condition_id" := c ]}), s', []) ∧
           ∀ t, s' t = s t) ∧
  (∀ cond_key data trial params r',
     (∀ k, k ∈ recording_pk E → is_Some (cond_key !! k)) →
     r' ∈ s Behavior_Trial →
     (∀ k, k ∈ recording_pk E → r' !! k = cond_key !! k) →
     r' !! "trial_number" = Some (VNum trial) →
     ∃ e, insert_trial_data E cond_key data trial params s = (Err e, s, [])).
Proof.
  split.
  - intros. by eapply condition_data_existing.
  - intros. by eapply trial_data_duplicate.
Qed.

(** ** A parameter file with an unknown profile type *)

Lemma aborts_bind_l {A B} P (m : M A) (k : A → M B) :
  aborts_keeping P m → aborts_keeping P (bind m k).
Proof.
  intros Hm s r s' o H.
  apply bind_run in H as [(a & s1 & o1 & o2 & H1 & _ & _)|(e & H1 & ->)].
  - by destruct (Hm _ _ _ _ H1).
  - apply (Hm _ _ _ _ H1).
Qed.

Lemma aborts_bind_r {A B} P (m : M A) (k : A → M B) :
  preserves P m →
  (∀ a s s1 o1, m s = (OK a, s1, o1) → aborts_keeping P (k a)) →
  aborts_keeping P (bind m k).
Proof.
  intros Hm Hk s r s' o H.
  apply bind_run in H as [(a & s1 & o1 & o2 & H1 & H2 & _)|(e & H1 & ->)].
  - destruct (Hk _ _ _ _ H1 _ _ _ _ H2) as [Herr Hkeep]. split; [done|].
    intros t Ht. rewrite (Hkeep t Ht). by apply (Hm _ _ _ _ H1).
  - split; [done|]. by apply (Hm _ _ _ _ H1).
Qed.

Lemma aborts_lift_ok {A B} P (x : res A) (k : A → M B) a :
  x = OK a → aborts_keeping P (k a) → aborts_keeping P (bind (lift x) k).
Proof.
  intros -> Hk. apply aborts_bind_r; [apply preserves_lift|].
  by intros a' s s1 o1 [= <- _ _].
Qed.

Lemma aborts_lift_any {A B} P (x : res A) (k : A → M B) :
  (∀ a, x = OK a → aborts_keeping P (k a)) → aborts_keeping P (bind (lift x) k).
Proof.
  intros Hk. apply aborts_bind_r; [apply preserves_lift|].
  intros a' s s1 o1 [= -> _ _]. by apply Hk.
Qed.

Lemma aborts_for_each {A} P (l : list A) (body : A → M unit) x :
  x ∈ l →
  (∀ y, y ∈ l → preserves P (body y)) →
  aborts_keeping P (body x) →
  aborts_keeping P (for_each l body).
Proof.
  induction l as [|y l IH]; intros Hx Hpres Habort.
  { by apply elem_of_nil in Hx. }
  simpl. apply elem_of_cons in Hx as [<-|Hx].
  - by apply aborts_bind_l.
  - apply aborts_bind_r; [apply Hpres; by left|]. intros _ _ _ _ _.
    apply IH; [done| |done]. intros z Hz. apply Hpres. by right.
Qed.

Lemma parseparams_rel params a q t :
  parseparams params = OK (a, q, t) →
  t = Static ∨ t = Ramp ∨ t = Sine ∨ t = Chirp.
Proof.
  intros H. apply parseparams_ok in H
    as (? & ? & ? & ? & ? & ? & ? & tattr & _ & _ & _ & _ & _ & _ & _ & Ht & _).
  by apply targ_type_of_rel in Ht.
Qed.

Lemma parseparams_unknown_type params ty :
  get params "type" = Some ty →
  ty ≠ VStr "STA" → ty ≠ VStr "RMP" → ty ≠ VStr "SIN" → ty ≠ VStr "CHP" →
  is_err (parseparams params).
Proof.
  intros Hty H1 H2 H3 H4. unfold parseparams.
  assert (targ_type_of params = OK None) as ->.
  { unfold targ_type_of, getitem, py_eq. rewrite Hty. cbn [res_bind].
    by rewrite !bool_decide_false. }
  destruct (stim_on params);
    repeat (match goal with
            | |- context [res_bind ?r _] => destruct r; [|done]; cbn [res_bind]
            end); done.
Qed.

Lemma preserves_insert_part E cond_key a p :
  preserves trial_table (insert_part E cond_key a p).
Proof.
  unfold insert_part. case_decide; [apply preserves_ret|].
  apply preserves_bind; [apply preserves_query|]. intros found.
  apply preserves_bind.
  { destruct (nonempty found); [apply preserves_lift|].
    apply preserves_bind; [apply preserves_query|]. intros all.
    apply preserves_bind; [apply preserves_lift|]. intros. apply preserves_ret. }
  intros id. apply preserves_bind; [apply preserves_lift|]. intros row.
  apply preserves_bind; [|intros; apply preserves_ret].
  apply preserves_insert1. unfold trial_table. by destruct p; intros [|].
Qed.

Lemma preserves_insert_condition E a q t :
  ¬ trial_table t → preserves trial_table (insert_condition E a q t).
Proof.
  intros Ht. unfold insert_condition.
  apply preserves_bind; [apply preserves_query|]. intros found.
  destruct (nonempty found); [apply preserves_ret|].
  apply preserves_bind; [apply preserves_query|]. intros all.
  apply preserves_bind; [apply preserves_lift|]. intros new_cond_id.
  apply preserves_bind; [apply preserves_insert1; by intros [|]|]. intros _.
  apply preserves_bind.
  { apply preserves_for_fold. intros. apply preserves_insert_part. }
  intros a'. apply preserves_bind; [apply preserves_lift|]. intros target_id.
  apply preserves_bind; [apply preserves_lift|]. intros row0.
  apply preserves_bind; [apply preserves_lift|]. intros row.
  by apply preserves_insert1.
Qed.

(** The first loop writes no row of Behavior.Condition or Behavior.Trial. *)
Lemma preserves_populate_condition E bp data_files f :
  preserves trial_table (populate_condition E bp data_files f).
Proof.
  unfold populate_condition.
  apply preserves_bind; [apply preserves_lift|]. intros trial.
  case_bool_decide; [apply preserves_print|].
  apply preserves_bind; [apply preserves_lift|]. intros params.
  destruct (parseparams params) as [[[a q] t]|e] eqn:Hparse.
  - intros s r s' o. rewrite (bind_lift_ok _ _ (a, q, t)) by done.
    apply preserves_insert_condition. apply parseparams_rel in Hparse.
    unfold trial_table. by destruct Hparse as [-> | [-> | [-> | ->]]]; intros [|].
  - intros s r s' o. rewrite (bind_lift_err _ _ e) by done. by intros [= _ <- _].
Qed.

(** ** Computations that print nothing *)

Lemma silent_bind {A B} (m : M A) (k : A → M B) :
  silent m → (∀ a, silent (k a)) → silent (bind m k).
Proof.
  intros Hm Hk s r s' o H.
  apply bind_run in H as [(a & s1 & o1 & o2 & H1 & H2 & ->)|(e & H1 & _)].
  - by rewrite (Hm _ _ _ _ H1), (Hk _ _ _ _ _ H2).
  - by apply (Hm _ _ _ _ H1).
Qed.

Lemma silent_ret {A} (a : A) : silent (ret a).
Proof. by intros s r s' o [= _ _ <-]. Qed.

Lemma silent_lift {A} (x : res A) : silent (lift x).
Proof. by intros s r s' o [= _ _ <-]. Qed.

Lemma silent_query rpk q : silent (query_now rpk q).
Proof. by intros s r s' o [= _ _ <-]. Qed.

Lemma silent_insert1 rpk t row skip : silent (insert1 rpk t row skip).
Proof. intros s r s' o H. by apply insert1_run in H as [-> _]. Qed.

Lemma silent_for_each {A} (l : list A) (body : A → M unit) :
  (∀ x, silent (body x)) → silent (for_each l body).
Proof.
  intros Hbody. induction l as [|x l IH]; [apply silent_ret|].
  cbn [for_each]. apply silent_bind; [apply Hbody|by intros _].
Qed.

Lemma silent_for_fold {A S} (l : list A) (acc : S) (body : S → A → M S) :
  (∀ acc x, silent (body acc x)) → silent (for_fold l acc body).
Proof.
  intros Hbody. revert acc. induction l as [|x l IH]; intros acc; [apply silent_ret|].
  cbn [for_fold]. apply silent_bind; [apply Hbody|apply IH].
Qed.

Ltac silent_steps :=
  repeat first
    [ apply silent_ret | apply silent_lift | apply silent_query | apply silent_insert1
    | apply silent_bind; [|intros ?]
    | apply silent_for_fold; intros ? ?
    | apply silent_for_each; intros ?
    | match goal with
      | |- silent (if ?b then _ else _) => destruct b
      | |- silent (match ?x with _ => _ end) => destruct x
      end ].

Lemma silent_insert_condition E a q t : silent (insert_condition E a q t).
Proof. unfold insert_condition, insert_part. silent_steps. Qed.

(** ** The lines of the first loop *)

(** What a pass of the first loop prints, whether it returns or raises:
    nothing for a file that has its data file, and for a file without it
    its line, unless the pass raises before the line. *)
Lemma populate_condition_reports E bp dfs f s r s' o :
  populate_condition E bp dfs f s = (r, s', o) →
  if decide (has_data dfs f) then o = []
  else (is_err r ∧ o = []) ∨
       (r = OK tt ∧ ∃ line, missing_data_line f line ∧ o = [line]).
Proof.
  unfold populate_condition. intros H.
  apply bind_run in H as [(tok & s0 & ? & ? & Htok & H & ->)|(e & Htok & ->)].
  2:{ injection Htok as _ _ <-. case_decide; [done|]. by left. }
  injection Htok as Htok <- <-.
  destruct (decide (has_data dfs f)) as [Hp|Hp]; unfold has_data in Hp.
  - rewrite bool_decide_false in H by (intros Hnot; by apply Hnot).
    lazymatch type of H with ?m _ = _ => assert (silent m) as Hsil end.
    { apply silent_bind; [apply silent_lift|]. intros params.
      apply silent_bind; [apply silent_lift|]. intros [[a q] t].
      apply silent_insert_condition. }
    exact (Hsil _ _ _ _ H).
  - rewrite bool_decide_true in H by done. injection H as <- _ <-.
    right. split; [done|]. eexists. split; [by exists tok|done].
Qed.

(** The lines of the first loop, whether it returns or raises: the lines
    of the first files without data file, in their order. *)
Lemma first_loop_reports E bp dfs pfs s r s' o :
  for_each pfs (populate_condition E bp dfs) s = (r, s', o) →
  ∃ reported,
    reported `prefix_of` (filter (λ f, ¬ has_data dfs f) pfs) ∧
    Forall2 missing_data_line reported o.
Proof.
  revert s o. induction pfs as [|f pfs IH]; intros s o H.
  { injection H as _ _ <-. exists []. split; [done|constructor]. }
  cbn [for_each] in H. rewrite filter_cons.
  apply bind_run in H as [([] & s1 & o1 & o2 & Hf & H & ->)|(e & Hf & ->)].
  - apply populate_condition_reports in Hf.
    destruct (IH _ _ H) as (reported & Hpre & Hlines).
    destruct (decide (has_data dfs f)) as [Hp|Hp].
    + rewrite decide_False by (intros Hnot; by apply Hnot). subst o1.
      by exists reported.
    + rewrite decide_True by done.
      destruct Hf as [[[] _]|(_ & line & Hline & ->)].
      exists (f :: reported). split; [by apply prefix_cons|]. by constructor.
  - apply populate_condition_reports in Hf. exists [].
    split; [apply prefix_nil|].
    destruct (decide (has_data dfs f)) as [Hp|Hp]; [subst o; constructor|].
    destruct Hf as [[_ ->]|([=] & _)]. constructor.
Qed.

(** The first loop raises at a file with an unknown profile type. *)
Lemma first_loop_aborts E bp dfs pfs f params ty :
  f ∈ pfs →
  str_replace f "params" "data" ∈ dfs →
  readtrialparams E (bp +:+ f) = OK params →
  get params "type" = Some ty →
  ty ≠ VStr "STA" → ty ≠ VStr "RMP" → ty ≠ VStr "SIN" → ty ≠ VStr "CHP" →
  aborts_keeping trial_table (for_each pfs (populate_condition E bp dfs)).
Proof.
  intros Hf Hdata Hread Hty H1 H2 H3 H4.
  apply (aborts_for_each _ _ _ f Hf); [intros; apply preserves_populate_condition|].
  unfold populate_condition.
  apply aborts_lift_any. intros trial _.
  rewrite bool_decide_false by (intros Hnot; by apply Hnot).
  apply (aborts_lift_ok _ _ _ params); [done|].
  pose proof (parseparams_unknown_type params ty Hty H1 H2 H3 H4) as Herr.
  destruct (parseparams params) as [?|e]; [done|].
  intros s0 r0 s0' o0. rewrite (bind_lift_err _ _ e) by done.
  by intros [= <- <- _].
Qed.

(** A run of [make] on a Speedgoat recording that raises before the end
    of the first loop has printed what the loop has. *)
Lemma make_first_loop (E : env) (key : gmap string val) path fs path' files
    s r s' o :
  fetch_recording E key = OK (path, fs) →
  ensurelocal E path = OK path' →
  fetch_task_controller E key = OK "Speedgoat" →
  listdir E (behavior_path_of path') = OK files →
  make E key s = (r, s', o) →
  o = [] ∨
  ∃ s1 r1 s2 o1,
    for_each (filter (λ f, endswith f ".params") files)
      (populate_condition E (behavior_path_of path')
         (filter (λ f, endswith f ".data") files)) s1 = (r1, s2, o1) ∧
    (is_err r1 → o = o1).
Proof.
  intros Hrec Hloc Hhw Hdir. unfold make. intros H.
  apply bind_run in H as [([] & s1 & oa & ob & Hins & H & ->)|(e & Hins & _)].
  2:{ left. by apply insert1_run in Hins as [-> _]. }
  apply insert1_run in Hins as [-> _].
  rewrite (bind_lift_ok _ _ (path, fs)) in H by done.
  rewrite (bind_lift_ok _ _ path') in H by done.
  rewrite (bind_lift_ok _ _ "Speedgoat") in H by done.
  rewrite bool_decide_true in H by done.
  apply bind_run in H as [(summary & s2 & oc & od & Hsum & H & ->)|(e & Hsum & _)].
  2:{ left. by injection Hsum as _ _ <-. }
  injection Hsum as _ _ <-.
  assert (silent (insert (recording_pk E) TaskState summary true)) as Hsil.
  { apply silent_for_each. intros. apply silent_insert1. }
  apply bind_run in H as [([] & s3 & oe & og & Hst & H & ->)|(e & Hst & _)].
  2:{ left. cbn [app]. exact (Hsil _ _ _ _ Hst). }
  rewrite (Hsil _ _ _ _ Hst).
  rewrite (bind_lift_ok _ _ files) in H by done. cbn [app].
  apply bind_run in H as [([] & s4 & o1 & o2 & Hloop & H & ->)|(e & Hloop & _)].
  - right. exists s3, (OK tt), s4, o1. split; [done|]. by intros [].
  - right. exists s3, (Err e), s', og. split; [done|]. done.
Qed.

(** C6, as the code has it.  When a parameter file that has its data file
    carries a profile type other than the four, the run over the recording
    raises: the file is not skipped, and no row of Behavior.Condition or
    Behavior.Trial is written for any file of the batch.  Nothing is
    reported for the file: the lines that the run has printed are the
    lines [Missing data file for trial ...] of parameter files that have
    no data file, and the file is none of these. *)
Theorem unknown_profile_type_aborts (E : env) (key : gmap string val)
    path fs path' files f params ty s r s' o :
  fetch_recording E key = OK (path, fs) →
  ensurelocal E path = OK path' →
  fetch_task_controller E key = OK "Speedgoat" →
  listdir E (behavior_path_of path') = OK files →
  f ∈ filter (λ f, endswith f ".params") files →
  str_replace f "params" "data" ∈ filter (λ f, endswith f ".data") files →
  readtrialparams E (behavior_path_of path' +:+ f) = OK params →
  get params "type" = Some ty →
  ty ≠ VStr "STA" → ty ≠ VStr "RMP" → ty ≠ VStr "SIN" → ty ≠ VStr "CHP" →
  make E key s = (r, s', o) →
  is_err r ∧
  s' Behavior_Condition = s Behavior_Condition ∧
  s' Behavior_Trial = s Behavior_Trial ∧
  ∃ reported,
    reported `prefix_of`
      (filter (λ p, ¬ has_data (filter (λ f, endswith f ".data") files) p)
              (filter (λ f, endswith f ".params") files)) ∧
    (f ∉ reported) ∧
    Forall2 missing_data_line reported o.
Proof.
  intros Hrec Hloc Hhw Hdir Hf Hdata Hread Hty H1 H2 H3 H4 Hrun.
  pose proof (first_loop_aborts E _ _ _ f params ty Hf Hdata Hread Hty H1 H2 H3 H4)
    as Hloop.
  assert (aborts_keeping trial_table (make E key)) as Habort.
  { unfold make.
    apply aborts_bind_r; [apply preserves_insert1; by intros [|]|]. intros _ _ _ _ _.
    apply (aborts_lift_ok _ _ _ (path, fs)); [done|].
    apply (aborts_lift_ok _ _ _ path'); [done|].
    apply (aborts_lift_ok _ _ _ "Speedgoat"); [done|].
    rewrite bool_decide_true by done.
    apply aborts_lift_any. intros summary _.
    apply aborts_bind_r; [apply preserves_insert; by intros [|]|]. intros _ _ _ _ _.
    apply (aborts_lift_ok _ _ _ files); [done|].
    by apply aborts_bind_l. }
  destruct (Habort _ _ _ _ Hrun) as [Herr Hkeep].
  split; [done|]. split; [apply Hkeep; by left|]. split; [apply Hkeep; by right|].
  assert (∃ reported,
            reported `prefix_of`
              (filter (λ p, ¬ has_data (filter (λ f, endswith f ".data") files) p)
                      (filter (λ f, endswith f ".params") files)) ∧
            Forall2 missing_data_line reported o) as (reported & Hpre & Hlines).
  { destruct (make_first_loop E key path fs path' files s r s' o
                Hrec Hloc Hhw Hdir Hrun) as [->|(s1 & r1 & s2 & o1 & Hrun1 & Ho)].
    { exists []. split; [apply prefix_nil|constructor]. }
    destruct (Hloop _ _ _ _ Hrun1) as [Herr1 _]. rewrite (Ho Herr1).
    by apply first_loop_reports in Hrun1. }
  exists reported. split; [done|]. split; [|done].
  intros Hin. destruct Hpre as [rest Hpre].
  assert (f ∈ filter (λ p, ¬ has_data (filter (λ f, endswith f ".data") files) p)
                     (filter (λ f, endswith f ".params") files)) as Hin'.
  { rewrite Hpre. apply elem_of_app. by left. }
  apply list_elem_of_filter in Hin' as [Hno _]. by apply Hno.
Qed.

(** ** File names: the trial token survives the change of extension *)

Lemma replace_from_skip old new k s :
  replace_from old new k s = replace_from old new 0 (str_drop k s).
Proof.
  revert k. induction s as [|c s IH]; intros [|k]; try done.
  cbn [replace_from str_drop]. apply IH.
Qed.

Lemma str_drop_length k s : (String.length (str_drop k s) ≤ String.length s)%nat.
Proof.
  revert s. induction k as [|k IH]; intros [|c s]; simpl; try lia.
  specialize (IH s). lia.
Qed.

Lemma prefix_head_ne a u c s : a ≠ c → String.prefix (String a u) (String c s) = false.
Proof. intros. simpl. by destruct (Ascii.ascii_dec a c). Qed.

Section replace_token.
Variables (o0 n0 : ascii) (orest nrest : string).
Let old := String o0 orest.
Let new := String n0 nrest.
Let R := replace_from old new 0.
Let T := re_search match_beh.

Hypothesis o0_safe : ∀ a, a ∈ list_ascii_of_string "beh_" → a ≠ o0.
Hypothesis n0_safe : ∀ a, a ∈ list_ascii_of_string "beh_" → a ≠ n0.
Hypothesis o0_nondigit : is_digit o0 = false.
Hypothesis n0_nondigit : is_digit n0 = false.
Hypothesis old_no_token : ∀ x, T (old +:+ x) = T x.
Hypothesis new_no_token : ∀ x, T (new +:+ x) = T x.

Lemma R_unfold c s :
  R (String c s) =
  if String.prefix old (String c s)
  then new +:+ R (str_drop (String.length old) (String c s))
  else String c (R s).
Proof.
  unfold R at 1. cbn [replace_from]. fold R.
  destruct (String.prefix old (String c s)); [|done].
  f_equal. rewrite replace_from_skip. unfold old. cbn [String.length str_drop].
  by replace (S (String.length orest) - 1)%nat with (String.length orest) by lia.
Qed.

Lemma R_safe_prefix u s :
  (∀ a, a ∈ list_ascii_of_string u → a ≠ o0 ∧ a ≠ n0) →
  String.prefix u (R s) = String.prefix u s.
Proof.
  revert s. induction u as [|a u IH]; intros s Hu; [by destruct s, (R _)|].
  destruct s as [|c s]; [done|]. rewrite R_unfold.
  destruct (Hu a) as [Hao Han]; [by left|].
  destruct (String.prefix old (String c s)) eqn:Hp.
  - apply prefix_split in Hp. rewrite Hp. unfold new, old.
    rewrite !append_cons. by rewrite !prefix_head_ne.
  - simpl. destruct (Ascii.ascii_dec a c); [|done].
    apply IH. intros b Hb. apply Hu. by right.
Qed.

Lemma R_safe_app u s :
  (∀ a, a ∈ list_ascii_of_string u → a ≠ o0) →
  R (u +:+ s) = u +:+ R s.
Proof.
  induction u as [|a u IH]; intros Hu; [done|].
  rewrite !append_cons, R_unfold. unfold old at 1.
  rewrite prefix_head_ne.
  - f_equal. apply IH. intros b Hb. apply Hu. by right.
  - intros <-. by apply (Hu o0); [left|].
Qed.

Lemma R_digits s : take_while is_digit (R s) = take_while is_digit s.
Proof.
  induction s as [|c s IH]; [done|]. rewrite R_unfold.
  destruct (String.prefix old (String c s)) eqn:Hp.
  - apply prefix_split in Hp. rewrite Hp. unfold new, old.
    rewrite !append_cons. cbn [take_while].
    by rewrite o0_nondigit, n0_nondigit.
  - cbn [take_while]. by rewrite IH.
Qed.

Lemma R_match_beh s : match_beh (R s) = match_beh s.
Proof.
  unfold match_beh. rewrite R_safe_prefix.
  2:{ intros a Ha. split; [by apply o0_safe|by apply n0_safe]. }
  destruct (String.prefix "beh_" s) eqn:Hp; [|done].
  apply prefix_split in Hp. rewrite Hp. rewrite R_safe_app by done.
  f_equal. change (String.length "beh_") with 4%nat.
  set (x := str_drop 4 s).
  change (str_drop 4 ("beh_" +:+ R x)) with (R x).
  change (str_drop 4 ("beh_" +:+ x)) with x.
  apply R_digits.
Qed.

Lemma R_token_n n s : (String.length s ≤ n)%nat → T (R s) = T s.
Proof.
  revert s. induction n as [|n IH]; intros s Hlen.
  { destruct s; [done|simpl in Hlen; lia]. }
  destruct s as [|c s]; [done|].
  destruct (String.prefix old (String c s)) eqn:Hp.
  - rewrite R_unfold, Hp. rewrite new_no_token.
    rewrite (prefix_split _ _ Hp) at 2. rewrite old_no_token.
    apply IH. unfold old. cbn [String.length str_drop].
    simpl in Hlen. pose proof (str_drop_length (String.length orest) s). lia.
  - pose proof (R_match_beh (String c s)) as HB.
    rewrite R_unfold, Hp in HB. rewrite R_unfold, Hp.
    unfold T. cbn [re_search]. rewrite HB.
    destruct (match_beh (String c s)); [reflexivity|].
    apply IH. simpl in Hlen. lia.
Qed.

Lemma R_token s : re_search match_beh (replace_from old new 0 s) = re_search match_beh s.
Proof. by apply (R_token_n (String.length s)). Qed.
End replace_token.

Lemma token_params_data f :
  trial_token (str_replace f "params" "data") = trial_token f.
Proof.
  unfold trial_token, str_replace.
  rewrite (R_token "p" "d" "arams" "ata"); [done|..]; try done.
  - intros a Ha. vm_compute in Ha.
    repeat (apply elem_of_cons in Ha as [->|Ha]; [done|]). by apply elem_of_nil in Ha.
  - intros a Ha. vm_compute in Ha.
    repeat (apply elem_of_cons in Ha as [->|Ha]; [done|]). by apply elem_of_nil in Ha.
Qed.

Lemma token_data_params f :
  trial_token (str_replace f "data" "params") = trial_token f.
Proof.
  unfold trial_token, str_replace.
  rewrite (R_token "d" "p" "ata" "arams"); [done|..]; try done.
  - intros a Ha. vm_compute in Ha.
    repeat (apply elem_of_cons in Ha as [->|Ha]; [done|]). by apply elem_of_nil in Ha.
  - intros a Ha. vm_compute in Ha.
    repeat (apply elem_of_cons in Ha as [->|Ha]; [done|]). by apply elem_of_nil in Ha.
Qed.


(** ** A file without its counterpart *)










Lemma filter_insert_no {A} (P : A → Prop) `{!∀ x, Decision (P x)} l1 l2 x :
  ¬ P x → filter P (l1 ++ x :: l2) = filter P (l1 ++ l2).
Proof. intros. by rewrite !filter_app, filter_cons_False. Qed.


Lemma populate_condition_with_files E files :
  populate_condition (with_files E files) = populate_condition E.
Proof. reflexivity. Qed.

Lemma populate_trial_with_files E files :
  populate_trial (with_files E files) = populate_trial E.
Proof. reflexivity. Qed.




(** ** Where the identifiers are allocated *)

(** A new condition gets the identifier that [new_id] finds in
    ConditionParams. *)
Lemma insert_condition_allocates E a q t s s' o :
  t ≠ ConditionParams →
  nonempty (eval (recording_pk E) s (QRestrict q (all_cond_attr a))) = false →
  insert_condition E a q t s = (OK tt, s', o) →
  ∃ n, new_id (s ConditionParams) "condition_id" = OK n ∧
       s' ConditionParams = s ConditionParams ++ [{[ "condition_id" := VNum n ]}].
Proof.
  intros Ht Hnone. unfold insert_condition. rewrite bind_query, Hnone, bind_query.
  cbn [eval rel_rows].
  destruct (new_id (s ConditionParams) "condition_id") as [n|e] eqn:Hn; [|done].
  rewrite (bind_lift_ok _ _ n) by done. intros H. exists n. split; [done|].
  apply bind_run in H as [([] & s1 & o1 & o2 & Hins & H & _)|(e & _ & [=])].
  apply insert1_run in Hins as [_ Hins].
  destruct (insert_row _ _ _ _ _) as [rows|e] eqn:Hrow; destruct Hins as [[=] ->].
  apply insert_row_ok in Hrow as [(_ & [=] & _)|[-> _]].
  assert (preserves (λ t', t' = ConditionParams)
            (a0 <- for_fold [PForce; PStim; PTarget] a
                     (insert_part E {[ "condition_id" := VNum n ]}) ;;
             target_id <- lift (dict_getitem (targ_attr a0) "target_id") ;;
             row0 <- lift (kw_merge {[ "condition_id" := VNum n ]} (targ_type_attr a0)) ;;
             row <- lift (kw_merge row0 {[ "target_id" := target_id ]}) ;;
             insert1 (recording_pk E) t row false)) as Hpres.
  { apply preserves_bind.
    - apply preserves_for_fold. intros acc p _. unfold insert_part.
      case_decide; [apply preserves_ret|].
      apply preserves_bind; [apply preserves_query|]. intros found.
      apply preserves_bind.
      { destruct (nonempty found); [apply preserves_lift|].
        apply preserves_bind; [apply preserves_query|]. intros all.
        apply preserves_bind; [apply preserves_lift|]. intros. apply preserves_ret. }
      intros id. apply preserves_bind; [apply preserves_lift|]. intros row.
      apply preserves_bind; [|intros; apply preserves_ret].
      apply preserves_insert1. by destruct p.
    - intros a0. apply preserves_bind; [apply preserves_lift|]. intros target_id.
      apply preserves_bind; [apply preserves_lift|]. intros row0.
      apply preserves_bind; [apply preserves_lift|]. intros row.
      apply preserves_insert1. congruence. }
  rewrite (Hpres _ _ _ _ H ConditionParams eq_refl). apply set_table_same.
Qed.

(** A part whose attributes match no row gets the identifier that [new_id]
    finds in the table of the part. *)
Lemma insert_part_allocates E cond_key a p s a' s' o :
  get_part a p ≠ ∅ →
  nonempty (eval (recording_pk E) s
              (QRestrict (QTable (part_rel p)) (get_part a p))) = false →
  insert_part E cond_key a p s = (OK a', s', o) →
  ∃ n, new_id (s (part_rel p)) (part_id p) = OK n ∧
       get_part a' p = <[part_id p := VNum n]> (get_part a p) ∧
       s' (part_rel p) = s (part_rel p) ++ [cond_key ∪ get_part a' p].
Proof.
  intros Hne Hnone. unfold insert_part. rewrite decide_False by done.
  rewrite bind_query, Hnone. rewrite bind_assoc, bind_query. cbn [eval rel_rows].
  destruct (new_id (s (part_rel p)) (part_id p)) as [n|e] eqn:Hn;
    [|by rewrite bind_assoc, (bind_lift_err _ _ e)].
  rewrite bind_assoc, (bind_lift_ok _ _ n), bind_ret by done.
  unfold kw_merge. case_decide as Hdisj; [|done].
  rewrite (bind_lift_ok _ _ (cond_key ∪ <[part_id p:=VNum n]> (get_part a p))) by done.
  intros H. exists n. split; [done|].
  apply bind_run in H as [([] & s1 & o1 & o2 & Hins & H & _)|(e & _ & [=])].
  injection H as <- <- _.
  apply insert1_run in Hins as [_ Hins].
  destruct (insert_row _ _ _ _ _) as [rows|e] eqn:Hrow; destruct Hins as [[=] ->].
  apply insert_row_ok in Hrow as [(_ & [=] & _)|[-> _]].
  split; [by destruct p|]. rewrite set_table_same. by destruct p.
Qed.

(** ** A condition that was inserted is found *)

Lemma insert_row_fits sc t skip rows row rows' :
  insert_row sc t skip rows row = OK rows' →
  ∀ k, is_Some (row !! k) → k ∈ heading sc.
Proof.
  unfold insert_row.
  destruct (filter _ (map_to_list row).*1) as [|k0 l] eqn:Hf; [|done].
  intros _ k [v Hv]. apply dec_stable. intros Hk.
  assert (k ∈ filter (λ k, k ∉ heading sc) (map_to_list row).*1) as Hin.
  { apply list_elem_of_filter. split; [done|].
    apply list_elem_of_fmap. exists (k, v). split; [done|].
    by apply elem_of_map_to_list. }
  rewrite Hf in Hin. by apply elem_of_nil in Hin.
Qed.

Lemma fetch_rows_lookup rows attr vs r :
  fetch_rows rows attr = OK vs → r ∈ rows → ∃ v, r !! attr = Some v ∧ v ∈ vs.
Proof.
  revert vs. induction rows as [|r0 rows IH]; intros vs Hf Hr.
  { by apply elem_of_nil in Hr. }
  cbn [fetch_rows] in Hf. unfold dict_getitem in Hf.
  destruct (r0 !! attr) as [v0|] eqn:H0; [|done]. cbn [res_bind] in Hf.
  destruct (fetch_rows rows attr) as [vs'|]; [|done]. injection Hf as <-.
  apply elem_of_cons in Hr as [->|Hr].
  - exists v0. split; [done|by left].
  - destruct (IH vs' eq_refl Hr) as (v & Hv & Hin). exists v. split; [done|by right].
Qed.

Lemma ints_of_elem vs ids z :
  ints_of vs = OK ids → VNum z ∈ vs → z ∈ ids.
Proof.
  revert ids. induction vs as [|v vs IH]; intros ids Hi Hz.
  { by apply elem_of_nil in Hz. }
  cbn [ints_of] in Hi. destruct (as_int v) as [z0|] eqn:Hv; [|done].
  cbn [res_bind] in Hi. destruct (ints_of vs) as [zs|]; [|done].
  injection Hi as <-. apply elem_of_cons in Hz as [<-|Hz].
  - injection Hv as <-. by left.
  - right. by apply IH.
Qed.

(** The identifier [new_id] returns is in no row of the table. *)
Lemma new_id_fresh rows attr n r :
  new_id rows attr = OK n → r ∈ rows → r !! attr ≠ Some (VNum n).
Proof.
  intros Hn Hr Heq. destruct rows as [|r0 rows]; [by apply elem_of_nil in Hr|].
  unfold new_id in Hn.
  destruct (fetch_rows (r0 :: rows) attr) as [vs|] eqn:Hf; [|done].
  cbn [res_bind] in Hn. destruct (ints_of vs) as [ids|] eqn:Hi; [|done].
  cbn [res_bind] in Hn. unfold first_free in Hn.
  destruct (py_max ids) as [m|]; [|done]. cbn [res_bind] in Hn.
  destruct (list_find _ _) as [[j i]|] eqn:Hfind; [|done]. injection Hn as ->.
  apply list_find_Some in Hfind as (_ & Hnot & _). apply Hnot.
  destruct (fetch_rows_lookup _ _ _ _ Hf Hr) as (v & Hv & Hin).
  apply (ints_of_elem vs); [done|]. congruence.
Qed.

(** What a successful pass of the loop over the parts has done. *)
Lemma insert_part_ok E ck a p s a' s' o :
  insert_part E ck a p s = (OK a', s', o) →
  (get_part a p = ∅ ∧ a' = a ∧ s' = s) ∨
  (get_part a p ≠ ∅ ∧
   ∃ id, a' = set_part a p (<[part_id p := id]> (get_part a p)) ∧
         ck ##ₘ <[part_id p := id]> (get_part a p) ∧
         s' = set_table s (part_rel p)
                (s (part_rel p) ++ [ck ∪ <[part_id p := id]> (get_part a p)]) ∧
         (∀ k, is_Some ((ck ∪ <[part_id p := id]> (get_part a p)) !! k) →
               k ∈ heading (schema_of (recording_pk E) (part_rel p)))).
Proof.
  unfold insert_part. case_decide as Hempty.
  { intros [= <- <- _]. by left. }
  intros H. right. split; [done|]. rewrite bind_query in H.
  apply bind_run in H as [(id & s1 & o1 & o2 & Hid & H & _)|(e & _ & [=])].
  assert (s1 = s) as ->.
  { destruct (nonempty _); [by injection Hid|].
    rewrite bind_query in Hid.
    apply bind_run in Hid as [(n & s2 & ? & ? & Hn & Hret & _)|(e & _ & [=])].
    injection Hret as _ <- _. by injection Hn. }
  unfold kw_merge in H. case_decide as Hdisj; [|done].
  rewrite (bind_lift_ok _ _ (ck ∪ <[part_id p := id]> (get_part a p))) in H by done.
  apply bind_run in H as [([] & s2 & o3 & o4 & Hins & H & _)|(e & _ & [=])].
  injection H as <- <- _. exists id. do 2 (split; [done|]).
  apply insert1_run in Hins as [_ Hins].
  destruct (insert_row _ _ _ _ _) as [rows|e] eqn:Hrow; destruct Hins as [[=] ->].
  split; [|by eapply insert_row_fits].
  by apply insert_row_ok in Hrow as [(_ & [=] & _)|[-> _]].
Qed.

(** What the insertion of a new condition has written. *)
Lemma insert_condition_ok E a q t s s' o :
  t = Static ∨ t = Ramp ∨ t = Sine ∨ t = Chirp →
  force_attr a ≠ ∅ → targ_attr a ≠ ∅ →
  nonempty (eval (recording_pk E) s (QRestrict q (all_cond_attr a))) = false →
  insert_condition E a q t s = (OK tt, s', o) →
  ∃ c fid tid (ck : gmap string val),
    ck = {[ "condition_id" := VNum c ]} ∧
    (∀ cp, cp ∈ s ConditionParams → cp !! "condition_id" ≠ Some (VNum c)) ∧
    let f := ck ∪ <["force_id" := fid]> (force_attr a) in
    let tg := ck ∪ <["target_id" := tid]> (targ_attr a) in
    let ty := ck ∪ targ_type_attr a ∪ {[ "target_id" := tid ]} in
    f ∈ s' Force ∧ tg ∈ s' Target ∧ ty ∈ s' t ∧
    (∀ k, is_Some (f !! k) → k ∈ heading (schema_of (recording_pk E) Force)) ∧
    (∀ k, is_Some (tg !! k) → k ∈ heading (schema_of (recording_pk E) Target)) ∧
    (∀ k, is_Some (ty !! k) → k ∈ heading (schema_of (recording_pk E) t)) ∧
    ck ##ₘ targ_type_attr a ∧
    (ck ∪ targ_type_attr a) ##ₘ {[ "target_id" := tid ]} ∧
    ck ##ₘ <["target_id" := tid]> (targ_attr a) ∧
    ck ##ₘ <["force_id" := fid]> (force_attr a) ∧
    (stim_attr a = ∅ → s' Stim = s Stim) ∧
    (stim_attr a ≠ ∅ →
       ∃ sid, let st := ck ∪ <["stim_id" := sid]> (stim_attr a) in
              st ∈ s' Stim ∧ ck ##ₘ <["stim_id" := sid]> (stim_attr a) ∧
              (∀ k, is_Some (st !! k) → k ∈ heading (schema_of (recording_pk E) Stim))).
Proof.
  intros Ht HF HT Hnone. unfold insert_condition. rewrite bind_query, Hnone, bind_query.
  cbn [eval rel_rows].
  destruct (new_id (s ConditionParams) "condition_id") as [c|e] eqn:Hc; [|done].
  rewrite (bind_lift_ok _ _ c) by done. intros H.
  apply bind_run in H as [([] & sC & o1 & o2 & Hins & H & _)|(e & _ & [=])].
  apply insert1_run in Hins as [_ Hins].
  destruct (insert_row _ _ _ _ _) as [rowsC|e] eqn:HrowC; destruct Hins as [[=] ->].
  clear HrowC.
  set (ck := ({[ "condition_id" := VNum c ]} : gmap string val)) in *.
  apply bind_run in H as [(a3 & s3 & o3 & o4 & Hfold & H & _)|(e & _ & [=])].
  cbn [for_fold] in Hfold.
  apply bind_run in Hfold as [(a1 & s1 & ? & ? & HpF & Hfold & _)|(e & _ & [=])].
  apply bind_run in Hfold as [(a2 & s2 & ? & ? & HpS & Hfold & _)|(e & _ & [=])].
  apply bind_run in Hfold as [(a3' & s3' & ? & ? & HpT & Hfold & _)|(e & _ & [=])].
  injection Hfold as -> -> _.
  assert (t ≠ Force ∧ t ≠ Stim ∧ t ≠ Target ∧ t ≠ ConditionParams) as (? & ? & ? & ?)
    by (destruct Ht as [-> | [-> | [-> | ->]]]; done).
  apply insert_part_ok in HpF as [(Hemp & _)|(_ & fid & -> & HdF & -> & HfitF)]; [done|].
  cbn [get_part part_rel] in HdF, HfitF, HpS.
  change (part_id PForce) with "force_id" in *.
  remember (ck ∪ <["force_id" := fid]> (force_attr a)) as f eqn:Hf.
  assert (∃ s1, s1 = set_table (set_table s ConditionParams rowsC) Force
                       (set_table s ConditionParams rowsC Force ++ [f]))
    as [s1 Hs1] by by eexists.
  rewrite <- Hs1 in HpS.
  assert (s1 Force = s Force ++ [f] ∧ s1 Stim = s Stim ∧ s1 Target = s Target ∧
          s1 t = s t) as (H1F & H1S & H1T & H1t).
  { rewrite Hs1. by rewrite set_table_same, !set_table_other. }
  clear Hs1.
  assert (∃ a1, a1 = set_part a PForce (<["force_id" := fid]> (force_attr a)))
    as [a1 Ha1] by by eexists.
  rewrite <- Ha1 in HpS.
  assert (stim_attr a1 = stim_attr a ∧ targ_attr a1 = targ_attr a ∧
          targ_type_attr a1 = targ_type_attr a) as (HaS1 & HaT1 & HaTy1)
    by by rewrite Ha1.
  clear Ha1.
  assert (targ_attr a2 = targ_attr a ∧ targ_type_attr a2 = targ_type_attr a ∧
          s2 Force = s1 Force ∧ s2 Target = s1 Target ∧ s2 t = s1 t ∧
          (stim_attr a = ∅ → s2 Stim = s1 Stim) ∧
          (stim_attr a ≠ ∅ →
             ∃ sid, (ck ∪ <["stim_id" := sid]> (stim_attr a)) ∈ s2 Stim ∧
                    ck ##ₘ <["stim_id" := sid]> (stim_attr a) ∧
                    (∀ k, is_Some ((ck ∪ <["stim_id" := sid]> (stim_attr a)) !! k) →
                          k ∈ heading (schema_of (recording_pk E) Stim))))
    as (HaT & HaTy & HsF & HsT & Hst & HsS0 & HsS1).
  { apply insert_part_ok in HpS
      as [(Hemp & -> & ->)|(Hne & sid & -> & HdS & -> & HfitS)];
      cbn [get_part part_rel] in *; rewrite HaS1 in *.
    - do 5 (split; [done|]). split; [done|]. intros Hne. by destruct Hne.
    - change (part_id PStim) with "stim_id" in *.
      rewrite !set_table_other by done. cbn [set_part targ_attr targ_type_attr].
      do 5 (split; [done|]).
      split; [intros Hemp; by destruct Hne|]. intros _. exists sid.
      rewrite set_table_same. split; [|done].
      apply elem_of_app. right. by apply list_elem_of_singleton. }
  apply insert_part_ok in HpT as [(Hemp & _)|(_ & tid & -> & HdT & -> & HfitT)];
    [cbn [get_part] in Hemp; congruence|].
  cbn [get_part part_rel] in HdT, HfitT, H. rewrite HaT in *.
  change (part_id PTarget) with "target_id" in *.
  set (tg := ck ∪ <["target_id" := tid]> (targ_attr a)) in *.
  assert (targ_attr (set_part a2 PTarget (<["target_id" := tid]> (targ_attr a)))
          = <["target_id" := tid]> (targ_attr a)) as HaT3 by done.
  assert (targ_type_attr (set_part a2 PTarget (<["target_id" := tid]> (targ_attr a)))
          = targ_type_attr a) as HaTy3 by done.
  rewrite HaT3, HaTy3 in H. clear HaT3 HaTy3.
  unfold dict_getitem in H. rewrite lookup_insert_eq in H.
  rewrite (bind_lift_ok _ _ tid) in H by done.
  unfold kw_merge in H. case_decide as Hd1; [|done].
  rewrite (bind_lift_ok _ _ (ck ∪ targ_type_attr a)) in H by done.
  case_decide as Hd2; [|done].
  rewrite (bind_lift_ok _ _ (ck ∪ targ_type_attr a ∪ {[ "target_id" := tid ]})) in H by done.
  apply insert1_run in H as [_ H].
  destruct (insert_row _ _ _ _ _) as [rowsT|e] eqn:HrowT;
    [destruct H as [_ ->]|by destruct H as [[=] _]].
  pose proof (insert_row_fits _ _ _ _ _ _ HrowT) as HfitTy.
  apply insert_row_ok in HrowT as [(_ & [=] & _)|[-> _]].
  subst f. exists c, fid, tid, ck. split; [done|].
  split; [intros cp Hcp; by eapply new_id_fresh|]. cbn zeta.
  rewrite set_table_same, !(set_table_other _ t) by done.
  rewrite set_table_same, !(set_table_other _ Target) by done.
  rewrite HsF, HsT, Hst, H1F, H1T, H1t.
  split; [apply elem_of_app; right; by apply list_elem_of_singleton|].
  split; [apply elem_of_app; right; by apply list_elem_of_singleton|].
  split; [apply elem_of_app; right; by apply list_elem_of_singleton|].
  do 7 (split; [done|]).
  split; [|done]. intros Hemp. by rewrite (HsS0 Hemp).
Qed.


Lemma nonempty_elem A r : r ∈ rel_rows A → nonempty A = true.
Proof. unfold nonempty. destruct (rel_rows A); [by intros ?%elem_of_nil|done]. Qed.

Lemma row_lacks (row : gmap string val) (h : list string) k :
  (∀ k, is_Some (row !! k) → k ∈ h) → k ∉ h → row !! k = None.
Proof. intros Hfit Hk. apply eq_None_not_Some. intros H. by apply Hk, Hfit. Qed.

Lemma cond_key_lookup (c : val) (m : gmap string val) :
  ({[ "condition_id" := c ]} ∪ m) !! "condition_id" = Some c.
Proof. apply lookup_union_Some_l, lookup_singleton_eq. Qed.

Lemma cond_key_other (c : val) (m : gmap string val) k :
  k ≠ "condition_id" → ({[ "condition_id" := c ]} ∪ m) !! k = m !! k.
Proof. intros. apply lookup_union_r. by apply lookup_singleton_ne. Qed.

Ltac heading_list H :=
  unfold heading in H; cbn [schema_of primary secondary nullable app] in H.

Ltac elem_absurd H :=
  lazymatch type of H with
  | ?x ∈ ?l =>
      let Hn := fresh in
      exfalso; assert (x ∉ l) as Hn by compute_done; exact (Hn H)
  end.

Ltac elem_cases H :=
  repeat (apply elem_of_cons in H as [->|H]); [..|by apply elem_of_nil in H].

(** The rows the insertion has written join to a row of the condition
    query that has the attributes of the record. *)
Lemma inserted_rows_match rpk s1 (on : bool) t a (c : Z) fid sid tid :
  let ck : gmap string val := {[ "condition_id" := VNum c ]} in
  let f := ck ∪ <["force_id" := fid]> (force_attr a) in
  let st := ck ∪ <["stim_id" := sid]> (stim_attr a) in
  let tg := ck ∪ <["target_id" := tid]> (targ_attr a) in
  let ty := ck ∪ targ_type_attr a ∪ {[ "target_id" := tid ]} in
  t = Static ∨ t = Ramp ∨ t = Sine ∨ t = Chirp →
  force_attr a !! "force_id" = None →
  targ_attr a !! "target_id" = None →
  (∀ k, is_Some (force_attr a !! k) → k ∈ ["force_max"; "force_offset"; "force_inverted"]) →
  (∀ k, is_Some (targ_attr a !! k) → k ∈ ["target_duration"; "target_offset"; "target_pad"]) →
  f ∈ s1 Force → tg ∈ s1 Target → ty ∈ s1 t →
  (∀ k, is_Some (ty !! k) → k ∈ heading (schema_of rpk t)) →
  ck ##ₘ targ_type_attr a →
  (ck ∪ targ_type_attr a) ##ₘ {[ "target_id" := tid ]} →
  (if on
   then st ∈ s1 Stim ∧ ck ##ₘ <["stim_id" := sid]> (stim_attr a) ∧
        stim_attr a !! "stim_id" = None ∧
        (∀ k, is_Some (st !! k) → k ∈ heading (schema_of rpk Stim))
   else stim_attr a = ∅ ∧
        ∀ st', st' ∈ s1 Stim → st' !! "condition_id" ≠ Some (VNum c)) →
  ∃ r, r ∈ rel_rows (eval rpk s1
         (QRestrict
            (QJoin (QJoin (if on then QJoin (QTable Force) (QTable Stim)
                           else QMinus (QTable Force) (QTable Stim))
                          (QTable Target)) (QTable t))
            (all_cond_attr a))).
Proof.
  intros ck f st tg ty Ht HFid HTid HFk HTk Hf Htg Hty HfitTy Hd1 Hd2 Hstim.
  assert (∀ m : gmap string val, (ck ∪ m) !! "condition_id" = Some (VNum c)) as Hck1
    by (intros; apply cond_key_lookup).
  assert (∀ (m : gmap string val) k, k ≠ "condition_id" → (ck ∪ m) !! k = m !! k) as Hck
    by (intros; by apply cond_key_other).
  assert (f !! "condition_id" = Some (VNum c)) as Hfc by apply Hck1.
  assert (tg !! "condition_id" = Some (VNum c)) as Htgc by apply Hck1.
  assert (ty !! "condition_id" = Some (VNum c)) as Htyc.
  { apply lookup_union_Some_l, Hck1. }
  assert (targ_type_attr a !! "condition_id" = None) as HTyc.
  { apply (map_disjoint_Some_l _ _ _ (VNum c) Hd1), lookup_singleton_eq. }
  assert (targ_type_attr a !! "target_id" = None) as HTyt.
  { pose proof (map_disjoint_Some_r _ _ "target_id" tid Hd2 (lookup_singleton_eq _ _)) as H.
    apply lookup_union_None in H. tauto. }
  assert (tg !! "target_id" = Some tid) as Htgt.
  { unfold tg. rewrite Hck by done. apply lookup_insert_eq. }
  assert (ty !! "target_id" = Some tid) as Htyt.
  { unfold ty. rewrite lookup_union_r; [apply lookup_singleton_eq|].
    by rewrite Hck. }
  assert (∀ k, k ≠ "condition_id" → k ≠ "force_id" → f !! k = force_attr a !! k) as Hfk.
  { intros k ??. unfold f. rewrite Hck by done. by apply lookup_insert_ne. }
  assert (∀ k, k ≠ "condition_id" → k ≠ "target_id" → tg !! k = targ_attr a !! k) as Htgk.
  { intros k ??. unfold tg. rewrite Hck by done. by apply lookup_insert_ne. }
  assert (∀ k, k ≠ "condition_id" → k ≠ "target_id" → ty !! k = targ_type_attr a !! k) as Htyk.
  { intros k ??. unfold ty. rewrite lookup_union_l by by apply lookup_singleton_ne.
    by apply Hck. }
  assert (∀ k, is_Some (f !! k) → k ∈ ["condition_id"; "force_id"; "force_max"; "force_offset"; "force_inverted"]) as Hfdom.
  { intros k Hk. destruct (decide (k = "condition_id")) as [->|?]; [by left|].
    destruct (decide (k = "force_id")) as [->|?]; [by right; left|].
    rewrite Hfk in Hk by done. apply HFk in Hk. by do 2 right. }
  assert (∀ k, is_Some (tg !! k) → k ∈ ["condition_id"; "target_id"; "target_duration"; "target_offset"; "target_pad"]) as Htgdom.
  { intros k Hk. destruct (decide (k = "condition_id")) as [->|?]; [by left|].
    destruct (decide (k = "target_id")) as [->|?]; [by right; left|].
    rewrite Htgk in Hk by done. apply HTk in Hk. by do 2 right. }
  clearbody f tg ty.
  assert (∃ x,
    x ∈ rel_rows (eval rpk s1 (if on then QJoin (QTable Force) (QTable Stim)
                               else QMinus (QTable Force) (QTable Stim))) ∧
    x !! "condition_id" = Some (VNum c) ∧
    (∀ k, is_Some (x !! k) →
          k ∈ ["condition_id"; "force_id"; "force_max"; "force_offset";
               "force_inverted"; "stim_id"; "stim_current"; "stim_electrode";
               "stim_polarity"; "stim_pulses"; "stim_width1"; "stim_width2";
               "stim_interphase"; "stim_frequency"]) ∧
    (∀ k v, force_attr a !! k = Some v → x !! k = Some v) ∧
    (∀ k v, stim_attr a !! k = Some v → x !! k = Some v))
    as (x & Hx & Hxc & Hxdom & HxF & HxS).
  { assert (∀ k v, force_attr a !! k = Some v → f !! k = Some v) as HfF.
    { intros k v Hkv. assert (is_Some (force_attr a !! k)) as Hk by by eexists.
      apply HFk in Hk. elem_cases Hk; by rewrite Hfk. }
    destruct on.
    - destruct Hstim as (Hst & HdS & HSid & HfitS).
      assert (st !! "condition_id" = Some (VNum c)) as Hstc by apply Hck1.
      exists (f ∪ st). split; [|split; [|split; [|split]]].
      + cbn [eval]. apply join_rows. exists f, st. do 2 (split; [done|]).
        split; [|done]. cbn [eval rel_heading]. apply Forall_forall.
        intros k Hk. vm_compute in Hk. elem_cases Hk. congruence.
      + by apply lookup_union_Some_l.
      + intros k [v [Hk|[_ Hk]]%lookup_union_Some_raw].
        * assert (is_Some (f !! k)) as Hk' by by eexists.
          apply Hfdom in Hk'. elem_cases Hk'; compute_done.
        * assert (is_Some (st !! k)) as Hk' by by eexists.
          apply HfitS in Hk'. heading_list Hk'. elem_cases Hk'; compute_done.
      + intros k v Hkv. by apply lookup_union_Some_l, HfF.
      + intros k v Hkv.
        assert (k ≠ "condition_id").
        { intros ->. pose proof (map_disjoint_Some_l _ _ _ (VNum c) HdS
                                   (lookup_singleton_eq _ _)) as Hn.
          rewrite lookup_insert_ne in Hn by done. congruence. }
        assert (k ≠ "stim_id") by (intros ->; congruence).
        assert (st !! k = Some v) as Hstk.
        { unfold st. rewrite Hck by done. by rewrite lookup_insert_ne. }
        rewrite lookup_union_r; [done|].
        apply eq_None_not_Some. intros Hfk'. apply Hfdom in Hfk'.
        assert (is_Some (st !! k)) as Hk' by by eexists.
        apply HfitS in Hk'. heading_list Hk'.
        elem_cases Hfk'; try done; elem_absurd Hk'.
    - destruct Hstim as (HS & Hno). exists f. split; [|split; [|split; [|split]]].
      + cbn [eval]. apply minus_rows. split; [done|]. cbn [eval rel_rows rel_heading].
        intros st' Hst' Hagree. apply (Hno st' Hst').
        rewrite <- Hfc. symmetry. apply (agree_lookup _ _ _ _ Hagree). compute_done.
      + done.
      + intros k Hk. apply Hfdom in Hk. elem_cases Hk; compute_done.
      + done.
      + intros k v. by rewrite HS. }
  assert (∀ k, is_Some (targ_attr a !! k) → x !! k = None) as HxT.
  { intros k Hk. apply HTk in Hk. apply eq_None_not_Some. intros Hk'.
    apply Hxdom in Hk'. elem_cases Hk; elem_absurd Hk'. }
  assert (x !! "target_id" = None) as Hxt.
  { apply eq_None_not_Some. intros Hk'. apply Hxdom in Hk'. elem_absurd Hk'. }
  exists (x ∪ tg ∪ ty). cbn [eval]. apply restrict_rows. split.
  - apply join_rows. exists (x ∪ tg), ty. split; [|split; [done|split; [|done]]].
    + apply join_rows. exists x, tg. do 2 (split; [done|]). split; [|done].
      apply Forall_forall. intros k Hk.
      assert (k = "condition_id") as ->; [|congruence].
      destruct on; vm_compute in Hk; by elem_cases Hk.
    + apply Forall_forall. intros k Hk.
      assert (k = "condition_id" ∨ k = "target_id") as [->| ->].
      { destruct on, Ht as [-> | [-> | [-> | ->]]]; vm_compute in Hk;
          elem_cases Hk; tauto. }
      * rewrite Htyc. by apply lookup_union_Some_l.
      * rewrite Htyt. by rewrite lookup_union_r.
  - intros k v Hkv _. unfold all_cond_attr, dict_update in Hkv. cbn [foldl] in Hkv.
    apply lookup_union_Some_raw in Hkv as [Hkv|[HTy Hkv]].
    { (* a target type attribute *)
      assert (k ≠ "condition_id") by (intros ->; congruence).
      assert (k ≠ "target_id") by (intros ->; congruence).
      assert (is_Some (ty !! k)) as Hk by (rewrite Htyk by done; by eexists).
      apply HfitTy in Hk.
      assert (x !! k = None ∧ tg !! k = None) as [Hxk Htgk'].
      { split; apply eq_None_not_Some; intros Hk'.
        - apply Hxdom in Hk'.
          destruct Ht as [-> | [-> | [-> | ->]]]; heading_list Hk;
            elem_cases Hk; try done; elem_absurd Hk'.
        - apply Htgdom in Hk'.
          destruct Ht as [-> | [-> | [-> | ->]]]; heading_list Hk;
            elem_cases Hk; try done; elem_absurd Hk'. }
      rewrite lookup_union_r; [by rewrite Htyk|].
      by apply lookup_union_None. }
    apply lookup_union_Some_raw in Hkv as [Hkv|[HT Hkv]].
    { (* a target attribute *)
      assert (is_Some (targ_attr a !! k)) as Hk by by eexists.
      apply lookup_union_Some_l. rewrite lookup_union_r by by apply HxT.
      apply HTk in Hk. elem_cases Hk; by rewrite Htgk. }
    apply lookup_union_Some_raw in Hkv as [Hkv|[HS Hkv]].
    { (* a stimulation attribute *)
      by apply lookup_union_Some_l, lookup_union_Some_l, HxS. }
    rewrite (right_id_L ∅ (∪)) in Hkv.
    by apply lookup_union_Some_l, lookup_union_Some_l, HxF.
Qed.

(** After a condition has been inserted for a record, the condition query
    of the record finds a row.  The record is regular: with the
    stimulation flag it has stimulation fields, none of them [stim_id];
    without the flag the registry has no Stim row of a condition that is
    not in ConditionParams (the foreign key of the part table). *)
Lemma insert_condition_resolvable (E : env) params a q t s s1 o :
  parseparams params = OK (a, q, t) →
  (stim_on params = true → stim_attr a ≠ ∅ ∧ stim_attr a !! "stim_id" = None) →
  (stim_on params = false →
     ∀ st, st ∈ s Stim →
           ∃ cp, cp ∈ s ConditionParams ∧ st !! "condition_id" = cp !! "condition_id") →
  insert_condition E a q t s = (OK tt, s1, o) →
  nonempty (eval (recording_pk E) s1 (QRestrict q (all_cond_attr a))) = true.
Proof.
  intros Hparse Hon Hoff Hins.
  destruct (nonempty (eval (recording_pk E) s (QRestrict q (all_cond_attr a))))
    eqn:Hfound.
  { rewrite (insert_condition_found _ _ _ _ _ Hfound) in Hins.
    by injection Hins as <- _. }
  pose proof (parseparams_rel _ _ _ _ Hparse) as Ht.
  apply parseparams_ok in Hparse
    as (frcMax & frcOff & frcPol & duration & offset & offset0 & padDur & tattr &
        _ & _ & _ & _ & _ & _ & _ & _ & HF & HS & HT & _ & ->).
  assert (force_attr a ≠ ∅) as HFne.
  { rewrite HF. apply insert_non_empty. }
  assert (targ_attr a ≠ ∅) as HTne.
  { rewrite HT. apply insert_non_empty. }
  destruct (insert_condition_ok E a _ t s s1 o Ht HFne HTne Hfound Hins)
    as (c & fid & tid & ck & -> & Hfresh & Hf & Htg & Hty & HfitF & HfitT & HfitTy &
        Hd1 & Hd2 & HdT & HdF & Hstim0 & Hstim1).
  assert (∃ sid, if stim_on params
     then ({[ "condition_id" := VNum c ]} ∪ <["stim_id" := sid]> (stim_attr a)) ∈ s1 Stim ∧
          ({[ "condition_id" := VNum c ]} : gmap string val) ##ₘ <["stim_id" := sid]> (stim_attr a) ∧
          stim_attr a !! "stim_id" = None ∧
          (∀ k, is_Some (({[ "condition_id" := VNum c ]} ∪ <["stim_id" := sid]> (stim_attr a)) !! k) →
                k ∈ heading (schema_of (recording_pk E) Stim))
     else stim_attr a = ∅ ∧
          ∀ st', st' ∈ s1 Stim → st' !! "condition_id" ≠ Some (VNum c))
    as [sid Hstim].
  { destruct (stim_on params).
    - destruct (Hon eq_refl) as [Hne Hsid].
      destruct (Hstim1 Hne) as (sid & ? & ? & ?). by exists sid.
    - exists (VNum 0). split; [done|]. intros st' Hst' Heq.
      rewrite (Hstim0 HS) in Hst'. destruct (Hoff eq_refl st' Hst') as (cp & Hcp & Hsame).
      apply (Hfresh cp Hcp). congruence. }
  destruct (inserted_rows_match (recording_pk E) s1 (stim_on params) t a c fid sid tid)
    as [r Hr]; try done.
  - rewrite HF. by simplify_map_eq.
  - rewrite HT. by simplify_map_eq.
  - intros k [v Hk]. rewrite HF in Hk.
    repeat (apply lookup_insert_Some in Hk as [[<- _]|[_ Hk]]; [compute_done|]).
    apply lookup_singleton_Some in Hk as [<- _]. compute_done.
  - intros k [v Hk]. rewrite HT in Hk.
    repeat (apply lookup_insert_Some in Hk as [[<- _]|[_ Hk]]; [compute_done|]).
    apply lookup_singleton_Some in Hk as [<- _]. compute_done.
  - by apply (nonempty_elem _ r).
Qed.

(** A second insertion for a regular record does nothing. *)
Lemma insert_condition_idempotent (E : env) params a q t s s1 o :
  parseparams params = OK (a, q, t) →
  (stim_on params = true → stim_attr a ≠ ∅ ∧ stim_attr a !! "stim_id" = None) →
  (stim_on params = false →
     ∀ st, st ∈ s Stim →
           ∃ cp, cp ∈ s ConditionParams ∧ st !! "condition_id" = cp !! "condition_id") →
  insert_condition E a q t s = (OK tt, s1, o) →
  insert_condition E a q t s1 = (OK tt, s1, []).
Proof.
  intros. apply insert_condition_found. by eapply insert_condition_resolvable.
Qed.

(** * Further properties of the code *)

(** ** A run changes the store by insertions only *)

Lemma keeps_ret {A} I (a : A) : keeps I (ret a).
Proof. by intros s r s' o [= _ <- _]. Qed.

Lemma keeps_lift {A} I (x : res A) : keeps I (lift x).
Proof. by intros s r s' o [= _ <- _]. Qed.

Lemma keeps_print I line : keeps I (print line).
Proof. by intros s r s' o [= _ <- _]. Qed.

Lemma keeps_query I rpk q : keeps I (query_now rpk q).
Proof. by intros s r s' o [= _ <- _]. Qed.

Lemma keeps_bind {A B} I (m : M A) (k : A → M B) :
  keeps I m → (∀ a, keeps I (k a)) → keeps I (bind m k).
Proof.
  intros Hm Hk s r s' o H HI.
  apply bind_run in H as [(a & s1 & o1 & o2 & H1 & H2 & _)|(e & H1 & _)].
  - eapply Hk; [done|]. by eapply Hm.
  - by eapply Hm.
Qed.

Lemma keeps_for_each {A} I (l : list A) (body : A → M unit) :
  (∀ x, x ∈ l → keeps I (body x)) → keeps I (for_each l body).
Proof.
  induction l as [|x l IH]; intros Hbody; simpl; [apply keeps_ret|].
  apply keeps_bind; [apply Hbody; by left|].
  intros _. apply IH. intros y Hy. apply Hbody. by right.
Qed.

Lemma keeps_for_fold {A S} I (l : list A) (acc : S) (body : S → A → M S) :
  (∀ acc x, x ∈ l → keeps I (body acc x)) → keeps I (for_fold l acc body).
Proof.
  revert acc. induction l as [|x l IH]; intros acc Hbody; simpl;
    [apply keeps_ret|].
  apply keeps_bind; [apply Hbody; by left|].
  intros acc'. apply IH. intros acc'' y Hy. apply Hbody. by right.
Qed.

Lemma keeps_insert1 rpk I t row skip :
  insert_stable rpk I → keeps I (insert1 rpk t row skip).
Proof.
  intros HI s r s' o H Hs. apply insert1_run in H as [_ H].
  destruct (insert_row _ _ _ _ _) as [rows|e] eqn:Hrow; destruct H as [_ ->];
    [by eapply HI|done].
Qed.

Lemma keeps_insert rpk I t rows skip :
  insert_stable rpk I → keeps I (insert rpk t rows skip).
Proof. intros HI. apply keeps_for_each. intros. by apply keeps_insert1. Qed.

Ltac keeps_step :=
  lazymatch goal with
  | |- keeps _ (ret _) => apply keeps_ret
  | |- keeps _ (lift _) => apply keeps_lift
  | |- keeps _ (print _) => apply keeps_print
  | |- keeps _ (query_now _ _) => apply keeps_query
  | |- keeps _ (insert1 _ _ _ _) => by apply keeps_insert1
  | |- keeps _ (insert _ _ _ _) => by apply keeps_insert
  | |- keeps _ (bind _ _) => apply keeps_bind; [|intros ?]
  | |- keeps _ (for_each _ _) => apply keeps_for_each; intros ? _
  | |- keeps _ (for_fold _ _ _) => apply keeps_for_fold; intros ? ? _
  | |- keeps _ (if ?b then _ else _) => destruct b
  | |- keeps _ (match ?x with _ => _ end) => destruct x
  end.

Lemma keeps_insert_part E I ck a p :
  insert_stable (recording_pk E) I → keeps I (insert_part E ck a p).
Proof. intros HI. unfold insert_part. repeat keeps_step. Qed.

Lemma keeps_insert_condition E I a q t :
  insert_stable (recording_pk E) I → keeps I (insert_condition E a q t).
Proof.
  intros HI. unfold insert_condition. repeat keeps_step.
  by apply keeps_insert_part.
Qed.

Lemma keeps_populate_condition E I bp data_files f :
  insert_stable (recording_pk E) I →
  keeps I (populate_condition E bp data_files f).
Proof.
  intros HI. unfold populate_condition. repeat keeps_step.
  by apply keeps_insert_condition.
Qed.

Lemma keeps_populate_trial E I key bp fs ss pfs f :
  insert_stable (recording_pk E) I →
  keeps I (populate_trial E key bp fs ss pfs f).
Proof.
  intros HI. unfold populate_trial, insert_condition_data, fetch_condition_id,
    insert_trial_data.
  repeat keeps_step.
Qed.

(** Whatever no accepted insertion breaks holds after [make], whether it
    returns or raises: [make] writes by insertions only. *)
Lemma keeps_make E I key :
  insert_stable (recording_pk E) I → keeps I (make E key).
Proof.
  intros HI. unfold make. repeat keeps_step.
  - by apply keeps_populate_condition.
  - by apply keeps_populate_trial.
Qed.

Lemma insert_stable_grows rpk s0 :
  insert_stable rpk (λ s, ∀ t, s0 t `prefix_of` s t).
Proof.
  intros s t skip row rows Hs Hrow t'. unfold set_table. case_decide as Ht; [|done].
  subst t'. apply insert_row_ok in Hrow as [(-> & _)|[-> _]]; [done|].
  etrans; [apply Hs|]. by apply prefix_app_r.
Qed.

(** X1. [make] only appends: whether it returns or raises, every table
    begins with the rows it had, in their order; no row is deleted,
    changed or moved. *)
Theorem make_appends_only (E : env) (key : gmap string val) s r s' o :
  make E key s = (r, s', o) → ∀ t, ∃ new, s' t = s t ++ new.
Proof.
  intros H t.
  by apply (keeps_make E _ key (insert_stable_grows _ s) _ _ _ _ H).
Qed.

(** ** [make] keeps the references *)

Lemma refers_mono rows rows' ks r :
  (∀ x, x ∈ rows → x ∈ rows') → refers rows ks r → refers rows' ks r.
Proof. intros Hsub (r' & Hr' & H). exists r'. auto. Qed.

Lemma refers_union_l rows ks (r x : gmap string val) :
  refers rows ks r → refers rows ks (r ∪ x).
Proof.
  intros (r' & Hr' & H). exists r'. split; [done|]. intros k Hk.
  destruct (H k Hk) as [[v Hv] Heq].
  rewrite (lookup_union_Some_l _ _ _ _ Hv). split; [done|]. congruence.
Qed.

Lemma refers_weaken rows ks ks' r :
  (∀ k, k ∈ ks' → k ∈ ks) → refers rows ks r → refers rows ks' r.
Proof. intros Hsub (r' & Hr' & H). exists r'. auto. Qed.

Lemma insert_row_required sc t skip rows row rows' :
  insert_row sc t skip rows row = OK rows' →
  ∀ k, k ∈ primary sc ++ secondary sc → is_Some (row !! k).
Proof.
  unfold insert_row. destruct (filter _ (map_to_list row).*1); [|done].
  destruct (filter _ (primary sc ++ secondary sc)) as [|k0 l] eqn:Hf; [|done].
  intros _ k Hk. apply not_eq_None_Some. intros Hnone.
  assert (k ∈ filter (λ k, row !! k = None) (primary sc ++ secondary sc)) as Hin
    by by apply list_elem_of_filter.
  rewrite Hf in Hin. by apply elem_of_nil in Hin.
Qed.

Lemma pk_of_lookup sc (r1 r2 : gmap string val) k :
  pk_of sc r1 = pk_of sc r2 → k ∈ primary sc → r1 !! k = r2 !! k.
Proof.
  unfold pk_of. intros Heq Hk. apply list_elem_of_lookup in Hk as [i Hi].
  apply (f_equal (λ l, l !! i)) in Heq. rewrite !list_lookup_fmap, Hi in Heq.
  by injection Heq.
Qed.

(** After an accepted insertion the table has a row with the primary key
    of the row given. *)
Lemma insert_row_refers sc t skip rows row rows' :
  insert_row sc t skip rows row = OK rows' → refers rows' (primary sc) row.
Proof.
  intros Hrow. pose proof (insert_row_required _ _ _ _ _ _ Hrow) as Hreq.
  apply insert_row_ok in Hrow as [(-> & _ & Hex)|[-> _]].
  - apply Exists_exists in Hex as (r' & Hr' & Hpk). exists r'. split; [done|].
    intros k Hk. split; [apply Hreq, elem_of_app; by left|].
    by apply (pk_of_lookup sc).
  - exists row. split; [apply elem_of_app; right; by apply list_elem_of_singleton|].
    intros k Hk. split; [apply Hreq, elem_of_app; by left|done].
Qed.

Lemma insert_row_grows sc t skip rows row rows' x :
  insert_row sc t skip rows row = OK rows' → x ∈ rows → x ∈ rows'.
Proof.
  intros Hrow Hx. apply insert_row_ok in Hrow as [(-> & _)|[-> _]]; [done|].
  apply elem_of_app. by left.
Qed.

Lemma insert_row_new sc t skip rows row rows' x :
  insert_row sc t skip rows row = OK rows' → x ∈ rows' → x ∈ rows ∨ x = row.
Proof.
  intros Hrow Hx. apply insert_row_ok in Hrow as [(-> & _)|[-> _]]; [by left|].
  apply elem_of_app in Hx as [Hx|Hx]; [by left|].
  right. by apply list_elem_of_singleton in Hx.
Qed.

Lemma set_table_grows rpk s t skip row rows t' x :
  insert_row (schema_of rpk t) t skip (s t) row = OK rows →
  x ∈ s t' → x ∈ set_table s t rows t'.
Proof.
  intros Hrow Hx. unfold set_table. case_decide as Ht; [|done]. subst t'.
  by eapply insert_row_grows.
Qed.

(** An accepted insertion of a row whose references are there keeps the
    references. *)
Lemma references_insert rpk s t skip row rows :
  references rpk s →
  insert_row (schema_of rpk t) t skip (s t) row = OK rows →
  (∀ t' ks, (t, t', ks) ∈ foreign_keys rpk → refers (s t') ks row) →
  references rpk (set_table s t rows).
Proof.
  intros HI Hrow Hfk t1 t2 ks Hin r Hr.
  apply (refers_mono (s t2)); [intros x; by eapply set_table_grows|].
  unfold set_table in Hr. case_decide as Ht.
  - subst t1. apply (insert_row_new _ _ _ _ _ _ _ Hrow) in Hr as [Hr| ->].
    + by apply (HI t t2).
    + by apply Hfk.
  - by apply (HI t1 t2).
Qed.

(** A fact of the form [refers] stays true when the store grows. *)
Lemma insert_stable_refers rpk t ks x :
  insert_stable rpk (λ s, refers (s t) ks x).
Proof.
  intros s t0 skip row rows Hs Hrow.
  apply (refers_mono (s t)); [intros y; by eapply set_table_grows|done].
Qed.

Ltac fk_cases H :=
  unfold foreign_keys in H;
  repeat (apply elem_of_cons in H as [H|H];
          [first [discriminate H | injection H; intros; subst]|]);
  try (apply elem_of_nil in H; contradiction).

Lemma insert_part_run E ck a p s r s' o :
  insert_part E ck a p s = (r, s', o) →
  match r with
  | OK a' =>
      (get_part a p = ∅ ∧ a' = a ∧ s' = s) ∨
      (∃ id rows,
         a' = set_part a p (<[part_id p := id]> (get_part a p)) ∧
         ck ##ₘ <[part_id p := id]> (get_part a p) ∧
         insert_row (schema_of (recording_pk E) (part_rel p)) (part_rel p) false
           (s (part_rel p)) (ck ∪ <[part_id p := id]> (get_part a p)) = OK rows ∧
         s' = set_table s (part_rel p) rows ∧
         let found := eval (recording_pk E) s
                        (QRestrict (QTable (part_rel p)) (get_part a p)) in
         if nonempty found then fetch_first found (part_id p) = OK id
         else ∃ n, new_id (s (part_rel p)) (part_id p) = OK n ∧ id = VNum n)
  | Err _ => s' = s
  end.
Proof.
  unfold insert_part. case_decide as Hempty.
  { intros [= <- <- _]. by left. }
  rewrite bind_query. intros H.
  apply bind_run in H as [(id & s1 & o1 & o2 & Hid & H & _)|(e & Hid & ->)].
  2:{ destruct (nonempty _); [by injection Hid|].
      rewrite bind_query in Hid.
      apply bind_run in Hid as [(n & s2 & ? & ? & Hn & Hret & _)|(e' & Hn & _)].
      - by injection Hret.
      - by injection Hn. }
  assert (s1 = s ∧
          let found := eval (recording_pk E) s
                         (QRestrict (QTable (part_rel p)) (get_part a p)) in
          if nonempty found then fetch_first found (part_id p) = OK id
          else ∃ n, new_id (s (part_rel p)) (part_id p) = OK n ∧ id = VNum n)
    as [-> Hhow].
  { cbn zeta. destruct (nonempty _); [injection Hid as Hf <- _; split; [done|exact Hf]|].
    rewrite bind_query in Hid. cbn [eval rel_rows] in Hid.
    apply bind_run in Hid as [(n & s2 & ? & ? & Hn & Hret & _)|(e & _ & [=])].
    injection Hret as <- <- _. injection Hn as Hn <- _.
    split; [done|]. by exists n. }
  unfold kw_merge in H. case_decide as Hdisj.
  2:{ rewrite (bind_lift_err _ _ TypeError) in H by done. by injection H as <- <- _. }
  rewrite (bind_lift_ok _ _ (ck ∪ <[part_id p := id]> (get_part a p))) in H by done.
  apply bind_run in H as [([] & s2 & o3 & o4 & Hins & H & _)|(e & Hins & ->)].
  - injection H as <- <- _. right. exists id.
    apply insert1_run in Hins as [_ Hins].
    destruct (insert_row _ _ _ _ _) as [rows|e] eqn:Hrow; destruct Hins as [[=] ->].
    by exists rows.
  - apply insert1_run in Hins as [_ Hins].
    destruct (insert_row _ _ _ _ _) as [rows|e'] eqn:Hrow; by destruct Hins as [[=] ->].
Qed.

Lemma part_fk rpk p t' ks :
  (part_rel p, t', ks) ∈ foreign_keys rpk → t' = ConditionParams ∧ ks = ["condition_id"].
Proof. intros H. destruct p; fk_cases H; done. Qed.

(** The loop over the parts keeps the references when the condition of the
    part rows is in ConditionParams. *)
Lemma insert_part_references E ck a p s r s' o :
  references (recording_pk E) s →
  refers (s ConditionParams) ["condition_id"] ck →
  insert_part E ck a p s = (r, s', o) →
  references (recording_pk E) s' ∧
  refers (s' ConditionParams) ["condition_id"] ck ∧
  (∀ t x, x ∈ s t → x ∈ s' t).
Proof.
  intros HI Hck H. apply insert_part_run in H.
  destruct r as [a'|e]; [|by subst s'].
  destruct H as [(_ & _ & ->)|(id & rows & _ & _ & Hrow & -> & _)]; [done|].
  split; [|split].
  - apply (references_insert _ _ _ _ _ _ HI Hrow). intros t' ks Hfk.
    apply part_fk in Hfk as [-> ->]. by apply refers_union_l.
  - by apply (insert_stable_refers (recording_pk E) ConditionParams _ _ s _ _ _ _ Hck Hrow).
  - intros t x. by eapply set_table_grows.
Qed.

Lemma part_id_target : part_id PTarget = "target_id".
Proof. reflexivity. Qed.

(** The three passes of the loop over the parts. *)
Lemma insert_parts_references E ck a s r s' o :
  references (recording_pk E) s →
  refers (s ConditionParams) ["condition_id"] ck →
  for_fold [PForce; PStim; PTarget] a (insert_part E ck) s = (r, s', o) →
  references (recording_pk E) s' ∧
  match r with
  | OK a' =>
      ∀ tid, targ_attr a' !! "target_id" = Some tid →
        ∃ tg, tg ∈ s' Target ∧ tg !! "condition_id" = ck !! "condition_id" ∧
              tg !! "target_id" = Some tid
  | Err _ => True
  end.
Proof.
  intros HI Hck. cbn [for_fold]. intros H.
  apply bind_run in H as [(a1 & s1 & ? & ? & H1 & H & _)|(e & H1 & ->)].
  2:{ by destruct (insert_part_references _ _ _ _ _ _ _ _ HI Hck H1) as (? & _). }
  destruct (insert_part_references _ _ _ _ _ _ _ _ HI Hck H1) as (HI1 & Hck1 & _).
  apply bind_run in H as [(a2 & s2 & ? & ? & H2 & H & _)|(e & H2 & ->)].
  2:{ by destruct (insert_part_references _ _ _ _ _ _ _ _ HI1 Hck1 H2) as (? & _). }
  destruct (insert_part_references _ _ _ _ _ _ _ _ HI1 Hck1 H2) as (HI2 & Hck2 & _).
  apply bind_run in H as [(a3 & s3 & ? & ? & H3 & H & _)|(e & H3 & ->)].
  2:{ by destruct (insert_part_references _ _ _ _ _ _ _ _ HI2 Hck2 H3) as (? & _). }
  destruct (insert_part_references _ _ _ _ _ _ _ _ HI2 Hck2 H3) as (HI3 & Hck3 & _).
  injection H as <- <- _. split; [done|]. intros tid Htid.
  apply insert_part_run in H3.
  destruct H3 as [(Hempty & -> & ->)|(id & rows & -> & Hdisj & Hrow & -> & _)].
  { cbn [get_part] in Hempty. rewrite Hempty in Htid. by rewrite lookup_empty in Htid. }
  cbn [set_part targ_attr get_part] in Htid. rewrite part_id_target in Htid.
  rewrite lookup_insert_eq in Htid. injection Htid as ->.
  cbn [part_rel get_part] in *. rewrite part_id_target in *.
  exists (ck ∪ <["target_id" := tid]> (targ_attr a2)). split; [|split].
  - rewrite set_table_same.
    apply insert_row_ok in Hrow as [(_ & [=] & _)|[-> _]].
    apply elem_of_app. right. by apply list_elem_of_singleton.
  - destruct Hck as (cp & _ & Hcp). destruct (Hcp "condition_id") as [[v Hv] _]; [by left|].
    rewrite Hv. by apply lookup_union_Some_l.
  - rewrite lookup_union_r; [by rewrite lookup_insert_eq|].
    apply (map_disjoint_Some_r _ _ _ tid Hdisj). by rewrite lookup_insert_eq.
Qed.

Lemma insert_stable_grown rpk (s0 : store) :
  insert_stable rpk (λ s, ∀ t x, x ∈ s0 t → x ∈ s t).
Proof.
  intros s t skip row rows Hs Hrow t' x Hx. eapply set_table_grows; [done|]. auto.
Qed.

(** The insertion of a condition keeps the references. *)
Lemma insert_condition_references E a q t s r s' o :
  t = Static ∨ t = Ramp ∨ t = Sine ∨ t = Chirp →
  references (recording_pk E) s →
  insert_condition E a q t s = (r, s', o) →
  references (recording_pk E) s'.
Proof.
  intros Ht HI. unfold insert_condition. rewrite bind_query.
  destruct (nonempty _); [by intros [= _ <- _]|]. rewrite bind_query.
  cbn [eval rel_rows]. intros H.
  apply bind_run in H as [(n & s0 & ? & ? & Hn & H & _)|(e & Hn & ->)];
    [|by injection Hn as _ <- _].
  injection Hn as _ <- _.
  apply bind_run in H as [([] & s1 & ? & ? & Hins & H & _)|(e & Hins & ->)].
  2:{ apply insert1_run in Hins as [_ Hins].
      destruct (insert_row _ _ _ _ _); by destruct Hins as [[=] ->]. }
  apply insert1_run in Hins as [_ Hins].
  destruct (insert_row _ _ _ _ _) as [rows|e] eqn:Hrow; destruct Hins as [[=] ->].
  assert (references (recording_pk E) (set_table s ConditionParams rows)) as HI1.
  { apply (references_insert _ _ _ _ _ _ HI Hrow). intros t' ks Hfk. fk_cases Hfk. }
  assert (refers (set_table s ConditionParams rows ConditionParams) ["condition_id"]
            {[ "condition_id" := VNum n ]}) as Hck.
  { rewrite set_table_same. by apply insert_row_refers in Hrow. }
  apply bind_run in H as [(a3 & s3 & ? & ? & Hparts & H & _)|(e & Hparts & ->)].
  2:{ by destruct (insert_parts_references _ _ _ _ _ _ _ HI1 Hck Hparts). }
  destruct (insert_parts_references _ _ _ _ _ _ _ HI1 Hck Hparts) as [HI3 Htg].
  apply bind_run in H as [(tid & s4 & ? & ? & Htid & H & _)|(e & Htid & ->)];
    [|by injection Htid as _ <- _].
  injection Htid as Htid <- _. unfold dict_getitem in Htid.
  destruct (targ_attr a3 !! "target_id") as [tid'|] eqn:Hlook; [|done].
  injection Htid as ->.
  apply bind_run in H as [(row0 & s4 & ? & ? & H0 & H & _)|(e & H0 & ->)];
    [|by injection H0 as _ <- _].
  injection H0 as H0 <- _. unfold kw_merge in H0. case_decide as Hd1; [|done].
  injection H0 as <-.
  apply bind_run in H as [(row & s4 & ? & ? & H0 & H & _)|(e & H0 & ->)];
    [|by injection H0 as _ <- _].
  injection H0 as H0 <- _. unfold kw_merge in H0. case_decide as Hd2; [|done].
  injection H0 as <-.
  apply insert1_run in H as [_ H].
  destruct (insert_row _ t _ _ _) as [rows'|e] eqn:Hrow'; destruct H as [_ ->];
    [|done].
  apply (references_insert _ _ _ _ _ _ HI3 Hrow'). intros t' ks Hfk.
  destruct (Htg tid eq_refl) as (tg & Htgin & Htgc & Htgt).
  rewrite lookup_singleton_eq in Htgc.
  assert (t' = Target ∧ ks = ["condition_id"; "target_id"]) as [-> ->].
  { clear -Ht Hfk. destruct Ht as [-> | [-> | [-> | ->]]]; fk_cases Hfk;
      split; reflexivity. }
  exists tg. split; [done|]. intros k Hk.
  assert (({[ "condition_id" := VNum n ]} ∪ targ_type_attr a3
           ∪ {[ "target_id" := tid ]} : gmap string val) !! "condition_id"
          = Some (VNum n)) as Hrc.
  { apply lookup_union_Some_l, lookup_union_Some_l, lookup_singleton_eq. }
  assert (({[ "condition_id" := VNum n ]} ∪ targ_type_attr a3
           ∪ {[ "target_id" := tid ]} : gmap string val) !! "target_id"
          = Some tid) as Hrt.
  { rewrite lookup_union_r; [apply lookup_singleton_eq|].
    apply (map_disjoint_Some_r _ _ _ tid Hd2), lookup_singleton_eq. }
  apply elem_of_cons in Hk as [->|Hk]; [rewrite Hrc; split; [done|done]|].
  apply list_elem_of_singleton in Hk as ->. rewrite Hrt. by split.
Qed.

Lemma populate_condition_references E bp data_files f s r s' o :
  references (recording_pk E) s →
  populate_condition E bp data_files f s = (r, s', o) →
  references (recording_pk E) s'.
Proof.
  intros HI. unfold populate_condition. intros H.
  apply bind_run in H as [(trial & s0 & ? & ? & H0 & H & _)|(e & H0 & ->)];
    [|by injection H0 as _ <- _].
  injection H0 as _ <- _.
  case_bool_decide as Hmiss; [by injection H as _ <- _|].
  apply bind_run in H as [(params & s0 & ? & ? & H0 & H & _)|(e & H0 & ->)];
    [|by injection H0 as _ <- _].
  injection H0 as _ <- _.
  destruct (parseparams params) as [[[a q] t]|e] eqn:Hparse.
  - rewrite (bind_lift_ok _ _ (a, q, t)) in H by done.
    apply parseparams_rel in Hparse.
    by apply (insert_condition_references _ _ _ _ _ _ _ _ Hparse HI H).
  - rewrite (bind_lift_err _ _ e) in H by done. by injection H as _ <- _.
Qed.

(** Line 358-360: the condition row of the recording refers to the
    recording and to a condition that is registered. *)
Lemma insert_condition_data_references E key params a q t s r s' o :
  parseparams params = OK (a, q, t) →
  references (recording_pk E) s →
  refers (s Behavior) (recording_pk E) key →
  insert_condition_data E key a q s = (r, s', o) →
  references (recording_pk E) s' ∧
  match r with
  | OK ck => refers (s' Behavior_Condition) (recording_pk E ++ ["condition_id"]) ck ∧
             refers (s' Behavior) (recording_pk E) ck
  | Err _ => True
  end.
Proof.
  intros Hparse HI Hkey. unfold insert_condition_data. intros H.
  apply bind_run in H as [(c & s0 & ? & ? & Hc & H & _)|(e & Hc & ->)].
  2:{ by apply fetch_condition_id_run in Hc as (-> & _ & _). }
  apply fetch_condition_id_run in Hc as (-> & _ & Hc). symmetry in Hc.
  assert (refers (s ConditionParams) ["condition_id"] {[ "condition_id" := c ]}) as Hcp.
  { unfold fetch1 in Hc.
    destruct (rel_rows _) as [|row1 [|]] eqn:Hrows; [done| |done].
    unfold dict_getitem in Hc. destruct (row1 !! "condition_id") as [c'|] eqn:Hx; [|done].
    injection Hc as ->.
    assert (row1 ∈ rel_rows (eval (recording_pk E) s (QRestrict q (all_cond_attr a)))) as Hin
      by (rewrite Hrows; by left).
    cbn [eval] in Hin. apply restrict_rows in Hin as [Hin _].
    pose proof (parseparams_rel _ _ _ _ Hparse) as Ht.
    apply parseparams_ok in Hparse
      as (? & ? & ? & ? & ? & ? & ? & tattr & _ & _ & _ & _ & _ & _ & _ & _ & _ & _ & _ & _ & ->).
    apply (cond_rel_stim _ _ _ _ _ Ht) in Hin as [(f & Hf & Hfc) _].
    destruct (HI Force ConditionParams ["condition_id"]) with (r := f)
      as (cp & Hcp & Hagree); [by left|done|].
    exists cp. split; [done|]. intros k Hk. apply list_elem_of_singleton in Hk as ->.
    rewrite lookup_singleton_eq. split; [done|].
    destruct (Hagree "condition_id") as [_ ->]; [by left|]. congruence. }
  clear Hc Hparse.
  apply bind_run in H as [(ck & s0 & ? & ? & H0 & H & _)|(e & H0 & ->)];
    [|by injection H0 as _ <- _].
  injection H0 as H0 <- _. unfold kw_merge in H0. case_decide as Hd; [|done].
  injection H0 as <-.
  apply bind_run in H as [([] & s1 & ? & ? & Hins & H & _)|(e & Hins & ->)].
  2:{ apply insert1_run in Hins as [_ Hins].
      destruct (insert_row _ _ _ _ _); by destruct Hins as [[=] ->]. }
  injection H as <- <- _.
  apply insert1_run in Hins as [_ Hins].
  destruct (insert_row _ _ _ _ _) as [rows|e] eqn:Hrow; destruct Hins as [[=] ->].
  split; [|split].
  - apply (references_insert _ _ _ _ _ _ HI Hrow). intros t' ks Hfk.
    clear Hrow. fk_cases Hfk.
    + by apply refers_union_l.
    + destruct Hcp as (cp & Hcp & Hagree). exists cp. split; [exact Hcp|].
      intros k Hk. apply list_elem_of_singleton in Hk as ->.
      destruct (Hagree "condition_id") as [_ Heq]; [by left|].
      rewrite lookup_singleton_eq in Heq.
      assert ((key ∪ {[ "condition_id" := c ]}) !! "condition_id" = Some c) as ->.
      { rewrite lookup_union_r; [apply lookup_singleton_eq|].
        apply (map_disjoint_Some_r _ _ _ c Hd), lookup_singleton_eq. }
      split; [by eexists|exact Heq].
  - rewrite set_table_same. by apply insert_row_refers in Hrow.
  - rewrite set_table_other by discriminate. by apply refers_union_l.
Qed.

(** Lines 362-364: the trial row refers to the recording and to its
    condition row. *)
Lemma insert_trial_data_references E ck data trial params s r s' o :
  references (recording_pk E) s →
  refers (s Behavior_Condition) (recording_pk E ++ ["condition_id"]) ck →
  refers (s Behavior) (recording_pk E) ck →
  insert_trial_data E ck data trial params s = (r, s', o) →
  references (recording_pk E) s'.
Proof.
  intros HI Hbc Hb. unfold insert_trial_data. intros H.
  apply bind_run in H as [(row0 & s0 & ? & ? & H0 & H & _)|(e & H0 & ->)];
    [|by injection H0 as _ <- _].
  injection H0 as H0 <- _. unfold kw_merge in H0. case_decide; [|done].
  injection H0 as <-.
  apply bind_run in H as [(tag & s0 & ? & ? & H0 & H & _)|(e & H0 & ->)];
    [|by injection H0 as _ <- _].
  injection H0 as _ <- _.
  apply bind_run in H as [(row & s0 & ? & ? & H0 & H & _)|(e & H0 & ->)];
    [|by injection H0 as _ <- _].
  injection H0 as H0 <- _. unfold kw_merge in H0. case_decide; [|done].
  injection H0 as <-.
  apply insert1_run in H as [_ H].
  destruct (insert_row _ _ _ _ _) as [rows|e] eqn:Hrow; destruct H as [_ ->]; [|done].
  apply (references_insert _ _ _ _ _ _ HI Hrow). intros t' ks Hfk.
  clear Hrow. fk_cases Hfk; by do 2 apply refers_union_l.
Qed.

Lemma populate_trial_references E key bp fs ss pfs f s r s' o :
  references (recording_pk E) s →
  refers (s Behavior) (recording_pk E) key →
  populate_trial E key bp fs ss pfs f s = (r, s', o) →
  references (recording_pk E) s'.
Proof.
  intros HI Hkey. unfold populate_trial. intros H.
  apply bind_run in H as [(token & s0 & ? & ? & H0 & H & _)|(e & H0 & ->)];
    [|by injection H0 as _ <- _].
  injection H0 as _ <- _.
  apply bind_run in H as [(trial & s0 & ? & ? & H0 & H & _)|(e & H0 & ->)];
    [|by injection H0 as _ <- _].
  injection H0 as _ <- _.
  destruct (list_find _ pfs) as [[i pf]|]; [|by injection H as _ <- _].
  apply bind_run in H as [(params & s0 & ? & ? & H0 & H & _)|(e & H0 & ->)];
    [|by injection H0 as _ <- _].
  injection H0 as _ <- _.
  destruct (parseparams params) as [[[a q] t]|e] eqn:Hparse.
  2:{ rewrite (bind_lift_err _ _ e) in H by done. by injection H as _ <- _. }
  rewrite (bind_lift_ok _ _ (a, q, t)) in H by done.
  apply bind_run in H as [(data & s0 & ? & ? & H0 & H & _)|(e & H0 & ->)];
    [|by injection H0 as _ <- _].
  injection H0 as _ <- _.
  apply bind_run in H as [(ck & s1 & ? & ? & Hc & H & _)|(e & Hc & ->)].
  - destruct (insert_condition_data_references _ _ _ _ _ _ _ _ _ _ Hparse HI Hkey Hc)
      as (HI1 & Hbc & Hb).
    by apply (insert_trial_data_references _ _ _ _ _ _ _ _ _ HI1 Hbc Hb H).
  - by destruct (insert_condition_data_references _ _ _ _ _ _ _ _ _ _ Hparse HI Hkey Hc).
Qed.

(** The references, together with a property [I] of the store that the
    insertions into Behavior and TaskState and the passes of the two
    loops keep, hold after [make]. *)
Lemma make_keeps_with (E : env) (key : gmap string val) (I : store → Prop) :
  (∀ s rows, I s → I (set_table s Behavior rows)) →
  (∀ s rows, I s → I (set_table s TaskState rows)) →
  (∀ bp dfs f s r s' o,
     references (recording_pk E) s → I s →
     populate_condition E bp dfs f s = (r, s', o) → I s') →
  (∀ bp fs ss pfs f s r s' o,
     references (recording_pk E) s → refers (s Behavior) (recording_pk E) key → I s →
     populate_trial E key bp fs ss pfs f s = (r, s', o) → I s') →
  ∀ s r s' o,
    references (recording_pk E) s → I s →
    make E key s = (r, s', o) →
    references (recording_pk E) s' ∧ I s'.
Proof.
  intros HIB HIT HIc HIt s r s' o HI HIs. unfold make. intros H.
  apply bind_run in H as [([] & s1 & ? & ? & Hins & H & _)|(e & Hins & ->)].
  2:{ apply insert1_run in Hins as [_ Hins].
      destruct (insert_row _ _ _ _ _); by destruct Hins as [[=] ->]. }
  apply insert1_run in Hins as [_ Hins].
  destruct (insert_row _ _ _ _ _) as [rows|e] eqn:Hrow; destruct Hins as [[=] ->].
  assert (references (recording_pk E) (set_table s Behavior rows)) as HI1.
  { apply (references_insert _ _ _ _ _ _ HI Hrow). intros t' ks Hfk.
    clear Hrow. fk_cases Hfk. }
  assert (refers (set_table s Behavior rows Behavior) (recording_pk E) key) as Hkey.
  { rewrite set_table_same. by apply insert_row_refers in Hrow. }
  assert (I (set_table s Behavior rows)) as HIs1 by by apply HIB.
  clear Hrow HI HIs.
  lazymatch type of H with
  | ?m _ = _ =>
      assert (keeps (λ s, references (recording_pk E) s ∧
                          refers (s Behavior) (recording_pk E) key ∧ I s) m) as Hkeeps
  end.
  2:{ by destruct (Hkeeps _ _ _ _ H (conj HI1 (conj Hkey HIs1))) as (? & _ & ?). }
  clear -HIT HIc HIt. cbn beta.
  apply keeps_bind; [apply keeps_lift|]. intros [path fs].
  apply keeps_bind; [apply keeps_lift|]. intros path'.
  apply keeps_bind; [apply keeps_lift|]. intros hw.
  case_bool_decide as Hhw; [|apply keeps_ret].
  apply keeps_bind; [apply keeps_lift|]. intros summary.
  apply keeps_bind.
  { apply keeps_for_each. intros row _ s r s' o H (HI & Hk & HIs).
    apply insert1_run in H as [_ H].
    destruct (insert_row _ _ _ _ _) as [rows|e] eqn:Hrow; destruct H as [_ ->]; [|done].
    split; [|split].
    - apply (references_insert _ _ _ _ _ _ HI Hrow). intros t' ks Hfk.
      clear Hrow. fk_cases Hfk.
    - by rewrite set_table_other by discriminate.
    - by apply HIT. }
  intros _. apply keeps_bind; [apply keeps_lift|]. intros files.
  apply keeps_bind.
  { apply keeps_for_each. intros f _ s r s' o H (HI & Hk & HIs). split; [|split].
    - by apply (populate_condition_references _ _ _ _ _ _ _ _ HI H).
    - by apply (keeps_populate_condition E _ _ _ _
                  (insert_stable_refers _ Behavior _ key) _ _ _ _ H).
    - by eapply HIc. }
  intros _. apply keeps_bind; [apply keeps_query|]. intros states.
  apply keeps_bind; [apply keeps_lift|]. intros ss.
  apply keeps_for_each. intros f _ s r s' o H (HI & Hk & HIs). split; [|split].
  - by apply (populate_trial_references _ _ _ _ _ _ _ _ _ _ _ HI Hk H).
  - by apply (keeps_populate_trial E _ _ _ _ _ _ _
                (insert_stable_refers _ Behavior _ key) _ _ _ _ H).
  - by eapply HIt.
Qed.

(** X3. [make] keeps the references between the tables: when every part
    row refers to a condition of ConditionParams, every row of a target
    type to a Target row, every Behavior.Condition row to a recording of
    Behavior and to a condition, and every trial to its recording and its
    Behavior.Condition row, then the same holds after [make], whether it
    returns or raises. *)
Theorem make_keeps_references (E : env) (key : gmap string val) s r s' o :
  references (recording_pk E) s →
  make E key s = (r, s', o) →
  references (recording_pk E) s'.
Proof.
  intros HI H.
  by destruct (make_keeps_with E key (λ _, True) ltac:(done) ltac:(done)
                 ltac:(done) ltac:(done) s r s' o HI ltac:(done) H).
Qed.

(** ** The identifier of a part stands for its attributes *)

Lemma same_id_same_attrs_snoc id attrs rows row :
  same_id_same_attrs id attrs rows →
  (∀ r1, r1 ∈ rows → (r1 !! id = row !! id ↔ ∀ k, k ∈ attrs → r1 !! k = row !! k)) →
  same_id_same_attrs id attrs (rows ++ [row]).
Proof.
  intros HI Hrow r1 r2 H1 H2.
  apply elem_of_app in H1 as [H1|H1]; apply elem_of_app in H2 as [H2|H2];
    try apply list_elem_of_singleton in H1 as ->;
    try apply list_elem_of_singleton in H2 as ->.
  - by apply HI.
  - by apply Hrow.
  - destruct (Hrow r2 H2) as [Ha Hb]. split.
    + intros Heq k Hk. symmetry. by apply Ha.
    + intros Heq. symmetry. apply Hb. intros k Hk. symmetry. by apply Heq.
  - done.
Qed.

Lemma part_attrs_not_keys rpk p k :
  k ∈ secondary (schema_of rpk (part_rel p)) →
  k ≠ "condition_id" ∧ k ≠ part_id p.
Proof.
  intros Hk. destruct p; cbn in Hk;
    repeat (apply elem_of_cons in Hk as [->|Hk]; [by split|]);
    by apply elem_of_nil in Hk.
Qed.

Lemma part_heading rpk p k :
  k ∈ heading (schema_of rpk (part_rel p)) →
  k = "condition_id" ∨ k = part_id p ∨ k ∈ secondary (schema_of rpk (part_rel p)).
Proof.
  unfold heading. intros Hk. destruct p; cbn [part_rel schema_of primary] in Hk;
    (apply elem_of_cons in Hk as [->|Hk]; [by left|]);
    (apply elem_of_cons in Hk as [->|Hk]; [right; by left|]);
    right; right; cbn [nullable] in Hk; by rewrite app_nil_r in Hk.
Qed.

Lemma part_id_not_cond p : part_id p ≠ "condition_id".
Proof. by destruct p. Qed.

(** A pass of the loop over the parts keeps the identifiers of the part
    consistent, when the attributes of the part do not name the
    identifier. *)
Lemma insert_part_consistent E c a p s r s' o :
  get_part a p !! part_id p = None →
  part_consistent (recording_pk E) p s →
  insert_part E {[ "condition_id" := c ]} a p s = (r, s', o) →
  part_consistent (recording_pk E) p s'.
Proof.
  intros Hnoid HI H. apply insert_part_run in H. destruct r as [a'|e]; [|by subst s'].
  destruct H as [(_ & _ & ->)|(id & rows & _ & Hdisj & Hrow & -> & Hhow)]; [done|].
  unfold part_consistent. rewrite set_table_same.
  pose proof (insert_row_fits _ _ _ _ _ _ Hrow) as Hfit.
  pose proof (insert_row_required _ _ _ _ _ _ Hrow) as Hreq.
  apply insert_row_ok in Hrow as [(_ & [=] & _)|[-> _]].
  remember (get_part a p) as d eqn:Hd.
  remember (schema_of (recording_pk E) (part_rel p)) as sc eqn:Hsc.
  remember ({[ "condition_id" := c ]} ∪ <[part_id p := id]> d) as row eqn:Hrowdef.
  assert (row !! part_id p = Some id) as Hrowid.
  { subst row. rewrite lookup_union_r; [by rewrite lookup_insert_eq|].
    apply lookup_singleton_ne. intros Heq. by apply (part_id_not_cond p). }
  assert (∀ k, k ∈ secondary sc → row !! k = d !! k) as Hrowk.
  { intros k Hk. subst sc. apply part_attrs_not_keys in Hk as [Hk1 Hk2]. subst row.
    rewrite lookup_union_r by (by apply lookup_singleton_ne).
    by apply lookup_insert_ne. }
  assert (∀ k, is_Some (d !! k) → k ∈ secondary sc) as Hdom.
  { intros k [v Hv].
    assert (k ≠ part_id p) as Hk2 by (intros ->; congruence).
    assert (k ≠ "condition_id") as Hk1.
    { intros ->.
      assert (<[part_id p := id]> d !! "condition_id" = None) as Hnone.
      { apply (map_disjoint_Some_l _ _ _ c Hdisj), lookup_singleton_eq. }
      rewrite lookup_insert_ne in Hnone by done. congruence. }
    assert (k ∈ heading sc) as Hh.
    { apply Hfit. subst row. rewrite lookup_union_r by (by apply lookup_singleton_ne).
      rewrite lookup_insert_ne by done. by eexists. }
    subst sc. apply part_heading in Hh as [?|[?|?]]; done. }
  clear Hrowdef Hdisj Hfit.
  apply same_id_same_attrs_snoc; [by subst sc|]. intros r1 Hr1. rewrite Hrowid.
  cbn zeta in Hhow. cbn [eval restrict rel_rows rel_heading] in Hhow.
  unfold nonempty, fetch_first, restrict in Hhow.
  cbn [rel_rows rel_heading] in Hhow. rewrite <- Hsc in Hhow.
  destruct (filter (matches (heading sc) d) (s (part_rel p))) as [|r0 rest] eqn:Hfilter.
  - (* a new identifier *)
    destruct Hhow as (n & Hn & ->). split.
    + intros Heq. exfalso. by apply (new_id_fresh _ _ _ _ Hn Hr1).
    + intros Heq. exfalso.
      assert (r1 ∈ filter (matches (heading sc) d) (s (part_rel p))) as Hin.
      { apply list_elem_of_filter. split; [|done]. intros k v Hv _.
        rewrite (Heq k), Hrowk; [done| |]; apply Hdom; by eexists. }
      rewrite Hfilter in Hin. by apply elem_of_nil in Hin.
  - (* the identifier of the first row that matches *)
    assert (r0 ∈ filter (matches (heading sc) d) (s (part_rel p))) as Hr0
      by (rewrite Hfilter; by left).
    apply list_elem_of_filter in Hr0 as [Hmatch Hr0].
    unfold dict_getitem in Hhow. destruct (r0 !! part_id p) as [id0|] eqn:Hid0; [|done].
    injection Hhow as ->.
    assert (∀ k, k ∈ secondary sc → r0 !! k = row !! k) as Hsame.
    { intros k Hk. rewrite (Hrowk k Hk).
      destruct (Hreq k) as [v Hv]; [apply elem_of_app; by right|].
      rewrite (Hrowk k Hk) in Hv. rewrite Hv.
      apply (Hmatch k v Hv). unfold heading. rewrite elem_of_app, elem_of_app. tauto. }
    rewrite <- Hid0. subst sc. rewrite (HI r1 r0 Hr1 Hr0). split.
    + intros Heq k Hk. rewrite <- (Hsame k Hk). by apply Heq.
    + intros Heq k Hk. rewrite (Hsame k Hk). by apply Heq.
Qed.

Lemma part_consistent_other rpk p s t rows :
  t ≠ part_rel p → part_consistent rpk p s → part_consistent rpk p (set_table s t rows).
Proof.
  intros Ht. unfold part_consistent. by rewrite set_table_other.
Qed.

Lemma keeps_insert1_other rpk p t row skip :
  t ≠ part_rel p → keeps (part_consistent rpk p) (insert1 rpk t row skip).
Proof.
  intros Ht s r s' o H HI. apply insert1_run in H as [_ H].
  destruct (insert_row _ _ _ _ _); destruct H as [_ ->]; [|done].
  by apply part_consistent_other.
Qed.

Lemma part_rel_inj p p' : part_rel p' = part_rel p → p' = p.
Proof. by destruct p, p'. Qed.

Lemma get_part_set_part a p p' d : p' ≠ p → get_part (set_part a p' d) p = get_part a p.
Proof. by destruct p, p'. Qed.

Lemma insert_part_other E ck a p p' s a' s' o :
  p' ≠ p → insert_part E ck a p' s = (OK a', s', o) → get_part a' p = get_part a p.
Proof.
  intros Hp H. apply insert_part_run in H.
  destruct H as [(_ & -> & _)|(id & rows & -> & _)]; [done|].
  by apply get_part_set_part.
Qed.

Lemma keeps_insert_part_consistent E c a p p' :
  (p' = p → get_part a p !! part_id p = None) →
  keeps (part_consistent (recording_pk E) p)
        (insert_part E {[ "condition_id" := c ]} a p').
Proof.
  intros Hnoid s r s' o H HI. destruct (decide (p' = p)) as [->|Hp].
  - eapply insert_part_consistent; [by apply Hnoid|done..].
  - apply insert_part_run in H. destruct r as [a'|e]; [|by subst s'].
    destruct H as [(_ & _ & ->)|(id & rows & _ & _ & _ & -> & _)]; [done|].
    apply part_consistent_other; [|done]. intros Heq. by apply Hp, part_rel_inj.
Qed.

(** The insertion of a condition keeps the identifiers of the part [p]
    consistent. *)
Lemma insert_condition_consistent E a q t p :
  t = Static ∨ t = Ramp ∨ t = Sine ∨ t = Chirp →
  get_part a p !! part_id p = None →
  keeps (part_consistent (recording_pk E) p) (insert_condition E a q t).
Proof.
  intros Ht Hnoid. unfold insert_condition.
  apply keeps_bind; [apply keeps_query|]. intros found.
  destruct (nonempty found); [apply keeps_ret|].
  apply keeps_bind; [apply keeps_query|]. intros all.
  apply keeps_bind; [apply keeps_lift|]. intros n.
  apply keeps_bind; [apply keeps_insert1_other; by destruct p|]. intros _.
  apply keeps_bind.
  - cbn [for_fold]. intros s r s' o H HI.
    apply bind_run in H as [(a1 & s1 & ? & ? & H1 & H & _)|(e & H1 & _)].
    2:{ eapply keeps_insert_part_consistent; [|done..]. by intros _. }
    assert (part_consistent (recording_pk E) p s1) as HI1.
    { eapply keeps_insert_part_consistent; [|done..]. by intros _. }
    apply bind_run in H as [(a2 & s2 & ? & ? & H2 & H & _)|(e & H2 & _)].
    2:{ eapply keeps_insert_part_consistent; [|done..]. intros <-.
        by rewrite (insert_part_other _ _ _ PStim PForce _ _ _ _ ltac:(done) H1). }
    assert (part_consistent (recording_pk E) p s2) as HI2.
    { eapply keeps_insert_part_consistent; [|done..]. intros <-.
      by rewrite (insert_part_other _ _ _ PStim PForce _ _ _ _ ltac:(done) H1). }
    apply bind_run in H as [(a3 & s3 & ? & ? & H3 & H & _)|(e & H3 & _)].
    2:{ eapply keeps_insert_part_consistent; [|done..]. intros <-.
        rewrite (insert_part_other _ _ _ PTarget PStim _ _ _ _ ltac:(done) H2).
        by rewrite (insert_part_other _ _ _ PTarget PForce _ _ _ _ ltac:(done) H1). }
    injection H as _ <- _.
    eapply keeps_insert_part_consistent; [|done..]. intros <-.
    rewrite (insert_part_other _ _ _ PTarget PStim _ _ _ _ ltac:(done) H2).
    by rewrite (insert_part_other _ _ _ PTarget PForce _ _ _ _ ltac:(done) H1).
  - intros a'. apply keeps_bind; [apply keeps_lift|]. intros tid.
    apply keeps_bind; [apply keeps_lift|]. intros row0.
    apply keeps_bind; [apply keeps_lift|]. intros row.
    apply keeps_insert1_other.
    destruct Ht as [-> | [-> | [-> | ->]]]; by destruct p.
Qed.

Lemma parseparams_no_id params a q t p :
  parseparams params = OK (a, q, t) →
  (p = PStim → stim_attr_of params !! "stim_id" = None) →
  get_part a p !! part_id p = None.
Proof.
  intros Hparse Hstim. apply parseparams_ok in Hparse
    as (? & ? & ? & ? & ? & ? & ? & ? & _ & _ & _ & _ & _ & _ & _ & _ &
        HF & HS & HT & _ & _).
  destruct p; cbn [get_part].
  - rewrite HF. by simplify_map_eq.
  - rewrite HS. destruct (stim_on params); [by apply Hstim|apply lookup_empty].
  - rewrite HT. by simplify_map_eq.
Qed.

Lemma populate_condition_consistent E bp data_files f p :
  (p = PStim → ∀ path params, readtrialparams E path = OK params →
               stim_attr_of params !! "stim_id" = None) →
  keeps (part_consistent (recording_pk E) p) (populate_condition E bp data_files f).
Proof.
  intros Hstim. unfold populate_condition.
  apply keeps_bind; [apply keeps_lift|]. intros trial.
  case_bool_decide as Hmiss; [apply keeps_print|].
  destruct (readtrialparams E (bp +:+ f)) as [params|e] eqn:Hread.
  2:{ intros s r s' o H. rewrite (bind_lift_err _ _ e) in H by done.
      by injection H as _ <- _. }
  destruct (parseparams params) as [[[a q] t]|e] eqn:Hparse.
  2:{ intros s r s' o H. rewrite (bind_lift_ok _ _ params) in H by done.
      rewrite (bind_lift_err _ _ e) in H by done. by injection H as _ <- _. }
  intros s r s' o H. rewrite (bind_lift_ok _ _ params) in H by done.
  rewrite (bind_lift_ok _ _ (a, q, t)) in H by done. revert H.
  apply insert_condition_consistent; [by eapply parseparams_rel|].
  apply (parseparams_no_id params a q t p Hparse). intros Hp.
  by apply (Hstim Hp (bp +:+ f)).
Qed.

Lemma populate_trial_consistent E key bp fs ss pfs f p :
  keeps (part_consistent (recording_pk E) p) (populate_trial E key bp fs ss pfs f).
Proof.
  unfold populate_trial, insert_condition_data, fetch_condition_id, insert_trial_data.
  repeat first
    [ apply keeps_lift | apply keeps_print | apply keeps_query | apply keeps_ret
    | apply keeps_insert1_other; by destruct p
    | apply keeps_bind; [|intros ?]
    | match goal with
      | |- keeps _ (match ?x with _ => _ end) => destruct x
      end ].
Qed.

(** X4. [make] keeps the identifiers of the parts consistent: when in
    Force (in Target, in Stim) two rows have the same [force_id]
    ([target_id], [stim_id]) exactly when they have the same attributes
    below the line, this still holds after [make], whether it returns or
    raises.  For Stim this needs that no parameter record gives a field
    named [stim_id]. *)
Theorem make_keeps_part_ids (E : env) (key : gmap string val) (p : part)
    s r s' o :
  (p = PStim → ∀ path params, readtrialparams E path = OK params →
               stim_attr_of params !! "stim_id" = None) →
  part_consistent (recording_pk E) p s →
  make E key s = (r, s', o) →
  part_consistent (recording_pk E) p s'.
Proof.
  intros Hstim HI H. revert H HI. fold (keeps (part_consistent (recording_pk E) p) (make E key)).
  unfold make.
  apply keeps_bind; [apply keeps_insert1_other; by destruct p|]. intros _.
  apply keeps_bind; [apply keeps_lift|]. intros [path fs].
  apply keeps_bind; [apply keeps_lift|]. intros path'.
  apply keeps_bind; [apply keeps_lift|]. intros hw.
  case_bool_decide as Hhw; [|apply keeps_ret].
  apply keeps_bind; [apply keeps_lift|]. intros summary.
  apply keeps_bind.
  { apply keeps_for_each. intros. apply keeps_insert1_other. by destruct p. }
  intros _. apply keeps_bind; [apply keeps_lift|]. intros files.
  apply keeps_bind.
  { apply keeps_for_each. intros. by apply populate_condition_consistent. }
  intros _. apply keeps_bind; [apply keeps_query|]. intros states.
  apply keeps_bind; [apply keeps_lift|]. intros ss.
  apply keeps_for_each. intros. apply populate_trial_consistent.
Qed.

(** ** A recording that is already in Behavior *)

Lemma insert_row_duplicate sc t skip rows row rows1 rows' :
  insert_row sc t skip rows row = OK rows1 →
  Exists (λ r', pk_of sc r' = pk_of sc row) rows' →
  insert_row sc t false rows' row = Err (DuplicateError (table_name t)).
Proof.
  unfold insert_row. destruct (filter _ (map_to_list row).*1); [|done].
  destruct (filter _ (primary sc ++ secondary sc)); [|done].
  intros _ Hex. by rewrite decide_True.
Qed.

(** X5. [make] cannot be run twice for a recording.  When the primary key
    of the recording is already in Behavior, [make] raises at its first
    line: no table is changed and nothing is printed.  In particular,
    after a run that returned, a second run for the same key raises the
    duplicate error of Behavior. *)
Theorem make_rerun_refused (E : env) (key : gmap string val) s :
  (∀ r0, r0 ∈ s Behavior →
         (∀ k, k ∈ recording_pk E → r0 !! k = key !! k) →
         ∃ e, make E key s = (Err e, s, [])) ∧
  (∀ s0 o0, make E key s0 = (OK tt, s, o0) →
            make E key s = (Err (DuplicateError "Behavior"), s, [])).
Proof.
  split.
  - intros r0 Hin Hpk.
    destruct (insert1_existing (recording_pk E) Behavior key false s r0 Hin Hpk)
      as (res & Hrun & Herr & _).
    destruct res as [[]|e]; [by destruct (Herr eq_refl)|]. exists e.
    unfold make. by rewrite (bind_err _ _ _ _ _ _ Hrun).
  - intros s0 o0 H.
    assert (∃ rows, insert_row (schema_of (recording_pk E) Behavior) Behavior false
                      (s0 Behavior) key = OK rows ∧ key ∈ s Behavior)
      as (rows & Hrow & Hin).
    { unfold make in H.
      apply bind_run in H as [([] & s1 & ? & ? & Hins & H & _)|(e & _ & [=])].
      apply insert1_run in Hins as [_ Hins].
      destruct (insert_row _ _ _ _ _) as [rows|e] eqn:Hrow; destruct Hins as [[=] ->].
      exists rows. split; [done|].
      assert (key ∈ set_table s0 Behavior rows Behavior) as Hin.
      { rewrite set_table_same.
        apply insert_row_ok in Hrow as [(_ & [=] & _)|[-> _]].
        apply elem_of_app. right. by apply list_elem_of_singleton. }
      assert (insert_stable (recording_pk E) (λ s : store, key ∈ s Behavior)) as HI.
      { intros s1 t skip row rows1 Hs Hrow1. by eapply set_table_grows. }
      lazymatch type of H with
      | ?m _ = _ => assert (keeps (λ s : store, key ∈ s Behavior) m) as Hkeeps
      end.
      { cbn beta. repeat keeps_step.
        - by apply keeps_populate_condition.
        - by apply keeps_populate_trial. }
      exact (Hkeeps _ _ _ _ H Hin). }
    unfold make.
    rewrite (bind_err _ _ _ (DuplicateError "Behavior") s []); [done|].
    unfold insert1.
    rewrite (insert_row_duplicate _ _ _ _ _ _ (s Behavior) Hrow); [done|].
    apply Exists_exists. by exists key.
Qed.

(** ** Files of the directory that are no trial files *)

(** X6. Only the names that end in [.params] or in [.data] count: a file
    of the directory with another ending changes nothing in the run (the
    result, the store and the printed lines are the same). *)
Theorem other_files_ignored (E : env) (key : gmap string val) s l1 l2 f :
  endswith f ".params" = false →
  endswith f ".data" = false →
  make (with_files E (l1 ++ f :: l2)) key s = make (with_files E (l1 ++ l2)) key s.
Proof.
  intros Hp Hd. unfold make.
  cbn [recording_pk fetch_recording ensurelocal fetch_task_controller
       readtaskstates listdir with_files].
  apply bind_ext. intros _ s1. apply bind_ext. intros [path fs] s2.
  apply bind_ext. intros path' s3. apply bind_ext. intros hw s4.
  case_bool_decide as Hhw; [|done].
  apply bind_ext. intros summary s5. apply bind_ext. intros _ s6.
  rewrite !(bind_lift_ok (OK _) _ _ _ eq_refl).
  rewrite !populate_condition_with_files, !populate_trial_with_files.
  rewrite (filter_insert_no (λ f, endswith f ".params"))
    by (rewrite Is_true_true; by rewrite Hp).
  rewrite (filter_insert_no (λ f, endswith f ".data"))
    by (rewrite Is_true_true; by rewrite Hd).
  done.
Qed.

(** ** A trial file without a trial number *)

Lemma preserves_nothing {A} (m : M A) : preserves (λ _, False) m.
Proof. by intros s r s' o _ t []. Qed.

Lemma aborts_lift_err {A B} P (x : res A) (k : A → M B) :
  is_err x → aborts_keeping P (bind (lift x) k).
Proof.
  intros Hx. apply aborts_lift_any. intros a ->. destruct Hx.
Qed.

(** X7. The trial number is read from the name of each trial file, and a
    name from which it cannot be read makes the whole run raise.  For a
    parameter file whose name has no [beh_] the run raises in the first
    loop, so that no row of Behavior.Condition or Behavior.Trial is
    written; for a data file whose name has no [beh_], or no digit after
    the first [beh_], the run raises as well. *)
Theorem unnumbered_file_aborts (E : env) (key : gmap string val) files f
    s r s' o :
  fetch_task_controller E key = OK "Speedgoat" →
  f ∈ files →
  make (with_files E files) key s = (r, s', o) →
  (endswith f ".params" = true → is_err (trial_token f) →
     is_err r ∧
     s' Behavior_Condition = s Behavior_Condition ∧
     s' Behavior_Trial = s Behavior_Trial) ∧
  (endswith f ".data" = true →
     is_err (token <-? trial_token f ;; int_of_digits token) →
     is_err r).
Proof.
  intros Hhw Hf Hrun. split.
  - intros Hend Htok.
    enough (aborts_keeping trial_table (make (with_files E files) key)) as Habort.
    { destruct (Habort _ _ _ _ Hrun) as [Herr Hkeep].
      split; [done|]. split; apply Hkeep; [by left|by right]. }
    unfold make.
    cbn [recording_pk fetch_recording ensurelocal fetch_task_controller
         readtaskstates listdir with_files].
    apply aborts_bind_r; [apply preserves_insert1; by intros [|]|]. intros _ _ _ _ _.
    apply aborts_lift_any. intros [path fs] _.
    apply aborts_lift_any. intros path' _.
    apply (aborts_lift_ok _ _ _ "Speedgoat"); [done|].
    rewrite bool_decide_true by done.
    apply aborts_lift_any. intros summary _.
    apply aborts_bind_r; [apply preserves_insert; by intros [|]|]. intros _ _ _ _ _.
    apply (aborts_lift_ok _ _ _ files); [done|].
    apply aborts_bind_l.
    apply (aborts_for_each _ _ _ f).
    + apply list_elem_of_filter. split; [by apply Is_true_true|done].
    + intros. apply preserves_populate_condition.
    + unfold populate_condition. by apply aborts_lift_err.
  - intros Hend Htok.
    enough (aborts_keeping (λ _, False) (make (with_files E files) key)) as Habort.
    { by destruct (Habort _ _ _ _ Hrun) as [Herr _]. }
    unfold make.
    cbn [recording_pk fetch_recording ensurelocal fetch_task_controller
         readtaskstates listdir with_files].
    apply aborts_bind_r; [apply preserves_nothing|]. intros _ _ _ _ _.
    apply aborts_lift_any. intros [path fs] _.
    apply aborts_lift_any. intros path' _.
    apply (aborts_lift_ok _ _ _ "Speedgoat"); [done|].
    rewrite bool_decide_true by done.
    apply aborts_lift_any. intros summary _.
    apply aborts_bind_r; [apply preserves_nothing|]. intros _ _ _ _ _.
    apply (aborts_lift_ok _ _ _ files); [done|].
    apply aborts_bind_r; [apply preserves_nothing|]. intros _ _ _ _ _.
    apply aborts_bind_r; [apply preserves_nothing|]. intros states _ _ _ _.
    apply aborts_lift_any. intros ss _.
    apply (aborts_for_each _ _ _ f).
    + apply list_elem_of_filter. split; [by apply Is_true_true|done].
    + intros. apply preserves_nothing.
    + unfold populate_trial. destruct (trial_token f) as [token|e].
      * apply aborts_lift_any. intros token' [= <-]. by apply aborts_lift_err.
      * by apply aborts_lift_err.
Qed.

(** ** What each loop writes *)

Lemma preserves_insert_part_registry E ck a p :
  preserves (λ t, ¬ registry_table t) (insert_part E ck a p).
Proof.
  unfold insert_part. case_decide; [apply preserves_ret|].
  apply preserves_bind; [apply preserves_query|]. intros found.
  apply preserves_bind.
  { destruct (nonempty found); [apply preserves_lift|].
    apply preserves_bind; [apply preserves_query|]. intros all.
    apply preserves_bind; [apply preserves_lift|]. intros. apply preserves_ret. }
  intros id. apply preserves_bind; [apply preserves_lift|]. intros row.
  apply preserves_bind; [|intros; apply preserves_ret].
  apply preserves_insert1. intros Hnot. apply Hnot. unfold registry_table.
  destruct p; compute_done.
Qed.

Lemma preserves_populate_condition_registry E bp data_files f :
  preserves (λ t, ¬ registry_table t) (populate_condition E bp data_files f).
Proof.
  unfold populate_condition.
  apply preserves_bind; [apply preserves_lift|]. intros trial.
  case_bool_decide as Hmiss; [apply preserves_print|].
  apply preserves_bind; [apply preserves_lift|]. intros params.
  destruct (parseparams params) as [[[a q] t]|e] eqn:Hparse.
  2:{ intros s r s' o. rewrite (bind_lift_err _ _ e) by done. by intros [= _ <- _]. }
  intros s r s' o. rewrite (bind_lift_ok _ _ (a, q, t)) by done.
  apply parseparams_rel in Hparse. revert s r s' o.
  fold (preserves (λ t, ¬ registry_table t) (insert_condition E a q t)).
  unfold insert_condition.
  apply preserves_bind; [apply preserves_query|]. intros found.
  destruct (nonempty found); [apply preserves_ret|].
  apply preserves_bind; [apply preserves_query|]. intros all.
  apply preserves_bind; [apply preserves_lift|]. intros new_cond_id.
  apply preserves_bind.
  { apply preserves_insert1. intros Hnot. apply Hnot. compute_done. }
  intros _. apply preserves_bind.
  { apply preserves_for_fold. intros. apply preserves_insert_part_registry. }
  intros a'. apply preserves_bind; [apply preserves_lift|]. intros target_id.
  apply preserves_bind; [apply preserves_lift|]. intros row0.
  apply preserves_bind; [apply preserves_lift|]. intros row.
  apply preserves_insert1. intros Hnot. apply Hnot. unfold registry_table.
  destruct Hparse as [-> | [-> | [-> | ->]]]; compute_done.
Qed.

Lemma preserves_populate_trial E key bp fs ss pfs f :
  preserves (λ t, ¬ trial_table t) (populate_trial E key bp fs ss pfs f).
Proof.
  unfold populate_trial, insert_condition_data, fetch_condition_id, insert_trial_data.
  repeat first
    [ apply preserves_lift | apply preserves_print | apply preserves_query
    | apply preserves_ret
    | apply preserves_insert1; by (intros Hnot; apply Hnot; first [by left|by right])
    | apply preserves_bind; [|intros ?]
    | match goal with
      | |- preserves _ (match ?x with _ => _ end) => destruct x
      end ].
Qed.

(** X8. The two loops write separate tables.  A pass of the loop over the
    parameter files changes no table other than ConditionParams and its
    part tables; a pass of the loop over the data files changes no table
    other than Behavior.Condition and Behavior.Trial: it never registers
    a condition.  This holds whether the pass returns or raises. *)
Theorem loops_write_separate_tables (E : env) (key : gmap string val)
    bp fs ss (param_files data_files : list string) (f : string) s r s' o :
  (populate_condition E bp data_files f s = (r, s', o) →
     ∀ t, ¬ registry_table t → s' t = s t) ∧
  (populate_trial E key bp fs ss param_files f s = (r, s', o) →
     ∀ t, ¬ trial_table t → s' t = s t).
Proof.
  split; intros H.
  - exact (preserves_populate_condition_registry _ _ _ _ _ _ _ _ H).
  - exact (preserves_populate_trial _ _ _ _ _ _ _ _ _ _ _ H).
Qed.

(** ** The task state of success *)

(** X9. A run on a Speedgoat recording that returns leaves exactly one
    task state named [Success] in TaskState, and this state has an
    identifier: with no such state, or with several, the run does not
    return. *)
Theorem make_returns_one_success (E : env) (key : gmap string val) s s' o :
  fetch_task_controller E key = OK "Speedgoat" →
  make E key s = (OK tt, s', o) →
  ∃ st id,
    filter (λ r : gmap string val, r !! "task_state_name" = Some (VStr "Success"))
           (s' TaskState) = [st] ∧
    st !! "task_state_id" = Some id.
Proof.
  intros Hhw. unfold make. intros H.
  apply bind_run in H as [([] & s1 & ? & ? & _ & H & _)|(e & _ & [=])].
  apply bind_run in H as [([path fs] & s2 & ? & ? & _ & H & _)|(e & _ & [=])].
  apply bind_run in H as [(path' & s3 & ? & ? & _ & H & _)|(e & _ & [=])].
  rewrite (bind_lift_ok _ _ "Speedgoat") in H by done.
  rewrite bool_decide_true in H by done.
  apply bind_run in H as [(summary & s4 & ? & ? & _ & H & _)|(e & _ & [=])].
  apply bind_run in H as [([] & s5 & ? & ? & _ & H & _)|(e & _ & [=])].
  apply bind_run in H as [(files & s6 & ? & ? & _ & H & _)|(e & _ & [=])].
  apply bind_run in H as [([] & s7 & ? & ? & _ & H & _)|(e & _ & [=])].
  rewrite bind_query in H.
  apply bind_run in H as [(ss & s8 & ? & ? & Hss & H & _)|(e & _ & [=])].
  injection Hss as Hss <- _.
  assert (s' TaskState = s7 TaskState) as ->.
  { revert H. generalize (OK tt : res unit). intros r H.
    refine (preserves_for_each (λ t, t = TaskState) _ _ _ _ _ _ _ H TaskState eq_refl).
    intros f _. eapply preserves_weaken; [|apply preserves_populate_trial].
    intros t -> [|]; discriminate. }
  unfold fetch1 in Hss. cbn [eval restrict rel_rows rel_heading] in Hss.
  destruct (filter _ (s7 TaskState)) as [|st [|]] eqn:Hfilter; [done| |done].
  unfold dict_getitem in Hss. destruct (st !! "task_state_id") as [id|] eqn:Hid; [|done].
  exists st, id. split; [|done]. rewrite <- Hfilter. apply list_filter_iff.
  intros row. unfold matches. rewrite map_Forall_singleton.
  split; [auto|]. intros Hrow. apply Hrow. compute_done.
Qed.

(** ** [parseparams]: the target and the errors *)

Lemma targ_type_of_ok params t tattr :
  targ_type_of params = OK (Some (t, tattr)) →
  ∃ ty, get params "type" = Some (VStr ty) ∧
    ((ty = "STA" ∧ t = Static ∧ tattr = ∅) ∨
     (ty = "RMP" ∧ t = Ramp ∧
      ∃ amplitude a0,
        get params "amplitude" = Some amplitude ∧ index amplitude 0 = OK a0 ∧
        tattr = {[ "target_amplitude" := a0 ]}) ∨
     (ty = "SIN" ∧ t = Sine ∧
      ∃ amplitude a0 frequency f0,
        get params "amplitude" = Some amplitude ∧ index amplitude 0 = OK a0 ∧
        get params "frequency" = Some frequency ∧ index frequency 0 = OK f0 ∧
        tattr = {[ "target_amplitude" := a0; "target_frequency" := f0 ]}) ∨
     (ty = "CHP" ∧ t = Chirp ∧
      ∃ amplitude a0 frequency f0 f1,
        get params "amplitude" = Some amplitude ∧ index amplitude 0 = OK a0 ∧
        get params "frequency" = Some frequency ∧ index frequency 0 = OK f0 ∧
        index frequency 1 = OK f1 ∧
        tattr = {[ "target_amplitude" := a0; "target_frequency_init" := f0;
                   "target_frequency_final" := f1 ]})).
Proof.
  unfold targ_type_of, getitem, py_eq.
  destruct (get params "type") as [ty|]; [|done]. cbn [res_bind].
  case_bool_decide as H1.
  { subst ty. intros [= <- <-]. exists "STA". split; [done|]. by left. }
  case_bool_decide as H2.
  { subst ty. destruct (get params "amplitude") as [amp|]; [|done]. cbn [res_bind].
    destruct (index amp 0) as [a0|] eqn:Ha; [|done]. cbn [res_bind].
    intros [= <- <-]. exists "RMP". split; [done|]. right; left.
    do 2 (split; [done|]). by exists amp, a0. }
  case_bool_decide as H3.
  { subst ty. destruct (get params "amplitude") as [amp|]; [|done]. cbn [res_bind].
    destruct (index amp 0) as [a0|] eqn:Ha; [|done]. cbn [res_bind].
    destruct (get params "frequency") as [fr|]; [|done]. cbn [res_bind].
    destruct (index fr 0) as [f0|] eqn:Hf; [|done]. cbn [res_bind].
    intros [= <- <-]. exists "SIN". split; [done|]. right; right; left.
    do 2 (split; [done|]). by exists amp, a0, fr, f0. }
  case_bool_decide as H4; [|done].
  subst ty. destruct (get params "amplitude") as [amp|]; [|done]. cbn [res_bind].
  destruct (index amp 0) as [a0|] eqn:Ha; [|done]. cbn [res_bind].
  destruct (get params "frequency") as [fr|]; [|done]. cbn [res_bind].
  destruct (index fr 0) as [f0|] eqn:Hf; [|done]. cbn [res_bind].
  destruct (index fr 1) as [f1|] eqn:Hf1; [|done]. cbn [res_bind].
  intros [= <- <-]. exists "CHP". split; [done|]. right; right; right.
  do 2 (split; [done|]). by exists amp, a0, fr, f0, f1.
Qed.

(** X10. Whenever a record parses, the Target group holds the record's
    [duration] as [target_duration], the first element of its [offset] as
    [target_offset] and its [padDur] as [target_pad]; the profile type is
    one of the four tags, it selects the table of the target type, and the
    attributes of the type are the first element of [amplitude] (ramp,
    sine, chirp), the first element of [frequency] (sine), and the first
    and the second element of [frequency] (chirp); a static target has no
    attribute of its own. *)
Theorem target_attr_extracted params a q t :
  parseparams params = OK (a, q, t) →
  ∃ duration offset offset0 padDur ty,
    get params "duration" = Some duration ∧
    get params "offset" = Some offset ∧ index offset 0 = OK offset0 ∧
    get params "padDur" = Some padDur ∧
    get params "type" = Some (VStr ty) ∧
    targ_attr a = {[ "target_duration" := duration; "target_offset" := offset0;
                     "target_pad" := padDur ]} ∧
    ((ty = "STA" ∧ t = Static ∧ targ_type_attr a = ∅) ∨
     (ty = "RMP" ∧ t = Ramp ∧
      ∃ amplitude a0,
        get params "amplitude" = Some amplitude ∧ index amplitude 0 = OK a0 ∧
        targ_type_attr a = {[ "target_amplitude" := a0 ]}) ∨
     (ty = "SIN" ∧ t = Sine ∧
      ∃ amplitude a0 frequency f0,
        get params "amplitude" = Some amplitude ∧ index amplitude 0 = OK a0 ∧
        get params "frequency" = Some frequency ∧ index frequency 0 = OK f0 ∧
        targ_type_attr a = {[ "target_amplitude" := a0; "target_frequency" := f0 ]}) ∨
     (ty = "CHP" ∧ t = Chirp ∧
      ∃ amplitude a0 frequency f0 f1,
        get params "amplitude" = Some amplitude ∧ index amplitude 0 = OK a0 ∧
        get params "frequency" = Some frequency ∧ index frequency 0 = OK f0 ∧
        index frequency 1 = OK f1 ∧
        targ_type_attr a = {[ "target_amplitude" := a0; "target_frequency_init" := f0;
                              "target_frequency_final" := f1 ]})).
Proof.
  intros H. apply parseparams_ok in H
    as (? & ? & ? & duration & offset & offset0 & padDur & tattr &
        _ & _ & _ & Hd & Ho & Ho0 & Hp & Hty & _ & _ & HT & HTT & _).
  apply targ_type_of_ok in Hty as (ty & Hty & Hcases).
  exists duration, offset, offset0, padDur, ty. rewrite HTT. by repeat (split; [done|]).
Qed.

(** X11. A record that lacks one of the keys [frcMax], [frcOff], [frcPol],
    [duration], [offset], [padDur] and [type] does not parse: [parseparams]
    raises, with the [KeyError] of a key that the record lacks, or before
    that with the error of reading the first element of [offset]. *)
Theorem parseparams_missing_key params k :
  k ∈ ["frcMax"; "frcOff"; "frcPol"; "duration"; "offset"; "padDur"; "type"] →
  get params k = None →
  ∃ e, parseparams params = Err e ∧
       (e = IndexError ∨ e = TypeError ∨
        ∃ k', e = KeyError k' ∧ get params k' = None).
Proof.
  intros Hk Hnone. unfold parseparams, getitem.
  destruct (get params "frcMax") as [frcMax|] eqn:H1;
    [|eexists; split; [done|]; right; right; by eexists].
  destruct (get params "frcOff") as [frcOff|] eqn:H2;
    [|eexists; split; [done|]; right; right; by eexists].
  destruct (get params "frcPol") as [frcPol|] eqn:H3;
    [|eexists; split; [done|]; right; right; by eexists].
  cbn [res_bind].
  destruct (stim_on params);
  (destruct (get params "duration") as [duration|] eqn:H4;
    [|eexists; split; [done|]; right; right; by eexists];
  destruct (get params "offset") as [offset|] eqn:H5;
    [|eexists; split; [done|]; right; right; by eexists];
  cbn [res_bind];
  destruct (index offset 0) as [offset0|e] eqn:H6;
    [|exists e; split; [done|];
      destruct offset as [|str|l]; cbn in H6;
        [injection H6 as <-; by right; left
        |destruct str; [injection H6 as <-; by left|done]
        |destruct l; [injection H6 as <-; by left|done]]];
  cbn [res_bind];
  destruct (get params "padDur") as [padDur|] eqn:H7;
    [|eexists; split; [done|]; right; right; by eexists];
  cbn [res_bind];
  unfold targ_type_of, getitem;
  destruct (get params "type") as [ty|] eqn:H8;
    [|eexists; split; [done|]; right; right; by eexists];
  exfalso;
  repeat (apply elem_of_cons in Hk as [->|Hk]; [congruence|]);
  by apply elem_of_nil in Hk).
Qed.

(** ** The dictionary of all the attributes *)

Lemma stim_field_prefix k f : stim_field k = Some f → ∃ x, f = "stim_" +:+ x.
Proof.
  unfold stim_field. destruct (re_search match_stim k) as [g|]; [|done].
  case_bool_decide; [|done]. intros [= <-]. by eexists.
Qed.

Ltac lookup_cases H :=
  repeat (apply lookup_insert_Some in H as [[<- _]|[_ H]]);
  [..|first [apply lookup_singleton_Some in H as [<- _]
            |by rewrite lookup_empty in H]].

Lemma union_lookup_disjoint (m1 m2 : gmap string val) k v :
  (∀ x y, m1 !! k = Some x → m2 !! k = Some y → False) →
  (m1 ∪ m2) !! k = Some v ↔ m1 !! k = Some v ∨ m2 !! k = Some v.
Proof.
  intros Hd. rewrite lookup_union_Some_raw. split; [tauto|].
  intros [H|H]; [by left|]. right. split; [|done].
  destruct (m1 !! k) as [x|] eqn:Hx; [|done]. destruct (Hd x v eq_refl H).
Qed.

Ltac key_clash H1 H2 :=
  exfalso; clear -H1 H2;
  repeat (apply elem_of_cons in H1 as [->|H1];
          [repeat (apply elem_of_cons in H2 as [H2|H2]; [discriminate H2|]);
           by apply elem_of_nil in H2|]);
  by apply elem_of_nil in H1.

(** X12. The dictionary that restricts the condition query (line 288)
    holds every attribute of the four groups with its value: no attribute
    of one group is overwritten by an attribute of another. *)
Theorem all_cond_attr_complete params a q t :
  parseparams params = OK (a, q, t) →
  ∀ k v, all_cond_attr a !! k = Some v ↔
         force_attr a !! k = Some v ∨ stim_attr a !! k = Some v ∨
         targ_attr a !! k = Some v ∨ targ_type_attr a !! k = Some v.
Proof.
  intros Hparse k v. apply parseparams_ok in Hparse
    as (frcMax & frcOff & frcPol & duration & offset & offset0 & padDur & tattr &
        _ & _ & _ & _ & _ & _ & _ & Hty & HF & HS & HT & HTT & _).
  assert (∀ x, force_attr a !! k = Some x →
               k ∈ ["force_max"; "force_offset"; "force_inverted"]) as HFk.
  { intros z0 Hx. rewrite HF in Hx. lookup_cases Hx; compute_done. }
  assert (∀ x, targ_attr a !! k = Some x →
               k ∈ ["target_duration"; "target_offset"; "target_pad"]) as HTk.
  { intros z0 Hx. rewrite HT in Hx. lookup_cases Hx; compute_done. }
  assert (∀ x, targ_type_attr a !! k = Some x →
               k ∈ ["target_amplitude"; "target_frequency";
                    "target_frequency_init"; "target_frequency_final"]) as HTTk.
  { intros z0 Hx. rewrite HTT in Hx.
    apply targ_type_of_ok in Hty
      as (ty & _ & [(_ & _ & ->)|[(_ & _ & amp & a0 & _ & _ & ->)|
                    [(_ & _ & amp & a0 & fr & f0 & _ & _ & _ & _ & ->)|
                     (_ & _ & amp & a0 & fr & f0 & f1 & _ & _ & _ & _ & _ & ->)]]]);
      lookup_cases Hx; compute_done. }
  assert (∀ x, stim_attr a !! k = Some x → ∃ y, k = "stim_" +:+ y) as HSk.
  { intros z0 Hx. rewrite HS in Hx. destruct (stim_on params); [|done].
    apply stim_attr_of_source in Hx as (k0 & _ & Hk0). by eapply stim_field_prefix. }
  assert (∀ y l, "stim_" +:+ y ∈ l →
            Forall (λ n, String.prefix "stim_" n = false) l → False) as Hstim.
  { intros y l Hin Hall. rewrite Forall_forall in Hall.
    specialize (Hall _ Hin). rewrite !append_cons, append_nil in Hall.
    cbn in Hall. by destruct y. }
  unfold all_cond_attr. cbn [foldl]. unfold dict_update.
  rewrite (right_id_L ∅ (∪)).
  rewrite union_lookup_disjoint.
  2:{ intros z0 z1 Hx Hy. apply HTTk in Hx.
      apply lookup_union_Some_raw in Hy as [Hy|[_ Hy]].
      { apply HTk in Hy. key_clash Hx Hy. }
      apply lookup_union_Some_raw in Hy as [Hy|[_ Hy]].
      { apply HSk in Hy as [z ->]. apply (Hstim _ _ Hx). by repeat constructor. }
      apply HFk in Hy. key_clash Hx Hy. }
  rewrite union_lookup_disjoint.
  2:{ intros z0 z1 Hx Hy. apply HTk in Hx.
      apply lookup_union_Some_raw in Hy as [Hy|[_ Hy]].
      { apply HSk in Hy as [z ->]. apply (Hstim _ _ Hx). by repeat constructor. }
      apply HFk in Hy. key_clash Hx Hy. }
  rewrite union_lookup_disjoint.
  2:{ intros z0 z1 Hx Hy. apply HSk in Hx as [z ->]. apply HFk in Hy.
      apply (Hstim _ _ Hy). by repeat constructor. }
  tauto.
Qed.

(** ** The directory of the behavior files *)

Lemma str_split_nonempty c s : ∃ x xs, str_split c s = x :: xs.
Proof.
  induction s as [|a s (x & xs & IH)]; [by eexists _, _|]. cbn [str_split].
  case_bool_decide; [by eexists _, _|]. rewrite IH. by eexists _, _.
Qed.

Lemma str_split_no_sep c s :
  (∀ a, a ∈ list_ascii_of_string s → a ≠ c) → str_split c s = [s].
Proof.
  induction s as [|a s IH]; intros Hs; [done|]. cbn [str_split].
  rewrite bool_decide_false by (apply Hs; by left).
  rewrite IH; [done|]. intros b Hb. apply Hs. by right.
Qed.

Lemma str_split_app c d f :
  str_split c (d +:+ String c f) = str_split c d ++ str_split c f.
Proof.
  induction d as [|a d IH].
  - rewrite append_nil. cbn [str_split]. by rewrite bool_decide_true.
  - rewrite append_cons. cbn [str_split]. case_bool_decide; [by rewrite IH|].
    rewrite IH. by destruct (str_split_nonempty c d) as (x & xs & ->).
Qed.

Lemma str_join_split c s : str_join (String c EmptyString) (str_split c s) = s.
Proof.
  unfold str_join. induction s as [|a s IH]; [done|]. cbn [str_split].
  destruct (str_split_nonempty c s) as (x & xs & Hs). rewrite Hs in *.
  case_bool_decide as Ha.
  - subst a. cbn [String.concat]. cbn [String.concat] in IH. by rewrite IH.
  - cbn [String.concat] in *. destruct xs; [by rewrite IH|].
    rewrite append_cons. by rewrite IH.
Qed.

Lemma append_nil_r s : s +:+ EmptyString = s.
Proof. induction s as [|a s IH]; [done|]. by rewrite append_cons, IH. Qed.

Lemma append_assoc s t u : (s +:+ t) +:+ u = s +:+ (t +:+ u).
Proof. induction s as [|a s IH]; [done|]. by rewrite !append_cons, IH. Qed.

Lemma str_join_snoc_empty c l :
  l ≠ [] → str_join (String c EmptyString) (l ++ [EmptyString]) = str_join (String c EmptyString) l +:+ String c EmptyString.
Proof.
  unfold str_join. induction l as [|x l IH]; [done|]. intros _.
  destruct l as [|y l].
  - cbn [app String.concat]. by rewrite append_nil_r.
  - cbn [app String.concat] in *. rewrite IH by done.
    by rewrite !append_assoc.
Qed.

(** X13. The directory in which [make] looks for the trial files is the
    path of the summary file up to and with its last separator: for a
    summary file [f] in the directory [d] it is [d] followed by the
    separator; for a path without a separator it is the empty string. *)
Theorem behavior_path_of_file (d f : string) :
  (∀ a, a ∈ list_ascii_of_string f → a ≠ sep) →
  behavior_path_of (d +:+ String sep f) = d +:+ String sep EmptyString ∧
  behavior_path_of f = EmptyString.
Proof.
  intros Hf. unfold behavior_path_of. split.
  - rewrite str_split_app, (str_split_no_sep _ f Hf).
    rewrite removelast_last.
    rewrite str_join_snoc_empty; [by rewrite str_join_split|].
    by destruct (str_split_nonempty sep d) as (x & xs & ->).
  - by rewrite (str_split_no_sep _ f Hf).
Qed.

(** ** The names of the two files of a trial *)

Lemma prefix_empty s : String.prefix EmptyString s = true.
Proof. by destruct s. Qed.

Lemma prefix_app_other old u c x :
  c ∉ list_ascii_of_string old →
  String.prefix old (u +:+ String c x) = String.prefix old u.
Proof.
  revert u. induction old as [|a old IH]; intros u Hc.
  { by rewrite !prefix_empty. }
  assert (a ≠ c) as Hac by (intros ->; apply Hc; by left).
  assert (c ∉ list_ascii_of_string old) as Hc' by (intros ?; apply Hc; by right).
  destruct u as [|b u].
  - rewrite append_nil. by rewrite prefix_head_ne.
  - rewrite append_cons. cbn [String.prefix].
    destruct (Ascii.ascii_dec a b); [by apply IH|done].
Qed.

Lemma str_drop_app old u y :
  String.prefix old u = true →
  str_drop (String.length old) (u +:+ y) = str_drop (String.length old) u +:+ y.
Proof.
  revert u. induction old as [|a old IH]; intros u; [done|].
  destruct u as [|b u]; [done|]. cbn [String.prefix].
  destruct (Ascii.ascii_dec a b); [|done]. intros Hp.
  rewrite append_cons. cbn [String.length str_drop]. by apply IH.
Qed.

(** A replacement does not reach over a character that the replaced word
    does not have. *)
Lemma replace_from_app_other o0 orest n0 nrest c u x :
  c ∉ list_ascii_of_string (String o0 orest) →
  replace_from (String o0 orest) (String n0 nrest) 0 (u +:+ String c x)
  = replace_from (String o0 orest) (String n0 nrest) 0 u
    +:+ String c (replace_from (String o0 orest) (String n0 nrest) 0 x).
Proof.
  intros Hc. remember (String.length u) as n eqn:Hn.
  assert (String.length u ≤ n)%nat as Hle by lia. clear Hn.
  revert u Hle. induction n as [|n IH]; intros u Hle.
  { destruct u; [|simpl in Hle; lia]. rewrite append_nil.
    rewrite R_unfold. rewrite prefix_head_ne; [done|].
    intros ->. apply Hc. by left. }
  destruct u as [|b u].
  { rewrite append_nil. rewrite R_unfold. rewrite prefix_head_ne; [done|].
    intros ->. apply Hc. by left. }
  rewrite append_cons, !R_unfold. rewrite <- append_cons.
  rewrite (prefix_app_other _ (String b u)) by done.
  destruct (String.prefix (String o0 orest) (String b u)) eqn:Hp.
  - rewrite str_drop_app by done. rewrite IH.
    + by rewrite append_assoc.
    + cbn [String.length str_drop]. simpl in Hle.
      pose proof (str_drop_length (String.length orest) u). lia.
  - rewrite append_cons. rewrite IH; [done|]. simpl in Hle. lia.
Qed.

(** X14. The change of the extension word keeps the trial number: a
    parameter file and a data file that the code pairs by name (the test
    of line 276, the test of line 343) carry the same number after their
    [beh_]. *)
Theorem paired_files_same_trial (f_param f_data : string) :
  str_replace f_param "params" "data" = f_data ∨
  str_replace f_data "data" "params" = f_param →
  trial_token f_param = trial_token f_data.
Proof.
  intros [<-|<-]; [by rewrite token_params_data|by rewrite token_data_params].
Qed.

(** X15. The name of the counterpart of a trial file: in [stem.params] the
    replacement of line 276 gives the stem with its own [params] replaced,
    followed by [.data], and in [stem.data] the replacement of line 343
    gives the stem with its own [data] replaced, followed by [.params]:
    the replacement works on the whole name, not on the extension only. *)
Theorem counterpart_name (stem : string) :
  str_replace (stem +:+ ".params") "params" "data"
  = str_replace stem "params" "data" +:+ ".data" ∧
  str_replace (stem +:+ ".data") "data" "params"
  = str_replace stem "data" "params" +:+ ".params".
Proof.
  unfold str_replace. split.
  - change ".params" with (String "." "params").
    rewrite replace_from_app_other; [done|]. compute_done.
  - change ".data" with (String "." "data").
    rewrite replace_from_app_other; [done|]. compute_done.
Qed.

(** ** One trial row for each data file that has its parameter file *)

Lemma list_find_eq_Some (x : string) (l : list string) :
  x ∈ l → ∃ i, list_find (λ f, x = f) l = Some (i, x).
Proof.
  intros Hin. destruct (list_find (λ f, x = f) l) as [[i y]|] eqn:Hfind.
  - apply list_find_Some in Hfind as (_ & <- & _). by exists i.
  - apply list_find_None in Hfind. rewrite Forall_forall in Hfind.
    by destruct (Hfind x Hin).
Qed.

Lemma list_find_eq_None (x : string) (l : list string) :
  x ∉ l → list_find (λ f, x = f) l = None.
Proof.
  intros Hin. apply list_find_None, Forall_forall. by intros y Hy ->.
Qed.

(** The condition query reads the registry only. *)
Lemma eval_registry rpk (s s' : store) params a q t :
  parseparams params = OK (a, q, t) →
  (∀ t', ¬ trial_table t' → s' t' = s t') →
  eval rpk s' q = eval rpk s q.
Proof.
  intros Hparse Hs. pose proof (parseparams_rel _ _ _ _ Hparse) as Ht.
  apply parseparams_ok in Hparse
    as (? & ? & ? & ? & ? & ? & ? & ? & _ & _ & _ & _ & _ & _ & _ & _ & _ & _ & _ & _ & ->).
  assert (s' Force = s Force ∧ s' Stim = s Stim ∧ s' Target = s Target ∧ s' t = s t)
    as (HF & HS & HT & Hty).
  { repeat split; apply Hs; intros [|]; try discriminate;
      destruct Ht as [-> | [-> | [-> | ->]]]; discriminate. }
  destruct (stim_on params); cbn [eval]; by rewrite HF, HS, HT, Hty.
Qed.

(** What a pass of the second loop that returns has written and
    printed. *)
Lemma populate_trial_ok E key bp fs ss pfs d s s' o :
  populate_trial E key bp fs ss pfs d s = (OK tt, s', o) →
  if decide (has_params pfs d)
  then ∃ row, s' Behavior_Trial = s Behavior_Trial ++ [row] ∧
              trial_row_of E key bp fs ss s d row ∧ o = []
  else s' Behavior_Trial = s Behavior_Trial ∧
       ∃ line, missing_params_line d line ∧ o = [line].
Proof.
  unfold populate_trial. intros H.
  apply bind_run in H as [(tok & s0 & ? & ? & Htok & H & ->)|(e & _ & [=])].
  injection Htok as Htok <- <-.
  apply bind_run in H as [(n & s0 & ? & ? & Hn & H & ->)|(e & _ & [=])].
  injection Hn as Hn <- <-.
  case_decide as Hp.
  2:{ rewrite list_find_eq_None in H by done. injection H as <- <-.
      split; [done|]. eexists. split; [by exists tok, n|done]. }
  destruct (list_find_eq_Some _ _ Hp) as [i Hfind]. rewrite Hfind in H.
  apply bind_run in H as [(params & s0 & ? & ? & Hparams & H & ->)|(e & _ & [=])].
  injection Hparams as Hparams <- <-.
  apply bind_run in H as [([[a q] t] & s0 & ? & ? & Hparse & H & ->)|(e & _ & [=])].
  injection Hparse as Hparse <- <-.
  apply bind_run in H as [(data & s0 & ? & ? & Hdata & H & ->)|(e & _ & [=])].
  injection Hdata as Hdata <- <-.
  apply bind_run in H as [(ck & s1 & o1 & o2 & Hck & H & ->)|(e & _ & [=])].
  assert (s1 Behavior_Trial = s Behavior_Trial ∧ o1 = [] ∧
          ∃ c, ck = key ∪ {[ "condition_id" := c ]} ∧
               key ##ₘ {[ "condition_id" := c ]} ∧
               fetch1 (eval (recording_pk E) s (QRestrict q (all_cond_attr a)))
                      "condition_id" = OK c) as (Hs1 & -> & c & -> & Hdc & Hc).
  { unfold insert_condition_data in Hck.
    apply bind_run in Hck as [(c & s2 & ? & ? & Hc & Hck & ->)|(e & _ & [=])].
    apply fetch_condition_id_run in Hc as (-> & -> & Hc).
    apply bind_run in Hck as [(ck' & s2 & ? & ? & Hm & Hck & ->)|(e & _ & [=])].
    injection Hm as Hm <- <-. unfold kw_merge in Hm. case_decide; [|done].
    injection Hm as <-.
    apply bind_run in Hck as [([] & s2 & ? & ? & Hins & Hck & ->)|(e & _ & [=])].
    injection Hck as <- <- <-.
    assert (¬ (Behavior_Condition = Behavior_Trial)) as Hne by done.
    split; [exact (preserves_insert1 (λ t, t = Behavior_Trial) _ _ _ _ Hne
                     _ _ _ _ Hins Behavior_Trial eq_refl)|].
    apply insert1_run in Hins as [-> _]. split; [done|]. by exists c. }
  unfold insert_trial_data in H.
  apply bind_run in H as [(row0 & s2 & ? & ? & Hm & H & ->)|(e & _ & [=])].
  injection Hm as Hm <- <-. unfold kw_merge in Hm. case_decide as Hd0; [|done].
  injection Hm as <-.
  apply bind_run in H as [(tag & s2 & ? & ? & Htag & H & ->)|(e & _ & [=])].
  injection Htag as Htag <- <-.
  apply bind_run in H as [(row & s2 & ? & ? & Hm & H & ->)|(e & _ & [=])].
  injection Hm as Hm <- <-. unfold kw_merge in Hm. case_decide as Hd; [|done].
  injection Hm as <-.
  apply insert1_run in H as [-> H].
  destruct (insert_row _ _ _ _ _) as [rows|e] eqn:Hrow; destruct H as [[=] ->].
  apply insert_row_ok in Hrow as [(_ & [=] & _)|[-> _]].
  eexists. rewrite set_table_same, Hs1. split; [done|]. split; [|done]. split.
  - etrans; [|apply map_union_subseteq_l]. etrans; [|apply map_union_subseteq_l].
    apply map_union_subseteq_l.
  - exists tok, n, params, a, q, t, c, data.
    do 2 (split; [done|]). split.
    { rewrite lookup_union_r; [apply lookup_insert_eq|].
      apply (map_disjoint_Some_r _ _ _ (VNum n) Hd), lookup_insert_eq. }
    split; [done|]. split.
    { rewrite lookup_union_r.
      - rewrite lookup_insert_ne by done. rewrite lookup_singleton_eq.
        unfold getitem in Htag. by destruct (get params "saveTag"); simplify_eq.
      - apply (map_disjoint_Some_r _ _ _ tag Hd).
        rewrite lookup_insert_ne by done. apply lookup_singleton_eq. }
    do 2 (split; [done|]). split.
    { apply lookup_union_Some_l, lookup_union_Some_l.
      rewrite lookup_union_r; [apply lookup_singleton_eq|].
      apply (map_disjoint_Some_r _ _ _ c Hdc), lookup_singleton_eq. }
    split; [done|].
    etrans; [|apply map_union_subseteq_l]. by apply map_union_subseteq_r.
Qed.

Lemma trial_row_of_registry E key bp fs ss (s s' : store) d r :
  (∀ t', ¬ trial_table t' → s' t' = s t') →
  trial_row_of E key bp fs ss s d r → trial_row_of E key bp fs ss s' d r.
Proof.
  intros Hs [Hkey (tok & n & params & a & q & t & c & data & H1 & H2 & H3 & H4 & H5 &
                   Hparse & Hc & H6 & H7 & H8)].
  split; [done|]. exists tok, n, params, a, q, t, c, data.
  do 6 (split; [done|]). split; [|done].
  cbn [eval] in *. by rewrite (eval_registry _ s s' params a q t Hparse Hs).
Qed.

Lemma populate_trials_ok E key bp fs ss pfs dfs s s' o :
  for_each dfs (populate_trial E key bp fs ss pfs) s = (OK tt, s', o) →
  ∃ new,
    s' Behavior_Trial = s Behavior_Trial ++ new ∧
    Forall2 (trial_row_of E key bp fs ss s') (filter (has_params pfs) dfs) new ∧
    Forall2 missing_params_line (filter (λ d, ¬ has_params pfs d) dfs) o.
Proof.
  revert s o. induction dfs as [|d dfs IH]; intros s o H.
  { injection H as <- <-. exists []. by rewrite app_nil_r. }
  cbn [for_each] in H.
  apply bind_run in H as [([] & s1 & o1 & o2 & Hd & H & ->)|(e & _ & [=])].
  assert (∀ t', ¬ trial_table t' → s' t' = s1 t') as Hrest.
  { intros t' Ht'.
    refine (preserves_for_each (λ t, ¬ trial_table t) _ _ _ _ _ _ _ H t' Ht').
    intros f _. apply preserves_populate_trial. }
  assert (∀ t', ¬ trial_table t' → s1 t' = s t') as Hhead.
  { intros t' Ht'. exact (preserves_populate_trial _ _ _ _ _ _ _ _ _ _ _ Hd t' Ht'). }
  apply populate_trial_ok in Hd. destruct (IH _ _ H) as (new & Hnew & Hall & Hout).
  rewrite !filter_cons. case_decide as Hp.
  - destruct Hd as (row & Hrow & Hrow_of & ->). exists (row :: new).
    rewrite Hnew, Hrow, <- app_assoc. split; [done|].
    rewrite decide_False by (intros Hnot; by apply Hnot). split; [|done].
    constructor; [|done]. apply (trial_row_of_registry _ _ _ _ _ s); [|done].
    intros t' Ht'. by rewrite Hrest, Hhead.
  - destruct Hd as (Hsame & line & Hline & ->). exists new.
    rewrite decide_True by done. rewrite Hnew, Hsame. split; [done|].
    split; [done|]. by constructor.
Qed.

(** ** The lines that the first loop prints *)

Lemma populate_condition_output E bp dfs f s s' o :
  populate_condition E bp dfs f s = (OK tt, s', o) →
  if decide (has_data dfs f) then o = []
  else ∃ line, missing_data_line f line ∧ o = [line].
Proof.
  unfold populate_condition. intros H.
  apply bind_run in H as [(tok & s0 & ? & ? & Htok & H & ->)|(e & _ & [=])].
  injection Htok as Htok <- <-.
  destruct (decide (has_data dfs f)) as [Hp|Hp]; unfold has_data in Hp.
  - rewrite bool_decide_false in H by (intros Hnot; by apply Hnot).
    lazymatch type of H with ?m _ = _ => assert (silent m) as Hsil end.
    { apply silent_bind; [apply silent_lift|]. intros params.
      apply silent_bind; [apply silent_lift|]. intros [[a q] t].
      apply silent_insert_condition. }
    exact (Hsil _ _ _ _ H).
  - rewrite bool_decide_true in H by done. injection H as _ <-.
    eexists. split; [by exists tok|done].
Qed.

Lemma populate_conditions_output E bp dfs pfs s s' o :
  for_each pfs (populate_condition E bp dfs) s = (OK tt, s', o) →
  Forall2 missing_data_line (filter (λ f, ¬ has_data dfs f) pfs) o.
Proof.
  revert s o. induction pfs as [|f pfs IH]; intros s o H.
  { injection H as _ <-. constructor. }
  cbn [for_each] in H.
  apply bind_run in H as [([] & s1 & o1 & o2 & Hf & H & ->)|(e & _ & [=])].
  apply populate_condition_output in Hf. specialize (IH _ _ H).
  rewrite filter_cons. case_decide as Hp.
  - rewrite decide_False by (intros Hnot; by apply Hnot). by subst o1.
  - rewrite decide_True by done. destruct Hf as (line & Hline & ->). by constructor.
Qed.

(** What a run on a Speedgoat recording that returns has written to
    Behavior.Trial and what it has printed. *)
Lemma make_run_ok (E : env) (key : gmap string val) files path fs path'
    s s' o :
  fetch_recording E key = OK (path, fs) →
  ensurelocal E path = OK path' →
  fetch_task_controller E key = OK "Speedgoat" →
  make (with_files E files) key s = (OK tt, s', o) →
  let param_files := filter (λ f, endswith f ".params") files in
  let data_files := filter (λ f, endswith f ".data") files in
  ∃ ss new o1 o2,
    fetch1 (eval (recording_pk E) s'
              (QRestrict (QTable TaskState) {[ "task_state_name" := VStr "Success" ]}))
           "task_state_id" = OK ss ∧
    s' Behavior_Trial = s Behavior_Trial ++ new ∧
    Forall2 (trial_row_of E key (behavior_path_of path') fs ss s')
            (filter (has_params param_files) data_files) new ∧
    o = o1 ++ o2 ∧
    Forall2 missing_data_line (filter (λ f, ¬ has_data data_files f) param_files) o1 ∧
    Forall2 missing_params_line (filter (λ d, ¬ has_params param_files d) data_files) o2.
Proof.
  intros Hrec Hloc Hhw. unfold make.
  cbn [recording_pk fetch_recording ensurelocal fetch_task_controller
       readtaskstates listdir with_files].
  intros H.
  apply bind_run in H as [([] & s1 & ? & ? & H1 & H & ->)|(e & _ & [=])].
  assert (s1 Behavior_Trial = s Behavior_Trial) as Hs1.
  { assert (¬ (Behavior = Behavior_Trial)) as Hne by done.
    exact (preserves_insert1 (λ t, t = Behavior_Trial) _ _ _ _ Hne
             _ _ _ _ H1 Behavior_Trial eq_refl). }
  apply insert1_run in H1 as [-> _].
  rewrite (bind_lift_ok _ _ (path, fs)) in H by done.
  rewrite (bind_lift_ok _ _ path') in H by done.
  rewrite (bind_lift_ok _ _ "Speedgoat") in H by done.
  rewrite bool_decide_true in H by done.
  apply bind_run in H as [(summary & s2 & ? & ? & H2 & H & ->)|(e & _ & [=])].
  injection H2 as _ <- <-.
  apply bind_run in H as [([] & s3 & ? & ? & H3 & H & ->)|(e & _ & [=])].
  assert (s3 Behavior_Trial = s1 Behavior_Trial) as Hs3.
  { assert (¬ (TaskState = Behavior_Trial)) as Hne by done.
    exact (preserves_insert (λ t, t = Behavior_Trial) _ _ _ _ Hne
             _ _ _ _ H3 Behavior_Trial eq_refl). }
  apply (silent_for_each _ _ (λ r, silent_insert1 _ _ r _)) in H3 as ->.
  rewrite (bind_lift_ok (OK files) _ files) in H by done.
  apply bind_run in H as [([] & s4 & o1 & ? & H4 & H & ->)|(e & _ & [=])].
  assert (s4 Behavior_Trial = s3 Behavior_Trial) as Hs4.
  { refine (preserves_for_each trial_table _ _ _ _ _ _ _ H4 Behavior_Trial _);
      [|by right].
    intros f _. apply preserves_populate_condition. }
  apply populate_conditions_output in H4.
  rewrite bind_query in H.
  apply bind_run in H as [(ss & s5 & ? & o2 & H5 & H & ->)|(e & _ & [=])].
  injection H5 as H5 <- <-.
  rewrite populate_trial_with_files in H.
  assert (∀ t', ¬ trial_table t' → s' t' = s4 t') as Hrest.
  { intros t' Ht'.
    refine (preserves_for_each (λ t, ¬ trial_table t) _ _ _ _ _ _ _ H t' Ht').
    intros f _. apply preserves_populate_trial. }
  apply populate_trials_ok in H as (new & Hnew & Hall & Hout).
  exists ss, new, o1, o2. cbn [app]. split.
  { cbn [eval] in *. rewrite Hrest; [done|]. by intros [|]. }
  split; [by rewrite Hnew, Hs4, Hs3, Hs1|]. by repeat (split; [done|]).
Qed.

(** X16. A run on a Speedgoat recording that returns has appended to
    Behavior.Trial one row for each data file that has its parameter
    file, in the order of the directory, and no other row; a data file
    without its parameter file gives no row.  The row of a data file has
    the fields of the key of the recording, the number read from the
    file's name as [trial_number], the [saveTag] of its parameter file as
    [save_tag], as [condition_id] the identifier of the one condition of
    the registry that matches the record of the parameter file, and the
    fields that the reader gives for the data file, the sample rate of the
    recording and the identifier of the task state [Success]. *)
Theorem make_trial_rows (E : env) (key : gmap string val) files path fs path'
    s s' o :
  fetch_recording E key = OK (path, fs) →
  ensurelocal E path = OK path' →
  fetch_task_controller E key = OK "Speedgoat" →
  make (with_files E files) key s = (OK tt, s', o) →
  let param_files := filter (λ f, endswith f ".params") files in
  let data_files := filter (λ f, endswith f ".data") files in
  ∃ ss new,
    fetch1 (eval (recording_pk E) s'
              (QRestrict (QTable TaskState) {[ "task_state_name" := VStr "Success" ]}))
           "task_state_id" = OK ss ∧
    s' Behavior_Trial = s Behavior_Trial ++ new ∧
    Forall2 (trial_row_of E key (behavior_path_of path') fs ss s')
            (filter (has_params param_files) data_files) new.
Proof.
  intros Hrec Hloc Hhw H.
  destruct (make_run_ok E key files path fs path' s s' o Hrec Hloc Hhw H)
    as (ss & new & o1 & o2 & Hss & Hnew & Hall & _).
  by exists ss, new.
Qed.

(** X17. What a run on a Speedgoat recording that returns has printed: one
    line for each parameter file without its data file, in the order of
    the directory, then one line for each data file without its parameter
    file, and nothing else.  The line of a parameter file shows the digits
    that follow [beh_] in its name as they stand, the line of a data file
    shows them as a number. *)
Theorem make_printed_lines (E : env) (key : gmap string val) files s s' o :
  fetch_task_controller E key = OK "Speedgoat" →
  make (with_files E files) key s = (OK tt, s', o) →
  let param_files := filter (λ f, endswith f ".params") files in
  let data_files := filter (λ f, endswith f ".data") files in
  ∃ o1 o2,
    o = o1 ++ o2 ∧
    Forall2 missing_data_line (filter (λ f, ¬ has_data data_files f) param_files) o1 ∧
    Forall2 missing_params_line (filter (λ d, ¬ has_params param_files d) data_files) o2.
Proof.
  intros Hhw H.
  assert (∃ path fs path', fetch_recording E key = OK (path, fs) ∧
                           ensurelocal E path = OK path') as (path & fs & path' & Hrec & Hloc).
  { unfold make in H.
    cbn [recording_pk fetch_recording ensurelocal fetch_task_controller
         readtaskstates listdir with_files] in H.
    apply bind_run in H as [([] & s1 & ? & ? & _ & H & _)|(e & _ & [=])].
    apply bind_run in H as [([path fs] & s2 & ? & ? & H2 & H & _)|(e & _ & [=])].
    apply bind_run in H as [(path' & s3 & ? & ? & H3 & H & _)|(e & _ & [=])].
    exists path, fs, path'. unfold lift in H2, H3. split; congruence. }
  destruct (make_run_ok E key files path fs path' s s' o Hrec Hloc Hhw H)
    as (ss & new & o1 & o2 & _ & _ & _ & Ho & Ho1 & Ho2).
  by exists o1, o2.
Qed.

(** ** A new condition is found under its new identifier *)

(** A join of two relations that have each got one more row, when the new
    rows agree with each other and with no old row. *)
Lemma join_snoc (A B A' B' : relation) a b :
  rel_heading A' = rel_heading A → rel_rows A' = rel_rows A ++ [a] →
  rel_heading B' = rel_heading B → rel_rows B' = rel_rows B ++ [b] →
  (∀ a0, a0 ∈ rel_rows A →
         ¬ agree (common (rel_heading A) (rel_heading B)) a0 b) →
  (∀ b0, b0 ∈ rel_rows B →
         ¬ agree (common (rel_heading A) (rel_heading B)) a b0) →
  agree (common (rel_heading A) (rel_heading B)) a b →
  rel_heading (join A' B') = rel_heading (join A B) ∧
  rel_rows (join A' B') = rel_rows (join A B) ++ [a ∪ b].
Proof.
  intros HhA HrA HhB HrB Hold_a Hold_b Hnew. unfold join. cbn [rel_heading rel_rows].
  rewrite HhA, HhB, HrA, HrB. split; [done|].
  rewrite bind_app, bind_singleton. f_equal.
  - apply Forall_bind_ext, Forall_forall. intros a0 Ha0.
    rewrite bind_app, bind_singleton.
    rewrite (decide_False (P := agree _ a0 b)) by by apply Hold_a.
    by rewrite app_nil_r.
  - rewrite bind_app, bind_singleton. rewrite decide_True by done.
    replace (rel_rows B ≫= _) with (@nil (gmap string val)); [done|].
    symmetry. clear HrB Hold_a. induction (rel_rows B) as [|b0 l IH]; [done|].
    rewrite bind_cons. rewrite decide_False by (apply Hold_b; by left).
    apply IH. intros b1 Hb1. apply Hold_b. by right.
Qed.

(** A difference whose left side has got one more row, which agrees with
    no row of the right side. *)
Lemma minus_snoc (A B A' : relation) a :
  rel_heading A' = rel_heading A → rel_rows A' = rel_rows A ++ [a] →
  (∀ b0, b0 ∈ rel_rows B →
         ¬ agree (common (rel_heading A) (rel_heading B)) a b0) →
  rel_heading (minus A' B) = rel_heading (minus A B) ∧
  rel_rows (minus A' B) = rel_rows (minus A B) ++ [a].
Proof.
  intros HhA HrA Hnew. unfold minus. cbn [rel_heading rel_rows].
  rewrite HhA, HrA. split; [done|].
  rewrite filter_app. f_equal. rewrite filter_cons_True; [done|].
  by apply Forall_forall.
Qed.

(** The identifier that [new_id] finds in ConditionParams is the
    condition of no part row, when the part rows refer to registered
    conditions. *)
Lemma new_condition_fresh rpk s c t r :
  references rpk s →
  new_id (s ConditionParams) "condition_id" = OK c →
  t ∈ [Force; Stim; Target; Static; Ramp; Sine; Chirp] →
  r ∈ s t → r !! "condition_id" ≠ Some (VNum c).
Proof.
  intros HI Hc Ht Hr Heq.
  assert (∀ r, r ∈ s Force ∨ r ∈ s Stim ∨ r ∈ s Target →
               r !! "condition_id" ≠ Some (VNum c)) as Hpart.
  { intros r0 Hr0 Heq0.
    assert (refers (s ConditionParams) ["condition_id"] r0) as (cp & Hcp & Hagree).
    { destruct Hr0 as [Hr0|[Hr0|Hr0]];
        [apply (HI Force)|apply (HI Stim)|apply (HI Target)]; try done;
        unfold foreign_keys; compute_done. }
    destruct (Hagree "condition_id") as [_ Hsame]; [by left|].
    apply (new_id_fresh _ _ _ _ Hc Hcp). congruence. }
  assert (∀ t, t ∈ [Static; Ramp; Sine; Chirp] → ∀ r, r ∈ s t →
               r !! "condition_id" ≠ Some (VNum c)) as Htype.
  { intros t0 Ht0 r0 Hr0 Heq0.
    assert (refers (s Target) ["condition_id"; "target_id"] r0) as (tg & Htg & Hagree).
    { apply (HI t0); [|done]. unfold foreign_keys.
      repeat (apply elem_of_cons in Ht0 as [->|Ht0]; [compute_done|]).
      by apply elem_of_nil in Ht0. }
    destruct (Hagree "condition_id") as [_ Hsame]; [by left|].
    apply (Hpart tg); [tauto|congruence]. }
  revert Heq. change (r !! "condition_id" ≠ Some (VNum c)).
  do 3 (apply elem_of_cons in Ht as [->|Ht]; [apply Hpart; tauto|]).
  by apply (Htype t).
Qed.

(** What the insertion of a new condition has appended, table by table. *)
Lemma insert_condition_tables E a q t s s' o :
  t = Static ∨ t = Ramp ∨ t = Sine ∨ t = Chirp →
  force_attr a ≠ ∅ → targ_attr a ≠ ∅ →
  nonempty (eval (recording_pk E) s (QRestrict q (all_cond_attr a))) = false →
  insert_condition E a q t s = (OK tt, s', o) →
  ∃ c fid sid tid,
    new_id (s ConditionParams) "condition_id" = OK c ∧
    let ck : gmap string val := {[ "condition_id" := VNum c ]} in
    let f := ck ∪ <["force_id" := fid]> (force_attr a) in
    let st := ck ∪ <["stim_id" := sid]> (stim_attr a) in
    let tg := ck ∪ <["target_id" := tid]> (targ_attr a) in
    let ty := ck ∪ targ_type_attr a ∪ {[ "target_id" := tid ]} in
    s' Force = s Force ++ [f] ∧
    s' Target = s Target ++ [tg] ∧
    s' t = s t ++ [ty] ∧
    (if decide (stim_attr a = ∅) then s' Stim = s Stim
     else s' Stim = s Stim ++ [st] ∧
          ck ##ₘ <["stim_id" := sid]> (stim_attr a) ∧
          (∀ k, is_Some (st !! k) → k ∈ heading (schema_of (recording_pk E) Stim))) ∧
    (∀ k, is_Some (f !! k) → k ∈ heading (schema_of (recording_pk E) Force)) ∧
    (∀ k, is_Some (tg !! k) → k ∈ heading (schema_of (recording_pk E) Target)) ∧
    (∀ k, is_Some (ty !! k) → k ∈ heading (schema_of (recording_pk E) t)) ∧
    ck ##ₘ <["force_id" := fid]> (force_attr a) ∧
    ck ##ₘ <["target_id" := tid]> (targ_attr a) ∧
    ck ##ₘ targ_type_attr a ∧
    (ck ∪ targ_type_attr a) ##ₘ {[ "target_id" := tid ]}.
Proof.
  intros Ht HF HT Hnone. unfold insert_condition. rewrite bind_query, Hnone, bind_query.
  cbn [eval rel_rows].
  destruct (new_id (s ConditionParams) "condition_id") as [c|e] eqn:Hc; [|done].
  rewrite (bind_lift_ok _ _ c) by done. intros H.
  apply bind_run in H as [([] & sC & o1 & o2 & Hins & H & _)|(e & _ & [=])].
  apply insert1_run in Hins as [_ Hins].
  destruct (insert_row _ _ _ _ _) as [rowsC|e] eqn:HrowC; destruct Hins as [[=] ->].
  clear HrowC.
  apply bind_run in H as [(a3 & s3 & o3 & o4 & Hfold & H & _)|(e & _ & [=])].
  cbn [for_fold] in Hfold.
  apply bind_run in Hfold as [(a1 & s1 & ? & ? & HpF & Hfold & _)|(e & _ & [=])].
  apply bind_run in Hfold as [(a2 & s2 & ? & ? & HpS & Hfold & _)|(e & _ & [=])].
  apply bind_run in Hfold as [(a3' & s3' & ? & ? & HpT & Hfold & _)|(e & _ & [=])].
  injection Hfold as -> -> _.
  assert (t ≠ Force ∧ t ≠ Stim ∧ t ≠ Target ∧ t ≠ ConditionParams) as (? & ? & ? & ?)
    by (destruct Ht as [-> | [-> | [-> | ->]]]; done).
  (* Force *)
  apply insert_part_run in HpF
    as [(Hemp & _)|(fid & rowsF & Ha1 & HdF & HrowF & Hs1 & _)]; [done|].
  cbn [get_part part_rel] in HdF, HrowF, Hs1, Ha1.
  change (part_id PForce) with "force_id" in *.
  pose proof (insert_row_fits _ _ _ _ _ _ HrowF) as HfitF.
  apply insert_row_ok in HrowF as [(_ & [=] & _)|[-> _]].
  rewrite set_table_other in Hs1 by done.
  assert (s1 Force = s Force ++ [{[ "condition_id" := VNum c ]}
                                 ∪ <["force_id" := fid]> (force_attr a)] ∧
          s1 Stim = s Stim ∧ s1 Target = s Target ∧ s1 t = s t)
    as (H1F & H1S & H1T & H1t).
  { rewrite Hs1. by rewrite set_table_same, !set_table_other. }
  clear Hs1.
  assert (stim_attr a1 = stim_attr a ∧ targ_attr a1 = targ_attr a ∧
          targ_type_attr a1 = targ_type_attr a) as (HaS1 & HaT1 & HaTy1)
    by by rewrite Ha1.
  clear Ha1.
  (* Stim *)
  assert (∃ sid,
    targ_attr a2 = targ_attr a ∧ targ_type_attr a2 = targ_type_attr a ∧
    s2 Force = s1 Force ∧ s2 Target = s1 Target ∧ s2 t = s1 t ∧
    (if decide (stim_attr a = ∅) then s2 Stim = s Stim
     else s2 Stim = s Stim ++ [{[ "condition_id" := VNum c ]}
                               ∪ <["stim_id" := sid]> (stim_attr a)] ∧
          ({[ "condition_id" := VNum c ]} : gmap string val)
            ##ₘ <["stim_id" := sid]> (stim_attr a) ∧
          (∀ k, is_Some (({[ "condition_id" := VNum c ]}
                          ∪ <["stim_id" := sid]> (stim_attr a)) !! k) →
                k ∈ heading (schema_of (recording_pk E) Stim))))
    as (sid & HaT & HaTy & HsF & HsT & Hst & HsS).
  { apply insert_part_run in HpS
      as [(Hemp & -> & ->)|(sid & rowsS & -> & HdS & HrowS & -> & _)];
      cbn [get_part part_rel] in *; rewrite HaS1 in *.
    - exists (VNum 0). do 5 (split; [done|]). by rewrite decide_True.
    - change (part_id PStim) with "stim_id" in *. exists sid.
      pose proof (insert_row_fits _ _ _ _ _ _ HrowS) as HfitS.
      pose proof (insert_row_required _ _ _ _ _ _ HrowS) as HreqS.
      apply insert_row_ok in HrowS as [(_ & [=] & _)|[-> _]].
      rewrite !set_table_other by done. cbn [set_part targ_attr targ_type_attr].
      do 5 (split; [done|]).
      rewrite decide_False.
      + rewrite set_table_same, H1S. done.
      + intros Hemp. rewrite Hemp in HreqS.
        destruct (HreqS "stim_current") as [v Hv]; [compute_done|].
        rewrite lookup_union_r in Hv by done.
        rewrite lookup_insert_ne in Hv by done. by rewrite lookup_empty in Hv. }
  (* Target *)
  apply insert_part_run in HpT
    as [(Hemp & _)|(tid & rowsT & -> & HdT & HrowT & -> & _)];
    [cbn [get_part] in Hemp; congruence|].
  cbn [get_part part_rel] in HdT, HrowT, H. rewrite HaT in *.
  change (part_id PTarget) with "target_id" in *.
  pose proof (insert_row_fits _ _ _ _ _ _ HrowT) as HfitT.
  apply insert_row_ok in HrowT as [(_ & [=] & _)|[-> _]].
  cbn [set_part targ_attr targ_type_attr] in H. rewrite HaTy in H.
  unfold dict_getitem in H. rewrite lookup_insert_eq in H.
  rewrite (bind_lift_ok _ _ tid) in H by done.
  unfold kw_merge in H.
  destruct (decide (({[ "condition_id" := VNum c ]} : gmap string val)
                      ##ₘ targ_type_attr a)) as [Hd1|]; [|done].
  rewrite (bind_lift_ok _ _ ({[ "condition_id" := VNum c ]} ∪ targ_type_attr a)) in H
    by done.
  destruct (decide (({[ "condition_id" := VNum c ]} ∪ targ_type_attr a)
                      ##ₘ ({[ "target_id" := tid ]} : gmap string val)))
    as [Hd2|]; [|done].
  rewrite (bind_lift_ok _ _ ({[ "condition_id" := VNum c ]} ∪ targ_type_attr a
                             ∪ {[ "target_id" := tid ]})) in H by done.
  apply insert1_run in H as [_ H].
  destruct (insert_row _ t _ _ _) as [rowsTy|e] eqn:HrowTy;
    [destruct H as [_ ->]|by destruct H as [[=] _]].
  pose proof (insert_row_fits _ _ _ _ _ _ HrowTy) as HfitTy.
  apply insert_row_ok in HrowTy as [(_ & [=] & _)|[-> _]].
  exists c, fid, sid, tid. split; [done|]. cbn zeta.
  rewrite set_table_same, !(set_table_other _ t) by done.
  rewrite set_table_same, !(set_table_other _ Target) by done.
  rewrite HsF, HsT, Hst, H1F, H1T, H1t.
  do 3 (split; [done|]). split.
  { exact HsS. }
  by repeat (split; [done|]).
Qed.

Lemma join_extended c A A' B B' a b l :
  extended_by c A A' a → extended_by c B B' b →
  common (rel_heading A) (rel_heading B) = l →
  "condition_id" ∈ l →
  Forall (λ k, a !! k = b !! k) l →
  extended_by c (join A B) (join A' B') (a ∪ b).
Proof.
  intros (HhA & HrA & HfA & Ha) (HhB & HrB & HfB & Hb) <- Hcid Hagree.
  destruct (join_snoc A B A' B' a b HhA HrA HhB HrB) as [Hh Hr]; [| |done|].
  - intros a0 Ha0 Hag. apply (HfA a0 Ha0).
    rewrite (agree_lookup _ _ _ _ Hag Hcid). done.
  - intros b0 Hb0 Hag. apply (HfB b0 Hb0).
    rewrite <- (agree_lookup _ _ _ _ Hag Hcid). done.
  - split; [done|]. split; [done|]. split.
    + intros r Hr0. apply (join_row_shared _ _ _ _ Hcid) in Hr0
        as (a0 & b0 & Ha0 & _ & _ & -> & _). by apply HfA.
    + by apply lookup_union_Some_l.
Qed.

Lemma minus_extended c A A' B a l :
  extended_by c A A' a →
  (∀ b0, b0 ∈ rel_rows B → b0 !! "condition_id" ≠ Some (VNum c)) →
  common (rel_heading A) (rel_heading B) = l →
  "condition_id" ∈ l →
  extended_by c (minus A B) (minus A' B) a.
Proof.
  intros (HhA & HrA & HfA & Ha) HfB <- Hcid.
  destruct (minus_snoc A B A' a HhA HrA) as [Hh Hr].
  - intros b0 Hb0 Hag. apply (HfB b0 Hb0).
    rewrite <- (agree_lookup _ _ _ _ Hag Hcid). done.
  - split; [done|]. split; [done|]. split; [|done].
    intros r Hr0. apply minus_rows in Hr0 as [Hr0 _]. by apply HfA.
Qed.

Lemma table_extended rpk c s s' t x :
  references rpk s →
  new_id (s ConditionParams) "condition_id" = OK c →
  t ∈ [Force; Stim; Target; Static; Ramp; Sine; Chirp] →
  s' t = s t ++ [x] →
  x !! "condition_id" = Some (VNum c) →
  extended_by c (eval rpk s (QTable t)) (eval rpk s' (QTable t)) x.
Proof.
  intros HI Hc Ht Hs Hx. unfold extended_by. cbn [eval rel_heading rel_rows].
  do 2 (split; [done|]). split; [|done].
  intros r Hr. by eapply new_condition_fresh.
Qed.

Lemma fetch1_restrict_snoc h d old x v :
  nonempty {| rel_heading := h; rel_rows := filter (matches h d) old |} = false →
  nonempty {| rel_heading := h; rel_rows := filter (matches h d) (old ++ [x]) |} = true →
  x !! "condition_id" = Some v →
  fetch1 {| rel_heading := h; rel_rows := filter (matches h d) (old ++ [x]) |}
         "condition_id" = OK v.
Proof.
  unfold fetch1, nonempty. cbn [rel_rows]. rewrite filter_app.
  destruct (filter (matches h d) old); [|done]. intros _. rewrite app_nil_l.
  rewrite filter_cons. case_decide; [|done].
  rewrite filter_nil. intros _ Hx. unfold dict_getitem. by rewrite Hx.
Qed.

(** X18. A condition that has just been inserted is found under its new
    identifier.  When the registry keeps its references and no condition
    matches a record, then after the insertion of lines 291-330 the
    lookup of line 358 finds exactly one condition, and its identifier is
    the one that was allocated in ConditionParams.  (A record with the
    stimulation flag must have stimulation fields, none of them
    [stim_id].) *)
Theorem new_condition_resolved (E : env) params a q t s s1 o :
  parseparams params = OK (a, q, t) →
  (stim_on params = true → stim_attr a ≠ ∅ ∧ stim_attr a !! "stim_id" = None) →
  references (recording_pk E) s →
  nonempty (eval (recording_pk E) s (QRestrict q (all_cond_attr a))) = false →
  insert_condition E a q t s = (OK tt, s1, o) →
  ∃ c, new_id (s ConditionParams) "condition_id" = OK c ∧
       fetch_condition_id E a q s1 = (OK (VNum c), s1, []).
Proof.
  intros Hparse Hreg HI Hnone Hins.
  assert (nonempty (eval (recording_pk E) s1 (QRestrict q (all_cond_attr a))) = true)
    as Hfound.
  { eapply insert_condition_resolvable; [exact Hparse|exact Hreg| |exact Hins].
    intros _ st Hst.
    destruct (HI Stim ConditionParams ["condition_id"]) with (r := st)
      as (cp & Hcp & Hag); [unfold foreign_keys; compute_done|done|].
    exists cp. split; [done|]. by destruct (Hag "condition_id") as [_ ->]; [left|]. }
  pose proof (parseparams_rel _ _ _ _ Hparse) as Ht.
  apply parseparams_ok in Hparse
    as (frcMax & frcOff & frcPol & duration & offset & offset0 & padDur & tattr &
        _ & _ & _ & _ & _ & _ & _ & _ & HF & HS & HT & _ & ->).
  assert (force_attr a ≠ ∅) as HFne by (rewrite HF; apply insert_non_empty).
  assert (targ_attr a ≠ ∅) as HTne by (rewrite HT; apply insert_non_empty).
  destruct (insert_condition_tables E a _ t s s1 o Ht HFne HTne Hnone Hins)
    as (c & fid & sid & tid & Hc & HsF & HsT & Hst & HsS & HfitF & HfitT & HfitTy &
        HdF & HdT & Hd1 & Hd2).
  cbn zeta in *. exists c. split; [done|].
  remember ({[ "condition_id" := VNum c ]} ∪ <["force_id" := fid]> (force_attr a))
    as f eqn:Hf.
  remember ({[ "condition_id" := VNum c ]} ∪ <["stim_id" := sid]> (stim_attr a))
    as st eqn:Hstdef.
  remember ({[ "condition_id" := VNum c ]} ∪ <["target_id" := tid]> (targ_attr a))
    as tg eqn:Htg.
  remember ({[ "condition_id" := VNum c ]} ∪ targ_type_attr a ∪ {[ "target_id" := tid ]})
    as ty eqn:Hty.
  assert (f !! "condition_id" = Some (VNum c)) as Hfc
    by (subst f; apply cond_key_lookup).
  assert (st !! "condition_id" = Some (VNum c)) as Hstc
    by (subst st; apply cond_key_lookup).
  assert (tg !! "condition_id" = Some (VNum c)) as Htgc
    by (subst tg; apply cond_key_lookup).
  assert (ty !! "condition_id" = Some (VNum c)) as Htyc.
  { subst ty. apply lookup_union_Some_l, cond_key_lookup. }
  assert (tg !! "target_id" = Some tid) as Htgt.
  { subst tg. rewrite cond_key_other by done. apply lookup_insert_eq. }
  assert (ty !! "target_id" = Some tid) as Htyt.
  { subst ty. rewrite lookup_union_r; [apply lookup_singleton_eq|].
    apply (map_disjoint_Some_r _ _ _ tid Hd2), lookup_singleton_eq. }
  assert (f !! "target_id" = None) as Hft.
  { apply (row_lacks _ _ _ HfitF). compute_done. }
  pose proof (table_extended (recording_pk E) c s s1 Force f HI Hc
                ltac:(compute_done) HsF Hfc) as EF.
  pose proof (table_extended (recording_pk E) c s s1 Target tg HI Hc
                ltac:(compute_done) HsT Htgc) as ET.
  assert (extended_by c (eval (recording_pk E) s (QTable t))
            (eval (recording_pk E) s1 (QTable t)) ty) as ETy.
  { apply table_extended; try done.
    destruct Ht as [-> | [-> | [-> | ->]]]; compute_done. }
  clear Hf Htg Hty HfitF HfitT HfitTy HdF HdT Hd1 Hd2 HsF HsT Hst HF HT.
  assert (∃ x, extended_by c
            (eval (recording_pk E) s
               (QJoin (QJoin (if stim_on params
                              then QJoin (QTable Force) (QTable Stim)
                              else QMinus (QTable Force) (QTable Stim))
                             (QTable Target)) (QTable t)))
            (eval (recording_pk E) s1
               (QJoin (QJoin (if stim_on params
                              then QJoin (QTable Force) (QTable Stim)
                              else QMinus (QTable Force) (QTable Stim))
                             (QTable Target)) (QTable t))) x) as (x & Hh & Hr & _ & Hx).
  { destruct (stim_on params) eqn:Hon.
    - destruct (Hreg eq_refl) as [HSne _].
      rewrite decide_False in HsS by done. destruct HsS as (HsS & HdS & HfitS).
      assert (st !! "target_id" = None) as Hstt.
      { apply (row_lacks _ _ _ HfitS). compute_done. }
      pose proof (table_extended (recording_pk E) c s s1 Stim st HI Hc
                    ltac:(compute_done) HsS Hstc) as ES.
      pose proof (join_extended c _ _ _ _ f st ["condition_id"] EF ES
                    ltac:(vm_compute; reflexivity) ltac:(by left)
                    ltac:(repeat constructor; congruence)) as E1.
      assert ((f ∪ st) !! "condition_id" = tg !! "condition_id") as H1c.
      { destruct E1 as (_ & _ & _ & ->). congruence. }
      pose proof (join_extended c _ _ _ _ (f ∪ st) tg ["condition_id"] E1 ET
                    ltac:(vm_compute; reflexivity) ltac:(by left)
                    ltac:(by repeat constructor)) as E2.
      assert ((f ∪ st ∪ tg) !! "condition_id" = ty !! "condition_id") as H2c.
      { destruct E2 as (_ & _ & _ & ->). congruence. }
      assert ((f ∪ st ∪ tg) !! "target_id" = ty !! "target_id") as H2t.
      { rewrite Htyt. rewrite lookup_union_r; [done|].
        by rewrite lookup_union_None. }
      exists (f ∪ st ∪ tg ∪ ty). cbn [eval].
      apply (join_extended c _ _ _ _ _ _ ["condition_id"; "target_id"] E2 ETy);
        [|by left|by repeat constructor].
      clear -Ht. destruct Ht as [-> | [-> | [-> | ->]]]; vm_compute; reflexivity.
    - rewrite HS in HsS. rewrite decide_True in HsS by done.
      assert (extended_by c (eval (recording_pk E) s (QMinus (QTable Force) (QTable Stim)))
                (eval (recording_pk E) s1 (QMinus (QTable Force) (QTable Stim)))
                f) as E1.
      { cbn [eval]. rewrite HsS.
        apply (minus_extended c _ _ _ _ ["condition_id"] EF);
          [|vm_compute; reflexivity|by left].
        intros b0 Hb0. cbn [eval rel_rows] in Hb0.
        by apply (new_condition_fresh (recording_pk E) s c Stim b0 HI Hc
                    ltac:(compute_done)). }
      assert (f !! "condition_id" = tg !! "condition_id") as H1c by congruence.
      pose proof (join_extended c _ _ _ _ f tg ["condition_id"] E1 ET
                    ltac:(vm_compute; reflexivity) ltac:(by left)
                    ltac:(by repeat constructor)) as E2.
      assert ((f ∪ tg) !! "condition_id" = ty !! "condition_id") as H2c.
      { destruct E2 as (_ & _ & _ & ->). congruence. }
      assert ((f ∪ tg) !! "target_id" = ty !! "target_id") as H2t.
      { rewrite Htyt. by rewrite lookup_union_r. }
      exists (f ∪ tg ∪ ty). cbn [eval].
      apply (join_extended c _ _ _ _ _ _ ["condition_id"; "target_id"] E2 ETy);
        [|by left|by repeat constructor].
      clear -Ht. destruct Ht as [-> | [-> | [-> | ->]]]; vm_compute; reflexivity. }
  unfold fetch_condition_id. rewrite bind_query. unfold lift. f_equal. f_equal.
  revert Hfound Hnone. cbn [eval]. unfold restrict. cbn [eval] in Hh, Hr.
  rewrite Hh, Hr. cbn [rel_rows rel_heading]. intros Hfound Hnone.
  exact (fetch1_restrict_snoc _ _ _ _ _ Hnone Hfound Hx).
Qed.

(** ** The recording, its conditions and the task states *)

Lemma insert_skip_refers rpk t rows s s' o :
  insert rpk t rows true s = (OK tt, s', o) →
  ∀ row, row ∈ rows → refers (s' t) (primary (schema_of rpk t)) row.
Proof.
  unfold insert. revert s o. induction rows as [|r rows IH]; intros s o H row Hrow.
  { by apply elem_of_nil in Hrow. }
  cbn [for_each] in H.
  apply bind_run in H as [([] & s1 & ? & ? & H1 & H & _)|(e & _ & [=])].
  apply elem_of_cons in Hrow as [->|Hrow]; [|by eapply IH].
  apply insert1_run in H1 as [_ H1].
  destruct (insert_row _ _ _ _ _) as [rows1|e] eqn:Hr; destruct H1 as [[=] ->].
  apply insert_row_refers in Hr.
  assert (insert_stable rpk (λ s, refers (s t) (primary (schema_of rpk t)) r)) as HI
    by apply insert_stable_refers.
  assert (keeps (λ s, refers (s t) (primary (schema_of rpk t)) r)
            (for_each rows (λ r, insert1 rpk t r true))) as Hkeeps.
  { apply keeps_for_each. intros y _. by apply keeps_insert1. }
  apply (Hkeeps _ _ _ _ H). by rewrite set_table_same.
Qed.

(** X19. The task states of the summary file are registered: after a run
    on a Speedgoat recording that returns, TaskState has, for every state
    of the summary, a row with the identifier of that state (the row that
    was there before, when the identifier was registered already). *)
Theorem task_states_registered (E : env) (key : gmap string val)
    path fs path' summary s s' o :
  fetch_recording E key = OK (path, fs) →
  ensurelocal E path = OK path' →
  fetch_task_controller E key = OK "Speedgoat" →
  readtaskstates E path' = OK summary →
  make E key s = (OK tt, s', o) →
  ∀ row, row ∈ summary →
    ∃ r, r ∈ s' TaskState ∧ is_Some (row !! "task_state_id") ∧
         r !! "task_state_id" = row !! "task_state_id".
Proof.
  intros Hrec Hloc Hhw Hsum. unfold make. intros H row Hrow.
  apply bind_run in H as [([] & s1 & ? & ? & H1 & H & _)|(e & _ & [=])].
  rewrite (bind_lift_ok _ _ (path, fs)) in H by done.
  rewrite (bind_lift_ok _ _ path') in H by done.
  rewrite (bind_lift_ok _ _ "Speedgoat") in H by done.
  rewrite bool_decide_true in H by done.
  rewrite (bind_lift_ok _ _ summary) in H by done.
  apply bind_run in H as [([] & s3 & ? & ? & H3 & H & _)|(e & _ & [=])].
  pose proof (insert_skip_refers _ _ _ _ _ _ H3 row Hrow) as Href.
  assert (refers (s' TaskState) ["task_state_id"] row) as (r & Hr & Hag).
  { lazymatch type of H with
    | ?m _ = _ =>
        assert (keeps (λ s, refers (s TaskState) ["task_state_id"] row) m) as Hkeeps
    end.
    { pose proof (insert_stable_refers (recording_pk E) TaskState
                    ["task_state_id"] row) as HI.
      cbn beta. repeat keeps_step.
      - by apply keeps_populate_condition.
      - by apply keeps_populate_trial. }
    exact (Hkeeps _ _ _ _ H Href). }
  exists r. split; [done|]. apply Hag. by left.
Qed.

Lemma preserves_rest_behavior E key bp fs pfs dfs :
  preserves (λ t, t = Behavior)
    (for_each pfs (populate_condition E bp dfs) ;;
     states <- query_now (recording_pk E)
                 (QRestrict (QTable TaskState)
                            {[ "task_state_name" := VStr "Success" ]}) ;;
     success_state <- lift (fetch1 states "task_state_id") ;;
     for_each dfs (populate_trial E key bp fs success_state pfs)).
Proof.
  apply preserves_bind.
  { apply preserves_for_each. intros f _.
    eapply preserves_weaken; [|apply preserves_populate_condition_registry].
    intros t ->. unfold registry_table. compute_done. }
  intros _. apply preserves_bind; [apply preserves_query|]. intros states.
  apply preserves_bind; [apply preserves_lift|]. intros ss'.
  apply preserves_for_each. intros f _.
  eapply preserves_weaken; [|apply preserves_populate_trial].
  intros t -> [|]; discriminate.
Qed.

Lemma populate_trial_conditions E key bp fs ss pfs d s r s' o :
  populate_trial E key bp fs ss pfs d s = (r, s', o) →
  ∃ new, s' Behavior_Condition = s Behavior_Condition ++ new ∧
         Forall (λ x, ∃ c, x = key ∪ {[ "condition_id" := c ]}) new.
Proof.
  assert (∃ new, s Behavior_Condition = s Behavior_Condition ++ new ∧
                 Forall (λ x, ∃ c, x = key ∪ {[ "condition_id" := c ]}) new) as Hsame.
  { exists []. by rewrite app_nil_r. }
  unfold populate_trial. intros H.
  apply bind_run in H as [(tok & s0 & ? & ? & Htok & H & _)|(e & Htok & _)];
    [|injection Htok as _ <- _; exact Hsame].
  injection Htok as _ <- _.
  apply bind_run in H as [(n & s0 & ? & ? & Hn & H & _)|(e & Hn & _)];
    [|injection Hn as _ <- _; exact Hsame].
  injection Hn as _ <- _.
  destruct (list_find _ pfs) as [[i pf]|]; [|injection H as _ <- _; exact Hsame].
  apply bind_run in H as [(params & s0 & ? & ? & H0 & H & _)|(e & H0 & _)];
    [|injection H0 as _ <- _; exact Hsame].
  injection H0 as _ <- _.
  apply bind_run in H as [([[a q] t] & s0 & ? & ? & H0 & H & _)|(e & H0 & _)];
    [|injection H0 as _ <- _; exact Hsame].
  injection H0 as _ <- _.
  apply bind_run in H as [(data & s0 & ? & ? & H0 & H & _)|(e & H0 & _)];
    [|injection H0 as _ <- _; exact Hsame].
  injection H0 as _ <- _.
  assert (∀ s1 r1 o1, insert_condition_data E key a q s = (r1, s1, o1) →
            ∃ new, s1 Behavior_Condition = s Behavior_Condition ++ new ∧
                   Forall (λ x, ∃ c, x = key ∪ {[ "condition_id" := c ]}) new) as Hcd.
  { clear H. intros s1 r1 o1 Hck. unfold insert_condition_data in Hck.
    apply bind_run in Hck as [(c & s2 & ? & ? & Hc & Hck & _)|(e & Hc & _)].
    2:{ apply fetch_condition_id_run in Hc as (-> & _ & _). exact Hsame. }
    apply fetch_condition_id_run in Hc as (-> & _ & _).
    apply bind_run in Hck as [(ck' & s2 & ? & ? & Hm & Hck & _)|(e & Hm & _)];
      [|injection Hm as _ <- _; exact Hsame].
    injection Hm as Hm <- _. unfold kw_merge in Hm. case_decide; [|done].
    injection Hm as <-.
    apply bind_run in Hck as [([] & s2 & ? & ? & Hins & Hck & _)|(e & Hins & _)].
    - injection Hck as _ <- _. apply insert1_run in Hins as [_ Hins].
      destruct (insert_row _ _ _ _ _) as [rows|e] eqn:Hrow; destruct Hins as [[=] ->].
      rewrite set_table_same.
      apply insert_row_ok in Hrow as [(-> & _)|[-> _]]; [exact Hsame|].
      eexists. split; [done|]. constructor; [by eexists|constructor].
    - apply insert1_run in Hins as [_ Hins].
      destruct (insert_row _ _ _ _ _); destruct Hins as [[=] ->]. exact Hsame. }
  apply bind_run in H as [(ck & s1 & ? & ? & Hck & H & _)|(e & Hck & _)];
    [|by eapply Hcd].
  apply Hcd in Hck as (new & Hnew & Hall). exists new. split; [|done].
  rewrite <- Hnew.
  assert (preserves (λ t, t = Behavior_Condition)
            (insert_trial_data E ck data n params)) as Hpres.
  { unfold insert_trial_data.
    apply preserves_bind; [apply preserves_lift|]. intros tag.
    apply preserves_bind; [apply preserves_lift|]. intros row0.
    apply preserves_bind; [apply preserves_lift|]. intros row.
    by apply preserves_insert1. }
  exact (Hpres _ _ _ _ H Behavior_Condition eq_refl).
Qed.

Lemma populate_trials_conditions E key bp fs ss pfs dfs s r s' o :
  for_each dfs (populate_trial E key bp fs ss pfs) s = (r, s', o) →
  ∃ new, s' Behavior_Condition = s Behavior_Condition ++ new ∧
         Forall (λ x, ∃ c, x = key ∪ {[ "condition_id" := c ]}) new.
Proof.
  revert s o. induction dfs as [|d dfs IH]; intros s o H.
  { injection H as _ <- _. exists []. by rewrite app_nil_r. }
  cbn [for_each] in H.
  apply bind_run in H as [([] & s6 & ? & ? & Hd & H & _)|(e & Hd & _)].
  - apply populate_trial_conditions in Hd as (new1 & Hnew1 & Hall1).
    apply IH in H as (new2 & Hnew2 & Hall2).
    exists (new1 ++ new2). rewrite Hnew2, Hnew1, <- app_assoc. split; [done|].
    by apply Forall_app.
  - by apply populate_trial_conditions in Hd.
Qed.

(** X20. A run that returns has appended the key of the recording, and
    nothing else, to Behavior; to Behavior.Condition it has appended only
    rows that are the key of the recording with a [condition_id]. *)
Theorem make_registers_recording (E : env) (key : gmap string val) s s' o :
  make E key s = (OK tt, s', o) →
  s' Behavior = s Behavior ++ [key] ∧
  ∃ new, s' Behavior_Condition = s Behavior_Condition ++ new ∧
         Forall (λ x, ∃ c, x = key ∪ {[ "condition_id" := c ]}) new.
Proof.
  unfold make. intros H.
  apply bind_run in H as [([] & s1 & ? & ? & H1 & H & _)|(e & _ & [=])].
  apply insert1_run in H1 as [_ H1].
  destruct (insert_row _ _ _ _ _) as [rows|e] eqn:Hrow; destruct H1 as [[=] ->].
  apply insert_row_ok in Hrow as [(_ & [=] & _)|[-> _]].
  apply bind_run in H as [([path fs] & s2 & ? & ? & H2 & H & _)|(e & _ & [=])].
  injection H2 as _ <- _.
  apply bind_run in H as [(path' & s2 & ? & ? & H2 & H & _)|(e & _ & [=])].
  injection H2 as _ <- _.
  apply bind_run in H as [(hw & s2 & ? & ? & H2 & H & _)|(e & _ & [=])].
  injection H2 as _ <- _.
  case_bool_decide as Hhw.
  2:{ injection H as <- _. rewrite set_table_same. split; [done|].
      exists []. by rewrite set_table_other, app_nil_r. }
  apply bind_run in H as [(summary & s2 & ? & ? & H2 & H & _)|(e & _ & [=])].
  injection H2 as _ <- _.
  apply bind_run in H as [([] & s3 & ? & ? & H3 & H & _)|(e & _ & [=])].
  assert (s3 Behavior = s Behavior ++ [key] ∧
          s3 Behavior_Condition = s Behavior_Condition) as [Hb3 Hc3].
  { split.
    - rewrite (preserves_insert (λ t, t = Behavior) _ TaskState _ _
                 ltac:(done) _ _ _ _ H3 Behavior eq_refl).
      apply set_table_same.
    - rewrite (preserves_insert (λ t, t = Behavior_Condition) _ TaskState _ _
                 ltac:(done) _ _ _ _ H3 Behavior_Condition eq_refl).
      by rewrite set_table_other. }
  apply bind_run in H as [(files & s4 & ? & ? & H4 & H & _)|(e & _ & [=])].
  injection H4 as _ <- _. split.
  { rewrite (preserves_rest_behavior _ _ _ _ _ _ _ _ _ _ H Behavior eq_refl). done. }
  apply bind_run in H as [([] & s5 & ? & ? & H5 & H & _)|(e & _ & [=])].
  assert (s5 Behavior_Condition = s Behavior_Condition) as Hc5.
  { rewrite <- Hc3.
    refine (preserves_for_each trial_table _ _ _ _ _ _ _ H5 Behavior_Condition _);
      [|by left].
    intros f _. apply preserves_populate_condition. }
  rewrite bind_query in H.
  apply bind_run in H as [(ss & s6 & ? & ? & H6 & H & _)|(e & _ & [=])].
  injection H6 as _ <- _. rewrite <- Hc5.
  by apply populate_trials_conditions in H.
Qed.

(** ** [make] keeps one row for a condition in each table *)

Lemma one_row_other s t rows :
  t ∉ condition_tables → one_row_per_condition s →
  one_row_per_condition (set_table s t rows).
Proof.
  intros Ht HI t' Ht'. rewrite set_table_other; [by apply HI|]. by intros ->.
Qed.

Lemma one_row_snoc s t (c : val) row :
  one_row_per_condition s →
  (∀ r, r ∈ s t → r !! "condition_id" ≠ Some c) →
  row !! "condition_id" = Some c →
  one_row_per_condition (set_table s t (s t ++ [row])).
Proof.
  intros HI Hfresh Hrow t' Ht'. unfold set_table. case_decide as Heq; [|by apply HI].
  subst t'. rewrite fmap_app. apply NoDup_app. split; [by apply HI|].
  split; [|apply NoDup_singleton].
  intros x Hx Hin. apply list_elem_of_singleton in Hin as ->.
  apply list_elem_of_fmap in Hx as (r & Hr & Hin). apply (Hfresh r Hin). congruence.
Qed.

(** A pass of the loop over the parts, for a condition that has no row in
    the table of the part. *)
Lemma insert_part_one_row E (c : val) a p s r s' o :
  one_row_per_condition s →
  (∀ x, x ∈ s (part_rel p) → x !! "condition_id" ≠ Some c) →
  insert_part E {[ "condition_id" := c ]} a p s = (r, s', o) →
  one_row_per_condition s' ∧ ∀ t, t ≠ part_rel p → s' t = s t.
Proof.
  intros HI Hfresh H. apply insert_part_run in H.
  destruct r as [a'|e]; [|by subst s'].
  destruct H as [(_ & _ & ->)|(id & rows & _ & _ & Hrow & -> & _)]; [done|].
  apply insert_row_ok in Hrow as [(_ & [=] & _)|[-> _]]. split.
  - apply (one_row_snoc _ _ c); [done|done|]. apply cond_key_lookup.
  - intros t Ht. by apply set_table_other.
Qed.

Lemma insert_condition_one_row E a q t s r s' o :
  t = Static ∨ t = Ramp ∨ t = Sine ∨ t = Chirp →
  references (recording_pk E) s →
  one_row_per_condition s →
  insert_condition E a q t s = (r, s', o) →
  one_row_per_condition s'.
Proof.
  intros Ht HR HI. unfold insert_condition. rewrite bind_query.
  destruct (nonempty _); [by intros [= _ <- _]|]. rewrite bind_query.
  cbn [eval rel_rows]. intros H.
  apply bind_run in H as [(n & s0 & ? & ? & Hn & H & _)|(e & Hn & ->)];
    [|by injection Hn as _ <- _].
  injection Hn as Hn <- _.
  assert (∀ t0, t0 ∈ condition_tables → ∀ y0, y0 ∈ s t0 →
                y0 !! "condition_id" ≠ Some (VNum n)) as Hfresh.
  { intros t0 Ht0 y0 Hx. by apply (new_condition_fresh (recording_pk E) s n t0 y0). }
  apply bind_run in H as [([] & s1 & ? & ? & Hins & H & _)|(e & Hins & ->)].
  2:{ apply insert1_run in Hins as [_ Hins].
      destruct (insert_row _ _ _ _ _); by destruct Hins as [[=] ->]. }
  apply insert1_run in Hins as [_ Hins].
  destruct (insert_row _ _ _ _ _) as [rows|e] eqn:Hrow; destruct Hins as [[=] ->].
  clear Hrow.
  assert (one_row_per_condition (set_table s ConditionParams rows)) as HI1.
  { apply one_row_other; [compute_done|done]. }
  assert (∀ t0, t0 ≠ ConditionParams →
                set_table s ConditionParams rows t0 = s t0) as Hs1.
  { intros t0 Ht0. by apply set_table_other. }
  revert H HI1 Hs1. generalize (set_table s ConditionParams rows). intros s1 H HI1 Hs1.
  cbn [for_fold] in H.
  assert (∀ (p : part) a0 s2 r2 s3 o3,
            one_row_per_condition s2 → s2 (part_rel p) = s (part_rel p) →
            insert_part E {[ "condition_id" := VNum n ]} a0 p s2 = (r2, s3, o3) →
            one_row_per_condition s3 ∧ ∀ t, t ≠ part_rel p → s3 t = s2 t) as Hpart.
  { intros p a0 s2 r2 s3 o3 HI2 Hsame Hp.
    apply (insert_part_one_row E (VNum n) a0 p s2 r2 s3 o3 HI2); [|done].
    intros y0 Hy0. rewrite Hsame in Hy0. apply (Hfresh (part_rel p)); [|done].
    destruct p; compute_done. }
  assert (∀ s4, one_row_per_condition s4 → s4 t = s t →
            ∀ row r5 s5 o5,
              row !! "condition_id" = Some (VNum n) →
              insert1 (recording_pk E) t row false s4 = (r5, s5, o5) →
              one_row_per_condition s5) as Htype.
  { intros s4 HI4 Hsame row r5 s5 o5 Hrowc Hins.
    apply insert1_run in Hins as [_ Hins].
    destruct (insert_row _ t _ _ _) as [rows'|e] eqn:Hrow'; destruct Hins as [_ ->];
      [|done].
    apply insert_row_ok in Hrow' as [(_ & [=] & _)|[-> _]].
    apply (one_row_snoc _ _ (VNum n)); [done| |done].
    intros y0 Hy0. rewrite Hsame in Hy0. apply (Hfresh t); [|done].
    destruct Ht as [-> | [-> | [-> | ->]]]; compute_done. }
  assert (t ≠ Force ∧ t ≠ Stim ∧ t ≠ Target ∧ t ≠ ConditionParams)
    as (HtF & HtS & HtT & HtC)
    by (destruct Ht as [-> | [-> | [-> | ->]]]; done).
  apply bind_run in H as [(a3 & s4 & ? & ? & Hparts & H & _)|(e & Hparts & ->)].
  - apply bind_run in Hparts as [(a1 & s2 & ? & ? & HF & Hparts & _)|(e & _ & [=])].
    destruct (Hpart PForce _ _ _ _ _ HI1 ltac:(by apply Hs1) HF) as [HI2 Hs2].
    apply bind_run in Hparts as [(a2 & s3 & ? & ? & HS & Hparts & _)|(e & _ & [=])].
    destruct (Hpart PStim _ _ _ _ _ HI2
                ltac:(cbn [part_rel]; by rewrite Hs2, Hs1) HS) as [HI3 Hs3].
    apply bind_run in Hparts as [(a3' & s4' & ? & ? & HT & Hparts & _)|(e & _ & [=])].
    injection Hparts as -> -> _.
    destruct (Hpart PTarget _ _ _ _ _ HI3
                ltac:(cbn [part_rel]; by rewrite Hs3, Hs2, Hs1) HT) as [HI4 Hs4].
    apply bind_run in H as [(tid & s5 & ? & ? & Htid & H & _)|(e & Htid & ->)];
      [|by injection Htid as _ <- _].
    injection Htid as _ <- _.
    apply bind_run in H as [(row0 & s5 & ? & ? & Hm & H & _)|(e & Hm & ->)];
      [|by injection Hm as _ <- _].
    injection Hm as Hm <- _. unfold kw_merge in Hm. case_decide as Hd1; [|done].
    injection Hm as <-.
    apply bind_run in H as [(row & s5 & ? & ? & Hm & H & _)|(e & Hm & ->)];
      [|by injection Hm as _ <- _].
    injection Hm as Hm <- _. unfold kw_merge in Hm. case_decide as Hd2; [|done].
    injection Hm as <-.
    apply (Htype s4 HI4 ltac:(cbn [part_rel] in *; by rewrite Hs4, Hs3, Hs2, Hs1)
             _ _ _ _ ltac:(apply lookup_union_Some_l, cond_key_lookup) H).
  - apply bind_run in Hparts as [(a1 & s2 & ? & ? & HF & Hparts & _)|(e' & HF & _)].
    2:{ by destruct (Hpart PForce _ _ _ _ _ HI1 ltac:(by apply Hs1) HF). }
    destruct (Hpart PForce _ _ _ _ _ HI1 ltac:(by apply Hs1) HF) as [HI2 Hs2].
    apply bind_run in Hparts as [(a2 & s3 & ? & ? & HS & Hparts & _)|(e' & HS & _)].
    2:{ by destruct (Hpart PStim _ _ _ _ _ HI2
                       ltac:(cbn [part_rel]; by rewrite Hs2, Hs1) HS). }
    destruct (Hpart PStim _ _ _ _ _ HI2
                ltac:(cbn [part_rel]; by rewrite Hs2, Hs1) HS) as [HI3 Hs3].
    apply bind_run in Hparts as [(a3' & s4' & ? & ? & HT & Hparts & _)|(e' & HT & _)];
      [done|].
    by destruct (Hpart PTarget _ _ _ _ _ HI3
                   ltac:(cbn [part_rel]; by rewrite Hs3, Hs2, Hs1) HT).
Qed.

Lemma populate_condition_one_row E bp data_files f s r s' o :
  references (recording_pk E) s →
  one_row_per_condition s →
  populate_condition E bp data_files f s = (r, s', o) →
  one_row_per_condition s'.
Proof.
  intros HR HI. unfold populate_condition. intros H.
  apply bind_run in H as [(trial & s0 & ? & ? & H0 & H & _)|(e & H0 & ->)];
    [|by injection H0 as _ <- _].
  injection H0 as _ <- _.
  case_bool_decide as Hmiss; [by injection H as _ <- _|].
  apply bind_run in H as [(params & s0 & ? & ? & H0 & H & _)|(e & H0 & ->)];
    [|by injection H0 as _ <- _].
  injection H0 as _ <- _.
  destruct (parseparams params) as [[[a q] t]|e] eqn:Hparse.
  2:{ rewrite (bind_lift_err _ _ e) in H by done. by injection H as _ <- _. }
  rewrite (bind_lift_ok _ _ (a, q, t)) in H by done.
  apply parseparams_rel in Hparse.
  by apply (insert_condition_one_row E a q t s r s' _ Hparse HR HI H).
Qed.

(** X21. [make] keeps one row for a condition in each table of the
    registry: in a store whose references hold and in which no condition
    has two rows in Force, Stim, Target or the table of a target type,
    none has after [make], whether it returns or raises. *)
Theorem make_keeps_one_row_per_condition (E : env) (key : gmap string val)
    s r s' o :
  references (recording_pk E) s →
  one_row_per_condition s →
  make E key s = (r, s', o) →
  one_row_per_condition s'.
Proof.
  intros HR HI H.
  refine (proj2 (make_keeps_with E key one_row_per_condition _ _ _ _
                   s r s' o HR HI H)).
  - intros s0 rows HI0. apply one_row_other; [compute_done|done].
  - intros s0 rows HI0. apply one_row_other; [compute_done|done].
  - intros bp dfs f s0 r0 s0' o0 HR0 HI0 H0.
    by apply (populate_condition_one_row E bp dfs f s0 r0 s0' o0).
  - intros bp fs ss pfs f s0 r0 s0' o0 _ _ HI0 H0 t Ht.
    rewrite (preserves_populate_trial _ _ _ _ _ _ _ _ _ _ _ H0 t); [by apply HI0|].
    clear -Ht. intros [-> | ->]; revert Ht; compute_done.
Qed.

(** * The properties on the sample recording *)

Lemma run_eta {A} (x : res A * store * list string) : x = (x.1.1, x.1.2, x.2).
Proof. by destruct x as [[??]?]. Qed.

Lemma key_fields (key : gmap string val) (l : list string) :
  dom key = list_to_set l → ∀ k, is_Some (key !! k) ↔ k ∈ l.
Proof. intros H k. rewrite <- elem_of_dom, H. apply elem_of_list_to_set. Qed.

(** C2, as the code has it.  On an empty registry the ramp of amplitude
    0.5 gets condition 0, force 0 and target 0; the same ramp again gets
    condition 0; the ramp of amplitude 0.6 gets the new condition 1 and
    reuses force 0 and target 0, the attributes of the Target group being
    those of the first ramp: the two conditions differ in their Ramp rows
    only. *)
Theorem three_ramps_ids :
  Sample.three_ramps =
  OK ((VNum 0, VNum 0, VNum 0), (VNum 0, VNum 0, VNum 0), (VNum 1, VNum 0, VNum 0)) ∧
  Sample.columns ["condition_id"] (Sample.three_ramps_registry ConditionParams)
  = [[Some (VNum 0)]; [Some (VNum 1)]] ∧
  Sample.columns ["condition_id"; "force_id"] (Sample.three_ramps_registry Force)
  = [[Some (VNum 0); Some (VNum 0)]; [Some (VNum 1); Some (VNum 0)]] ∧
  Sample.columns ["condition_id"; "target_id"] (Sample.three_ramps_registry Target)
  = [[Some (VNum 0); Some (VNum 0)]; [Some (VNum 1); Some (VNum 0)]] ∧
  Sample.columns ["condition_id"; "target_id"; "target_amplitude"]
                 (Sample.three_ramps_registry Ramp)
  = [[Some (VNum 0); Some (VNum 0); Some (dec4 0.5)];
     [Some (VNum 1); Some (VNum 0); Some (dec4 0.6)]] ∧
  Sample.three_ramps_registry Stim = [].
Proof. repeat split; vm_compute; reflexivity. Qed.

(** The third ramp of C2 does not get the target identifier 1. *)
Lemma third_ramp_target_not_1 :
  ¬ ∃ x1 x2 c f, Sample.three_ramps = OK (x1, x2, (c, f, VNum 1)).
Proof. intros (x1 & x2 & c & f & H). vm_compute in H. discriminate H. Qed.


(** C1 at a record with the stimulation flag set and no stimulation field.
    The Stim group is empty and the condition query joins Stim (lines
    131-140); the insertion skips the empty Stim part (lines 309-310), so
    that the condition has no Stim row and the query of line 291 does not
    find it.  Each resolution raises at the lookup of line 358 after it
    has inserted a further condition with a Force, a Target and a Static
    row, and [make] on two trials with this record registers two
    conditions and raises. *)
Lemma flag_only_registered_twice :
  let E := Sample.world "Speedgoat" [] [] in
  let first := resolveOrCreate E Sample.flag_only empty_store in
  let second := resolveOrCreate E Sample.flag_only first.1.2 in
  let run := make (Sample.world "Speedgoat" Sample.two_trials Sample.two_flag_only)
                  Sample.key empty_store in
  first.1.1 = Err (DataJointError "fetch1 should only return one tuple") ∧
  second.1.1 = Err (DataJointError "fetch1 should only return one tuple") ∧
  (λ t, length (first.1.2 t)) <$> [ConditionParams; Force; Stim; Target; Static]
  = [1%nat; 1%nat; 0%nat; 1%nat; 1%nat] ∧
  (λ t, length (second.1.2 t)) <$> [ConditionParams; Force; Stim; Target; Static]
  = [2%nat; 2%nat; 0%nat; 2%nat; 2%nat] ∧
  Sample.columns ["condition_id"; "force_id"] (second.1.2 Force)
  = [[Some (VNum 0); Some (VNum 0)]; [Some (VNum 1); Some (VNum 0)]] ∧
  run.1.1 = Err (DataJointError "fetch1 should only return one tuple") ∧
  (λ t, length (run.1.2 t))
    <$> [ConditionParams; Force; Stim; Target; Static; Behavior_Trial]
  = [2%nat; 2%nat; 0%nat; 2%nat; 2%nat; 0%nat].
Proof.
  intros E first second run. repeat apply conj; vm_compute; reflexivity.
Qed.

Lemma new_id_smallest_unused_witness :
  ∃ n, new_id [ {[ "condition_id" := VNum 0 ]}; {[ "condition_id" := VNum 2 ]} ]
              "condition_id" = OK n ∧
       0 ≤ n ∧ (n ∉ [0; 2]) ∧ (∀ m, 0 ≤ m < n → m ∈ [0; 2]).
Proof.
  apply (new_id_smallest_unused _ "condition_id" [0; 2]).
  - vm_compute. reflexivity.
  - repeat constructor; lia.
Defined.

Lemma stim_presence_discriminates_witness :
  ∃ a q t, parseparams (Sample.ramp 0.5) = OK (a, q, t) ∧
    ∀ r, r ∈ rel_rows (eval ["session_date"; "monkey"] Sample.registry
                            (QRestrict q (all_cond_attr a))) →
         ∀ st, st ∈ Sample.registry Stim →
               st !! "condition_id" ≠ r !! "condition_id".
Proof.
  eexists _, _, _. split; [vm_compute; reflexivity|]. intros r Hr.
  exact (stim_presence_discriminates (Sample.world "Speedgoat" [] [])
           Sample.registry (Sample.ramp 0.5) _ _ _ eq_refl r Hr).
Defined.

Lemma force_attr_extracted_witness :
  ∃ a q t, parseparams (Sample.stimulated (-1)) = OK (a, q, t) ∧
  ∃ frcMax frcOff frcPol,
    get (Sample.stimulated (-1)) "frcMax" = Some frcMax ∧
    get (Sample.stimulated (-1)) "frcOff" = Some frcOff ∧
    get (Sample.stimulated (-1)) "frcPol" = Some frcPol ∧
    force_attr a !! "force_max" = Some frcMax ∧
    force_attr a !! "force_offset" = Some frcOff ∧
    (force_attr a !! "force_inverted" = Some (py_bool true) ↔ frcPol = VNum (-1)) ∧
    (force_attr a !! "force_inverted" = Some (py_bool false) ↔ frcPol ≠ VNum (-1)).
Proof.
  eexists _, _, _. split; [vm_compute; reflexivity|].
  exact (force_attr_extracted (Sample.stimulated (-1)) _ _ _ eq_refl).
Defined.

(** C7 as it is stated fails: the polarity -2 is negative and the record
    is not inverted. *)
Lemma negative_polarity_not_inverted :
  ∃ a q t, parseparams (Sample.stimulated (-2)) = OK (a, q, t) ∧
    get (Sample.stimulated (-2)) "frcPol" = Some (VNum (-2)) ∧ -2 < 0 ∧
    force_attr a !! "force_inverted" = Some (py_bool false) ∧
    force_attr a !! "force_inverted" ≠ Some (py_bool true).
Proof.
  eexists _, _, _. split; [vm_compute; reflexivity|].
  split; [reflexivity|]. split; [lia|]. split; [vm_compute; reflexivity|].
  vm_compute. discriminate.
Qed.

Lemma stim_attr_extracted_witness :
  ∃ a q t, parseparams (Sample.stimulated 1) = OK (a, q, t) ∧
    ((λ f, stim_attr a !! f) <$>
       ["stim_current"; "stim_electrode"; "stim_polarity"; "stim_pulses";
        "stim_width1"; "stim_width2"; "stim_interphase"; "stim_frequency";
        "stim_delay"; "stim_"; "stim"]
     = [Some (VNum 50); Some (VNum 12); Some (VNum 1); Some (VNum 3);
        Some (VNum 200); Some (VNum 200); Some (VNum 100); Some (VNum 300);
        None; None; None] ∧
     size (stim_attr a) = 8%nat) ∧
    (stim_on (Sample.stimulated 1) = true →
       (∀ f, is_Some (stim_attr a !! f) ↔
             ∃ k v, (k, v) ∈ Sample.stimulated 1 ∧ stim_field k = Some f) ∧
       (∀ f v, stim_attr a !! f = Some v →
               ∃ k, (k, v) ∈ Sample.stimulated 1 ∧ stim_field k = Some f) ∧
       (∀ k v f, (k, v) ∈ Sample.stimulated 1 → stim_field k = Some f →
                 (∀ k' v', (k', v') ∈ Sample.stimulated 1 →
                           stim_field k' = Some f → v' = v) →
                 stim_attr a !! f = Some v) ∧
       q = QJoin (QJoin (QJoin (QTable Force) (QTable Stim)) (QTable Target))
                 (QTable t)) ∧
    (stim_on (Sample.stimulated 1) = false →
       stim_attr a = ∅ ∧
       q = QJoin (QJoin (QMinus (QTable Force) (QTable Stim)) (QTable Target))
                 (QTable t)) ∧
    (∀ c rest, is_upper c = true →
               forallb is_word (list_ascii_of_string rest) = true →
               "stim" +:+ String c rest ≠ "stimDelay" →
               stim_field ("stim" +:+ String c rest)
               = Some ("stim_" +:+ lower (String c rest))) ∧
    stim_field "stimDelay" = None ∧
    (∀ k f, stim_field k = Some f ↔
            k ≠ "stimDelay" ∧ ∃ g, stim_search k g ∧ f = "stim_" +:+ lower g) ∧
    (∀ s, list_ascii_of_string (lower s) = lower_code <$> list_ascii_of_string s).
Proof.
  eexists _, _, _. split; [vm_compute; reflexivity|].
  split; [split; vm_compute; reflexivity|].
  exact (stim_attr_extracted (Sample.stimulated 1) _ _ _ eq_refl).
Defined.

(** Keys of a record with the pattern inside, after other letters or
    before a character that is no word character, and keys without it. *)
Example stim_field_samples :
  stim_field <$> ["stimCurrent"; "stimDelay"; "stim"; "stimulus"; "frcMax";
                  "prestimWidth1"; "stimPulse-count"; "stimstimA_b9"; "STIMX"]
  = [Some "stim_current"; None; None; None; None;
     Some "stim_width1"; Some "stim_pulse"; Some "stim_a_b9"; None].
Proof. vm_compute. reflexivity. Qed.

Lemma trial_ingestion_duplicates_witness :
  let E := Sample.world "Speedgoat" Sample.two_trials Sample.two_ramps in
  let cond_key : gmap string val := Sample.key ∪ {[ "condition_id" := VNum 0 ]} in
  ∃ a q t, parseparams (Sample.ramp 0.5) = OK (a, q, t) ∧
    (∃ s', insert_condition_data E Sample.key a q Sample.ingested
           = (OK cond_key, s', []) ∧
           ∀ t, s' t = Sample.ingested t) ∧
    (∃ e, insert_trial_data E cond_key Sample.data 1 (Sample.ramp 0.5)
            Sample.ingested = (Err e, Sample.ingested, [])).
Proof.
  intros E cond_key. eexists _, _, _. split; [vm_compute; reflexivity|].
  pose proof (trial_ingestion_duplicates E Sample.key Sample.ingested) as [HC HT].
  split.
  - apply (HC _ _ (VNum 0) cond_key).
    + vm_compute. reflexivity.
    + apply key_fields. vm_compute. reflexivity.
    + compute_done.
    + compute_done.
    + apply Forall_forall. compute_done.
    + vm_compute. reflexivity.
  - apply (HT cond_key Sample.data 1 (Sample.ramp 0.5)
              (cond_key ∪ Sample.data ∪
               {[ "trial_number" := VNum 1; "save_tag" := VNum 3 ]})).
    + apply Forall_forall. compute_done.
    + compute_done.
    + apply Forall_forall. compute_done.
    + vm_compute. reflexivity.
Defined.

(** C6 as it is stated fails: the first of two trials has an unknown
    profile type; the run raises, reports nothing, and the second trial, a
    ramp, is not ingested. *)
Lemma unknown_type_not_skipped :
  let run := make (Sample.world "Speedgoat" Sample.two_trials Sample.one_unknown)
                  Sample.key empty_store in
  run.1.1 = Err (UnboundLocalError "targ_type_rel") ∧
  run.2 = [] ∧
  run.1.2 Behavior_Trial = [] ∧
  run.1.2 ConditionParams = [].
Proof. intros run. split; [|split; [|split]]; vm_compute; reflexivity. Qed.

Lemma unknown_profile_type_aborts_witness :
  let files := "pacman_beh_007.params" :: Sample.two_trials in
  let run := make (Sample.world "Speedgoat" files Sample.one_unknown)
                  Sample.key empty_store in
  is_err run.1.1 ∧
  run.1.2 Behavior_Condition = empty_store Behavior_Condition ∧
  run.1.2 Behavior_Trial = empty_store Behavior_Trial ∧
  ∃ reported,
    reported `prefix_of`
      (filter (λ p, ¬ has_data (filter (λ f, endswith f ".data") files) p)
              (filter (λ f, endswith f ".params") files)) ∧
    ("pacman_beh_001.params" ∉ reported) ∧
    Forall2 missing_data_line reported run.2.
Proof.
  intros files run.
  refine (unknown_profile_type_aborts
            (Sample.world "Speedgoat" files Sample.one_unknown)
            Sample.key (Sample.dir +:+ "summary.txt") (VNum 1000)
            (Sample.dir +:+ "summary.txt") files
            "pacman_beh_001.params" (Sample.typed "XYZ") (VStr "XYZ")
            empty_store run.1.1 run.1.2 run.2 _ _ _ _ _ _ _ _ _ _ _ _ _);
    try (vm_compute; reflexivity); try compute_done; try discriminate.
Defined.

(** On that batch the run has printed the line of the parameter file of
    trial 007, which has no data file, and nothing for the file of the
    unknown type. *)
Example unknown_type_not_reported :
  (make (Sample.world "Speedgoat" ("pacman_beh_007.params" :: Sample.two_trials)
           Sample.one_unknown)
        Sample.key empty_store).2
  = ["Missing data file for trial 007"].
Proof. vm_compute. reflexivity. Qed.

(** The sample batch with a parameter file for trial 007 and a data file
    for trial 9 that have no counterpart: the two trials are ingested and
    the two files are reported. *)
Example unpaired_files_reported :
  let run := make (Sample.world "Speedgoat"
                     ("pacman_beh_007.params" :: Sample.two_trials ++ ["x_beh_9.data"])
                     Sample.two_ramps)
                  Sample.key empty_store in
  run.1.1 = OK tt ∧
  run.2 = ["Missing data file for trial 007";
           "Missing parameters file for trial 9"] ∧
  (λ r : gmap string val, r !! "trial_number") <$> run.1.2 Behavior_Trial
  = [Some (VNum 1); Some (VNum 2)].
Proof. intros run. split; [|split]; vm_compute; reflexivity. Qed.


(** C9 at a batch with a parameter file without data file and a trial
    whose two files have the letters [data] before the extension.  The
    two files carry the same trial number and the first loop pairs them
    (line 276) and registers the condition; the second loop replaces
    [data] in the whole name (line 343), finds no parameter file and
    reports the data file: the trial that has both its files gets no row
    of Behavior.Condition or Behavior.Trial. *)
Lemma paired_trial_not_ingested :
  let run := make (Sample.world "Speedgoat" Sample.stem_unpaired
                     Sample.data_in_name_ramp)
                  Sample.key empty_store in
  trial_token "mydata_beh_001.params" = OK "001" ∧
  trial_token "mydata_beh_001.data" = OK "001" ∧
  str_replace "mydata_beh_001.params" "params" "data" = "mydata_beh_001.data" ∧
  str_replace "mydata_beh_001.data" "data" "params" = "myparams_beh_001.params" ∧
  run.1.1 = OK tt ∧
  run.2 = ["Missing data file for trial 007";
           "Missing parameters file for trial 1"] ∧
  Sample.columns ["condition_id"] (run.1.2 ConditionParams) = [[Some (VNum 0)]] ∧
  run.1.2 Behavior_Condition = [] ∧
  run.1.2 Behavior_Trial = [].
Proof. intros run. repeat apply conj; vm_compute; reflexivity. Qed.


(** A regular record on the sample registry: the stimulated condition of
    polarity 1 is new, it is inserted, and a second insertion does
    nothing. *)
Example regular_record_inserted_once :
  let E := Sample.world "Speedgoat" [] [] in
  ∃ a q t s1 o,
    parseparams (Sample.stimulated 1) = OK (a, q, t) ∧
    insert_condition E a q t Sample.registry = (OK tt, s1, o) ∧
    Sample.columns ["condition_id"] (s1 ConditionParams)
    = [[Some (VNum 0)]; [Some (VNum 1)]; [Some (VNum 2)]] ∧
    insert_condition E a q t s1 = (OK tt, s1, []).
Proof.
  intros E. eexists _, _, _, _, _. split; [vm_compute; reflexivity|].
  assert (∀ x : res unit * store * list string, x.1.1 = OK tt → x = (OK tt, x.1.2, x.2))
    as Heta by (by intros [[??]?]; cbn; intros ->).
  match goal with
  | |- ?run = _ ∧ _ =>
      assert (run = (OK tt, run.1.2, run.2)) as Hrun
        by (apply Heta; vm_compute; reflexivity)
  end.
  split; [exact Hrun|]. split; [vm_compute; reflexivity|].
  eapply (insert_condition_idempotent E (Sample.stimulated 1));
    [vm_compute; reflexivity| | |exact Hrun].
  - intros _. split; [|vm_compute; reflexivity].
    intros Hempty. apply (f_equal (λ m : gmap string val, m !! "stim_current")) in Hempty.
    vm_compute in Hempty. discriminate Hempty.
  - intros Hoff. vm_compute in Hoff. discriminate Hoff.
Qed.

(** The pairing of the second loop is by name: the word [data] is replaced
    wherever it stands, so that a data file with [data] before its
    extension finds no parameter file although the first loop found its
    data file. *)
Example data_in_name_not_paired :
  let run := make (Sample.world "Speedgoat" Sample.data_in_name
                     Sample.data_in_name_ramp)
                  Sample.key empty_store in
  run.1.1 = OK tt ∧
  run.2 = ["Missing parameters file for trial 1"] ∧
  Sample.columns ["condition_id"] (run.1.2 ConditionParams) = [[Some (VNum 0)]] ∧
  run.1.2 Behavior_Trial = [].
Proof. intros run. split; [|split; [|split]]; vm_compute; reflexivity. Qed.

(** The second insertion of trial 1 of the sample recording is refused as
    a duplicate. *)
Example trial_duplicate_error :
  (insert_trial_data (Sample.world "Speedgoat" Sample.two_trials Sample.two_ramps)
     (Sample.key ∪ {[ "condition_id" := VNum 0 ]}) Sample.data 1
     (Sample.ramp 0.5) Sample.ingested).1.1
  = Err (DuplicateError "Behavior.Trial").
Proof. vm_compute. reflexivity. Qed.

Lemma make_without_speedgoat_witness :
  let E := Sample.world "Simulink" Sample.two_trials Sample.two_ramps in
  let run := make E Sample.key empty_store in
  run.2 = [] ∧
  (∀ t, t ≠ Behavior → run.1.2 t = empty_store t) ∧
  (run.1.1 = OK tt → run.1.2 Behavior = empty_store Behavior ++ [Sample.key]) ∧
  (∀ rows path fs path',
     insert_row (schema_of (recording_pk E) Behavior) Behavior false
                (empty_store Behavior) Sample.key = OK rows →
     fetch_recording E Sample.key = OK (path, fs) →
     ensurelocal E path = OK path' →
     run.1.1 = OK tt).
Proof.
  intros E run.
  refine (make_without_speedgoat E Sample.key "Simulink" empty_store
            run.1.1 run.1.2 run.2 _ _ _).
  - reflexivity.
  - discriminate.
  - apply run_eta.
Defined.

(** On the sample recording the run for another controller returns and
    has written the key of the recording only. *)
Example other_controller_root_only :
  let run := make (Sample.world "Simulink" Sample.two_trials Sample.two_ramps)
                  Sample.key empty_store in
  run.1.1 = OK tt ∧ run.2 = [] ∧
  run.1.2 Behavior = [Sample.key] ∧
  Forall (λ t, run.1.2 t = [])
    [ConditionParams; Force; Stim; Target; Static; Ramp; Sine; Chirp;
     TaskState; Behavior_Condition; Behavior_Trial].
Proof.
  intros run. split; [|split; [|split]]; try (vm_compute; reflexivity).
  repeat constructor; vm_compute; reflexivity.
Qed.

(** ** The further properties on the sample recording *)

Lemma run_ok_eta {A} (x : res A * store * list string) (a : A) :
  x.1.1 = OK a → x = (OK a, x.1.2, x.2).
Proof. destruct x as [[??]?]. cbn. by intros ->. Qed.

Lemma references_empty rpk : references rpk empty_store.
Proof. intros t t' ks _ r Hr. by apply elem_of_nil in Hr. Qed.

(** The store of the sample recording keeps its references. *)
Lemma ingested_references :
  references ["session_date"; "monkey"] Sample.ingested.
Proof.
  refine (proj1 (make_keeps_with
                   (Sample.world "Speedgoat" Sample.two_trials Sample.two_ramps)
                   Sample.key (λ _, True) _ _ _ _ empty_store _ _ _
                   (references_empty _) I (run_eta _))); done.
Qed.

Lemma make_appends_only_witness :
  let run := make (Sample.world "Speedgoat" Sample.two_trials Sample.two_stimulated)
                  Sample.key2 Sample.ingested in
  run.1.1 = OK tt ∧ ∀ t, ∃ new, run.1.2 t = Sample.ingested t ++ new.
Proof.
  intros run. split; [vm_compute; reflexivity|].
  exact (make_appends_only _ Sample.key2 Sample.ingested _ _ _ (run_eta run)).
Defined.

Lemma make_keeps_references_witness :
  let E := Sample.world "Speedgoat" Sample.two_trials Sample.two_ramps in
  let E2 := Sample.world "Speedgoat" Sample.two_trials Sample.two_stimulated in
  references (recording_pk E2) Sample.ingested ∧
  references (recording_pk E2) (make E2 Sample.key2 Sample.ingested).1.2.
Proof.
  intros E E2.
  assert (references (recording_pk E2) Sample.ingested) as Hingested.
  { exact (make_keeps_references E Sample.key empty_store _ _ _
             (references_empty _) (run_eta (make E Sample.key empty_store))). }
  split; [exact Hingested|].
  exact (make_keeps_references E2 Sample.key2 Sample.ingested _ _ _ Hingested
           (run_eta _)).
Defined.

Lemma make_keeps_part_ids_witness :
  let E := Sample.world "Speedgoat" Sample.two_trials Sample.two_stimulated in
  part_consistent (recording_pk E) PStim Sample.registry ∧
  part_consistent (recording_pk E) PStim (make E Sample.key Sample.registry).1.2.
Proof.
  intros E.
  assert (part_consistent (recording_pk E) PStim Sample.registry) as Hregistry;
    [|split; [exact Hregistry|];
      refine (make_keeps_part_ids E Sample.key PStim Sample.registry _ _ _ _
                Hregistry (run_eta _))].
  2:{ intros _ path params Hread. cbn [E Sample.world readtrialparams] in Hread.
    unfold Sample.two_stimulated, Sample.assoc in Hread.
    repeat case_bool_decide;
      first [discriminate Hread | injection Hread as <-; vm_compute; reflexivity]. }
  unfold part_consistent. cbn [part_rel].
  assert (length (Sample.registry Stim) = 1%nat) as Hlen
    by (vm_compute; reflexivity).
  destruct (Sample.registry Stim) as [|x [|]]; try discriminate Hlen.
  intros r1 r2 H1 H2.
  apply list_elem_of_singleton in H1 as ->.
  apply list_elem_of_singleton in H2 as ->. done.
Defined.

Lemma make_rerun_refused_witness :
  let E := Sample.world "Speedgoat" Sample.two_trials Sample.two_ramps in
  make E Sample.key Sample.ingested
  = (Err (DuplicateError "Behavior"), Sample.ingested, []).
Proof.
  intros E.
  refine (proj2 (make_rerun_refused E Sample.key Sample.ingested) empty_store _
            (run_ok_eta (make E Sample.key empty_store) tt _)).
  vm_compute. reflexivity.
Defined.

Lemma other_files_ignored_witness :
  let E := Sample.world "Speedgoat" [] Sample.two_ramps in
  make (with_files E (Sample.two_trials ++ "notes.txt" :: ["x_beh_9.data"]))
       Sample.key empty_store
  = make (with_files E (Sample.two_trials ++ ["x_beh_9.data"]))
         Sample.key empty_store.
Proof. intros E. apply other_files_ignored; reflexivity. Defined.

Lemma unnumbered_file_aborts_witness :
  let E := Sample.world "Speedgoat" [] Sample.two_ramps in
  let run := make (with_files E (Sample.two_trials ++ ["trial_003.params"]))
                  Sample.key empty_store in
  is_err run.1.1 ∧
  run.1.2 Behavior_Condition = empty_store Behavior_Condition ∧
  run.1.2 Behavior_Trial = empty_store Behavior_Trial.
Proof.
  intros E run.
  refine (proj1 (unnumbered_file_aborts E Sample.key
                   (Sample.two_trials ++ ["trial_003.params"]) "trial_003.params"
                   empty_store run.1.1 run.1.2 run.2 eq_refl _ (run_eta _)) _ _).
  - unfold Sample.two_trials. cbn [app]. do 4 right. by left.
  - reflexivity.
  - vm_compute. exact I.
Defined.

Lemma loops_write_separate_tables_witness :
  let E := Sample.world "Speedgoat" Sample.two_trials Sample.two_ramps in
  let pass1 := populate_condition E Sample.dir ["pacman_beh_007.data"]
                 "pacman_beh_007.params" Sample.ingested in
  let pass2 := populate_trial E Sample.key2 Sample.dir (VNum 1000) (VNum 7)
                 ["pacman_beh_001.params"] "pacman_beh_001.data" Sample.ingested in
  (∀ t, ¬ registry_table t → pass1.1.2 t = Sample.ingested t) ∧
  (∀ t, ¬ trial_table t → pass2.1.2 t = Sample.ingested t).
Proof.
  intros E pass1 pass2. split.
  - exact (proj1 (loops_write_separate_tables E Sample.key2 Sample.dir (VNum 1000)
                    (VNum 7) [] ["pacman_beh_007.data"] "pacman_beh_007.params"
                    Sample.ingested _ _ _) (run_eta pass1)).
  - exact (proj2 (loops_write_separate_tables E Sample.key2 Sample.dir (VNum 1000)
                    (VNum 7) ["pacman_beh_001.params"] [] "pacman_beh_001.data"
                    Sample.ingested _ _ _) (run_eta pass2)).
Defined.

Lemma make_returns_one_success_witness :
  ∃ st id,
    filter (λ r : gmap string val, r !! "task_state_name" = Some (VStr "Success"))
           (Sample.ingested TaskState) = [st] ∧
    st !! "task_state_id" = Some id.
Proof.
  refine (make_returns_one_success
            (Sample.world "Speedgoat" Sample.two_trials Sample.two_ramps)
            Sample.key empty_store Sample.ingested _ eq_refl
            (run_ok_eta _ tt _)).
  vm_compute. reflexivity.
Defined.

Lemma target_attr_extracted_witness :
  ∃ a q t, parseparams (Sample.ramp 0.5) = OK (a, q, t) ∧
  ∃ duration offset offset0 padDur ty,
    get (Sample.ramp 0.5) "duration" = Some duration ∧
    get (Sample.ramp 0.5) "offset" = Some offset ∧ index offset 0 = OK offset0 ∧
    get (Sample.ramp 0.5) "padDur" = Some padDur ∧
    get (Sample.ramp 0.5) "type" = Some (VStr ty) ∧
    targ_attr a = {[ "target_duration" := duration; "target_offset" := offset0;
                     "target_pad" := padDur ]} ∧
    ((ty = "STA" ∧ t = Static ∧ targ_type_attr a = ∅) ∨
     (ty = "RMP" ∧ t = Ramp ∧
      ∃ amplitude a0,
        get (Sample.ramp 0.5) "amplitude" = Some amplitude ∧
        index amplitude 0 = OK a0 ∧
        targ_type_attr a = {[ "target_amplitude" := a0 ]}) ∨
     (ty = "SIN" ∧ t = Sine ∧
      ∃ amplitude a0 frequency f0,
        get (Sample.ramp 0.5) "amplitude" = Some amplitude ∧
        index amplitude 0 = OK a0 ∧
        get (Sample.ramp 0.5) "frequency" = Some frequency ∧
        index frequency 0 = OK f0 ∧
        targ_type_attr a = {[ "target_amplitude" := a0; "target_frequency" := f0 ]}) ∨
     (ty = "CHP" ∧ t = Chirp ∧
      ∃ amplitude a0 frequency f0 f1,
        get (Sample.ramp 0.5) "amplitude" = Some amplitude ∧
        index amplitude 0 = OK a0 ∧
        get (Sample.ramp 0.5) "frequency" = Some frequency ∧
        index frequency 0 = OK f0 ∧ index frequency 1 = OK f1 ∧
        targ_type_attr a = {[ "target_amplitude" := a0; "target_frequency_init" := f0;
                              "target_frequency_final" := f1 ]})).
Proof.
  eexists _, _, _. split; [vm_compute; reflexivity|].
  exact (target_attr_extracted (Sample.ramp 0.5) _ _ _ eq_refl).
Defined.

Lemma parseparams_missing_key_witness :
  let params := [ ("frcMax", VNum 5); ("frcOff", dec4 0.1); ("frcPol", VNum 1);
                  ("duration", dec4 2.0); ("offset", VArr [units4 0.0]);
                  ("padDur", dec4 0.1) ] in
  ∃ e, parseparams params = Err e ∧
       (e = IndexError ∨ e = TypeError ∨
        ∃ k', e = KeyError k' ∧ get params k' = None).
Proof.
  intros params. apply (parseparams_missing_key params "type"); [|reflexivity].
  do 6 right. by left.
Defined.

Lemma all_cond_attr_complete_witness :
  ∃ a q t, parseparams (Sample.stimulated 1) = OK (a, q, t) ∧
    ∀ k v, all_cond_attr a !! k = Some v ↔
           force_attr a !! k = Some v ∨ stim_attr a !! k = Some v ∨
           targ_attr a !! k = Some v ∨ targ_type_attr a !! k = Some v.
Proof.
  eexists _, _, _. split; [vm_compute; reflexivity|].
  exact (all_cond_attr_complete (Sample.stimulated 1) _ _ _ eq_refl).
Defined.

Lemma behavior_path_of_file_witness :
  behavior_path_of ("/data/2020-01-12/speedgoat" +:+ String sep "summary.txt")
  = "/data/2020-01-12/speedgoat" +:+ String sep EmptyString ∧
  behavior_path_of "summary.txt" = EmptyString.
Proof.
  apply behavior_path_of_file. apply Forall_forall. cbn.
  repeat constructor; discriminate.
Defined.

Lemma paired_files_same_trial_witness :
  trial_token "pacman_beh_001.params" = trial_token "pacman_beh_001.data".
Proof. apply paired_files_same_trial. left. reflexivity. Defined.

Lemma make_trial_rows_witness :
  let E := Sample.world "Speedgoat" [] Sample.two_ramps in
  let run := make (with_files E Sample.unpaired) Sample.key empty_store in
  let param_files := filter (λ f, endswith f ".params") Sample.unpaired in
  let data_files := filter (λ f, endswith f ".data") Sample.unpaired in
  ∃ ss new,
    fetch1 (eval (recording_pk E) run.1.2
              (QRestrict (QTable TaskState) {[ "task_state_name" := VStr "Success" ]}))
           "task_state_id" = OK ss ∧
    run.1.2 Behavior_Trial = empty_store Behavior_Trial ++ new ∧
    Forall2 (trial_row_of E Sample.key
               (behavior_path_of (Sample.dir +:+ "summary.txt")) (VNum 1000) ss run.1.2)
            (filter (has_params param_files) data_files) new.
Proof.
  intros E run.
  refine (make_trial_rows E Sample.key Sample.unpaired _ _ _ empty_store
            run.1.2 run.2 eq_refl eq_refl eq_refl (run_ok_eta run tt _)).
  vm_compute. reflexivity.
Defined.

Lemma new_condition_resolved_witness :
  let E := Sample.world "Speedgoat" [] [] in
  ∃ a q t, parseparams (Sample.stimulated 1) = OK (a, q, t) ∧
    let s1 := (insert_condition E a q t Sample.ingested).1.2 in
    ∃ c, new_id (Sample.ingested ConditionParams) "condition_id" = OK c ∧
         fetch_condition_id E a q s1 = (OK (VNum c), s1, []).
Proof.
  intros E. eexists _, _, _. split; [vm_compute; reflexivity|]. intros s1.
  refine (new_condition_resolved E (Sample.stimulated 1) _ _ _ Sample.ingested
            s1 _ eq_refl _ ingested_references _ (run_ok_eta _ tt _)).
  - intros _. split; [|vm_compute; reflexivity].
    intros Hempty.
    apply (f_equal (λ m : gmap string val, m !! "stim_current")) in Hempty.
    vm_compute in Hempty. discriminate Hempty.
  - vm_compute. reflexivity.
  - vm_compute. reflexivity.
Defined.

Lemma make_printed_lines_witness :
  let E := Sample.world "Speedgoat" [] Sample.two_ramps in
  let run := make (with_files E Sample.unpaired) Sample.key empty_store in
  let param_files := filter (λ f, endswith f ".params") Sample.unpaired in
  let data_files := filter (λ f, endswith f ".data") Sample.unpaired in
  ∃ o1 o2,
    run.2 = o1 ++ o2 ∧
    Forall2 missing_data_line (filter (λ f, ¬ has_data data_files f) param_files) o1 ∧
    Forall2 missing_params_line
            (filter (λ d, ¬ has_params param_files d) data_files) o2.
Proof.
  intros E run.
  refine (make_printed_lines E Sample.key Sample.unpaired empty_store
            run.1.2 run.2 eq_refl (run_ok_eta run tt _)).
  vm_compute. reflexivity.
Defined.

Lemma task_states_registered_witness :
  let run := make (Sample.world "Speedgoat" Sample.two_trials Sample.two_ramps)
                  Sample.key empty_store in
  run.1.1 = OK tt ∧
  ∀ row, row ∈ Sample.task_states →
    ∃ r, r ∈ run.1.2 TaskState ∧ is_Some (row !! "task_state_id") ∧
         r !! "task_state_id" = row !! "task_state_id".
Proof.
  intros run.
  assert (run.1.1 = OK tt) as Hrun by (vm_compute; reflexivity).
  split; [exact Hrun|].
  exact (task_states_registered
           (Sample.world "Speedgoat" Sample.two_trials Sample.two_ramps)
           Sample.key _ _ _ Sample.task_states empty_store run.1.2 run.2
           eq_refl eq_refl eq_refl eq_refl (run_ok_eta run tt Hrun)).
Defined.

Lemma make_registers_recording_witness :
  let E := Sample.world "Speedgoat" Sample.two_trials Sample.two_stimulated in
  let run := make E Sample.key2 Sample.ingested in
  run.1.2 Behavior = Sample.ingested Behavior ++ [Sample.key2] ∧
  ∃ new, run.1.2 Behavior_Condition = Sample.ingested Behavior_Condition ++ new ∧
         Forall (λ x, ∃ c, x = Sample.key2 ∪ {[ "condition_id" := c ]}) new.
Proof.
  intros E run.
  refine (make_registers_recording E Sample.key2 Sample.ingested run.1.2 run.2
            (run_ok_eta run tt _)).
  vm_compute. reflexivity.
Defined.

Lemma make_keeps_one_row_per_condition_witness :
  let E := Sample.world "Speedgoat" Sample.two_trials Sample.two_ramps in
  let E2 := Sample.world "Speedgoat" Sample.two_trials Sample.two_stimulated in
  one_row_per_condition Sample.ingested ∧
  one_row_per_condition (make E2 Sample.key2 Sample.ingested).1.2.
Proof.
  intros E E2.
  assert (one_row_per_condition Sample.ingested) as Hingested.
  { refine (make_keeps_one_row_per_condition E Sample.key empty_store _ _ _
              (references_empty _) _ (run_eta (make E Sample.key empty_store))).
    intros t _. apply NoDup_nil_2. }
  split; [exact Hingested|].
  exact (make_keeps_one_row_per_condition E2 Sample.key2 Sample.ingested _ _ _
           ingested_references Hingested (run_eta _)).
Defined.
